(** * Pixshop image editor: the client logic of [App.tsx]

    A shallow embedding of the editor component: the edit history with
    undo and redo, the pan and zoom view transform, the mapping between
    viewport and image coordinates, and the canvas work behind erase,
    crop and rotate/flip.

    Conventions of the embedding.
    - A JavaScript [number] is a rational ([Q]) in the state and in the
      handlers: their arithmetic is carried out exactly, and [===] on
      numbers is [Qeq_bool].  A statement that is an equation between
      computed numbers is an equation of exact arithmetic, and says so.
      The module [Double] has the zoom arithmetic of the same handlers
      in IEEE binary64, the numbers the code computes with; it shows
      where rounding makes the two differ and where it does not.
    - A component state is one record, [State]; the [useRef] cells and the
      erase canvas the handlers draw on are fields of it as well.  What a
      handler only reads from the page (element sizes, bounding
      rectangles, the device pixel ratio, the clock) is the record [Dom].
    - A handler is a function of the state of the render that created it.
      A handler that waits for the remote service returns [Await] with
      the request and the continuation that runs on the reply, given the
      page and the state of that later moment.
    - A canvas keeps its size, the state of its 2D context and the list
      of drawing operations carried out on it, in order.  Its size is a
      whole number: a number assigned to [width] or [height] is converted
      to an unsigned long, as the DOM does.
    - The [type] of a file made by [new File] is the given type in lower
      case, or empty, as the File API has it. *)

From Stdlib Require Import QArith ZArith List String Ascii Bool Lia Lqa.
From Stdlib Require Import Qround DecimalString PrimFloat.
Import ListNotations.

Local Open Scope string_scope.
Local Open Scope list_scope.
Local Open Scope Q_scope.

(** ** JavaScript built-ins used by the component *)

Module Js.

Section Arrays.
Context {A : Type}.

(** A bound of [slice]: negative counts from the end, and the result is
    kept inside [0, len]. *)
Definition relative (len k : Z) : Z :=
  if (k <? 0)%Z then Z.max (len + k) 0 else Z.min k len.

(** [arr.slice(start, end)] *)
Definition slice (arr : list A) (start end_ : Z) : list A :=
  let len := Z.of_nat (List.length arr) in
  let from := relative len start in
  let final := relative len end_ in
  firstn (Z.to_nat (final - from)) (skipn (Z.to_nat from) arr).

(** [arr.push(x)] *)
Definition push (arr : list A) (x : A) : list A := arr ++ [x].

(** [arr[i]], [undefined] outside the array *)
Definition index (arr : list A) (i : Z) : option A :=
  if (i <? 0)%Z then None else nth_error arr (Z.to_nat i).

(** [arr.length] *)
Definition length (arr : list A) : Z := Z.of_nat (List.length arr).
End Arrays.

(** Comparison of numbers *)
Definition ltb (a b : Q) : bool := negb (Qle_bool b a).
Definition leb (a b : Q) : bool := Qle_bool a b.
Definition gtb (a b : Q) : bool := ltb b a.
Definition eqb (a b : Q) : bool := Qeq_bool a b.

(** [Math.max], [Math.min], [Math.round] *)
Definition max (a b : Q) : Q := if ltb a b then b else a.
Definition min (a b : Q) : Q := if ltb b a then b else a.
Definition round (a : Q) : Q := inject_Z (Qfloor (a + (1 # 2))).

(** [a || b] on numbers: [0] is falsy *)
Definition or_else (a b : Q) : Q := if eqb a 0 then b else a.

(** The conversion of a number to an [unsigned long] (Web IDL): the
    number is truncated towards zero and taken modulo 2^32. *)
Definition truncate (a : Q) : Z := if ltb a 0 then Qceiling a else Qfloor a.
Definition unsigned_long (a : Q) : Z := (truncate a mod 2 ^ 32)%Z.

(** Template literal of an integer, as in [`edited-${Date.now()}.png`] *)
Definition decimal (z : Z) : string := NilZero.string_of_int (Z.to_int z).

Definition line_terminator (c : ascii) : bool :=
  Ascii.eqb c "010" || Ascii.eqb c "013".

(** The group of [.*?;] anchored at the start of [s]: the characters up
    to the first [;], none of them a line terminator. *)
Fixpoint lazy_to_semicolon (s : string) : option string :=
  match s with
  | EmptyString => None
  | String c r =>
      if Ascii.eqb c ";" then Some EmptyString
      else if line_terminator c then None
      else option_map (String c) (lazy_to_semicolon r)
  end.

(** [s.match(/:(.*?);/)]: the first group of the leftmost match *)
Fixpoint match_colon_semicolon (s : string) : option string :=
  match s with
  | EmptyString => None
  | String c r =>
      if Ascii.eqb c ":" then
        match lazy_to_semicolon r with
        | Some g => Some g
        | None => match_colon_semicolon r
        end
      else match_colon_semicolon r
  end.

End Js.

(** ** Geometry *)

Module Point.
Record t : Type := mk { x : Q; y : Q }.
End Point.

Module Hotspot.
(** [{ imageX, imageY }], a point of the displayed image *)
Record t : Type := mk { imageX : Q; imageY : Q }.
End Hotspot.

Module DOMRect.
Record t : Type := mk { left : Q; top : Q; width : Q; height : Q }.
End DOMRect.

Module PixelCrop.
(** The rectangle [react-image-crop] reports, in displayed pixels *)
Record t : Type := mk { x : Q; y : Q; width : Q; height : Q }.
End PixelCrop.

(** ** Pictures and canvases *)

(** A transform call on a 2D context.  The angle of [Rotate] is in units
    of pi: [ctx.rotate(d * Math.PI / 180)] is [Rotate (d / 180)]. *)
Inductive Transform : Type :=
| Translate (tx ty : Q)
| Rotate (half_turns : Q)
| Scale (sx sy : Q)
| SetTransform (a b c d e f : Q).

Inductive PathCmd : Type :=
| MoveTo (px py : Q)
| LineTo (px py : Q).

(** The pixels of a picture: either a picture that came from outside
    (an upload or a reply of the service), known by a tag and its natural
    size, or what a canvas of a given size shows after a list of drawing
    operations. *)
Inductive Pixels : Type :=
| Photo (tag : nat) (w h : Q)
| Raster (w h : Q) (ops : list DrawOp)
with DrawOp : Type :=
| FillRect (fillStyle : string) (ctm : list Transform) (rx ry rw rh : Q)
| ClearRect (rx ry rw rh : Q)
| Stroke (strokeStyle : string) (lineWidth : Q) (lineCap lineJoin : string)
         (ctm : list Transform) (path : list PathCmd)
| DrawImage (src : Pixels) (smoothing : string) (ctm : list Transform)
            (sx sy sw sh dx dy dw dh : Q).

Definition natural_size (p : Pixels) : Q * Q :=
  match p with
  | Photo _ w h => (w, h)
  | Raster w h _ => (w, h)
  end.

Module Ctx.
(** The state of a [CanvasRenderingContext2D] the component touches *)
Record t : Type := mk {
  fillStyle : string;
  strokeStyle : string;
  lineWidth : Q;
  lineCap : string;
  lineJoin : string;
  imageSmoothingQuality : string;
  transform : list Transform;
  path : list PathCmd
}.
Definition fresh : t := mk "#000000" "#000000" 1 "butt" "miter" "low" [] [].
End Ctx.

Module Canvas.
Record t : Type := mk {
  width : Q;
  height : Q;
  ctx : Ctx.t;
  ops : list DrawOp
}.

(** [document.createElement('canvas')] *)
Definition create : t := mk 300 150 Ctx.fresh [].

(** Assigning [width] or [height] clears the bitmap and resets the
    context.  [set_width] and [set_height] store a size that is an
    unsigned long already, as the natural sizes of an image are. *)
Definition set_width (v : Q) (c : t) : t := mk v (height c) Ctx.fresh [].
Definition set_height (v : Q) (c : t) : t := mk (width c) v Ctx.fresh [].

(** What the setter of [width] or [height] stores for a number [v]: [v]
    as an unsigned long, and the default of the attribute when that is
    above 2^31 - 1 (HTML Standard, reflected unsigned long attributes). *)
Definition size (default : Z) (v : Q) : Q :=
  let n := Js.unsigned_long v in
  inject_Z (if (n <=? 2147483647)%Z then n else default).

(** [canvas.width = v] and [canvas.height = v] for a number [v] *)
Definition assign_width (v : Q) : t -> t := set_width (size 300 v).
Definition assign_height (v : Q) : t -> t := set_height (size 150 v).

Definition with_ctx (f : Ctx.t -> Ctx.t) (c : t) : t :=
  mk (width c) (height c) (f (ctx c)) (ops c).
Definition draw (op : DrawOp) (c : t) : t :=
  mk (width c) (height c) (ctx c) (ops c ++ [op]).

Definition set_fillStyle (v : string) : t -> t :=
  with_ctx (fun k => Ctx.mk v (Ctx.strokeStyle k) (Ctx.lineWidth k) (Ctx.lineCap k)
                       (Ctx.lineJoin k) (Ctx.imageSmoothingQuality k)
                       (Ctx.transform k) (Ctx.path k)).
Definition set_strokeStyle (v : string) : t -> t :=
  with_ctx (fun k => Ctx.mk (Ctx.fillStyle k) v (Ctx.lineWidth k) (Ctx.lineCap k)
                       (Ctx.lineJoin k) (Ctx.imageSmoothingQuality k)
                       (Ctx.transform k) (Ctx.path k)).
Definition set_lineWidth (v : Q) : t -> t :=
  with_ctx (fun k => Ctx.mk (Ctx.fillStyle k) (Ctx.strokeStyle k) v (Ctx.lineCap k)
                       (Ctx.lineJoin k) (Ctx.imageSmoothingQuality k)
                       (Ctx.transform k) (Ctx.path k)).
Definition set_lineCap (v : string) : t -> t :=
  with_ctx (fun k => Ctx.mk (Ctx.fillStyle k) (Ctx.strokeStyle k) (Ctx.lineWidth k) v
                       (Ctx.lineJoin k) (Ctx.imageSmoothingQuality k)
                       (Ctx.transform k) (Ctx.path k)).
Definition set_lineJoin (v : string) : t -> t :=
  with_ctx (fun k => Ctx.mk (Ctx.fillStyle k) (Ctx.strokeStyle k) (Ctx.lineWidth k)
                       (Ctx.lineCap k) v (Ctx.imageSmoothingQuality k)
                       (Ctx.transform k) (Ctx.path k)).
Definition set_imageSmoothingQuality (v : string) : t -> t :=
  with_ctx (fun k => Ctx.mk (Ctx.fillStyle k) (Ctx.strokeStyle k) (Ctx.lineWidth k)
                       (Ctx.lineCap k) (Ctx.lineJoin k) v
                       (Ctx.transform k) (Ctx.path k)).
Definition map_transform (f : list Transform -> list Transform) : t -> t :=
  with_ctx (fun k => Ctx.mk (Ctx.fillStyle k) (Ctx.strokeStyle k) (Ctx.lineWidth k)
                       (Ctx.lineCap k) (Ctx.lineJoin k) (Ctx.imageSmoothingQuality k)
                       (f (Ctx.transform k)) (Ctx.path k)).
Definition map_path (f : list PathCmd -> list PathCmd) : t -> t :=
  with_ctx (fun k => Ctx.mk (Ctx.fillStyle k) (Ctx.strokeStyle k) (Ctx.lineWidth k)
                       (Ctx.lineCap k) (Ctx.lineJoin k) (Ctx.imageSmoothingQuality k)
                       (Ctx.transform k) (f (Ctx.path k))).

Definition translate (tx ty : Q) : t -> t := map_transform (fun m => m ++ [Translate tx ty]).
Definition rotate (half_turns : Q) : t -> t := map_transform (fun m => m ++ [Rotate half_turns]).
Definition scale (sx sy : Q) : t -> t := map_transform (fun m => m ++ [Scale sx sy]).
Definition setTransform (a b c d e f : Q) : t -> t :=
  map_transform (fun _ => [SetTransform a b c d e f]).

Definition beginPath : t -> t := map_path (fun _ => []).
Definition moveTo (px py : Q) : t -> t := map_path (fun p => p ++ [MoveTo px py]).
Definition lineTo (px py : Q) : t -> t := map_path (fun p => p ++ [LineTo px py]).

Definition fillRect (rx ry rw rh : Q) (c : t) : t :=
  draw (FillRect (Ctx.fillStyle (ctx c)) (Ctx.transform (ctx c)) rx ry rw rh) c.
Definition clearRect (rx ry rw rh : Q) (c : t) : t :=
  draw (ClearRect rx ry rw rh) c.
Definition stroke (c : t) : t :=
  draw (Stroke (Ctx.strokeStyle (ctx c)) (Ctx.lineWidth (ctx c)) (Ctx.lineCap (ctx c))
               (Ctx.lineJoin (ctx c)) (Ctx.transform (ctx c)) (Ctx.path (ctx c))) c.
Definition drawImage (src : Pixels) (sx sy sw sh dx dy dw dh : Q) (c : t) : t :=
  draw (DrawImage src (Ctx.imageSmoothingQuality (ctx c)) (Ctx.transform (ctx c))
                  sx sy sw sh dx dy dw dh) c.

(** [drawImage(image, dx, dy, dw, dh)]: the source is the whole picture *)
Definition drawImage5 (src : Pixels) (dx dy dw dh : Q) : t -> t :=
  drawImage src 0 0 (fst (natural_size src)) (snd (natural_size src)) dx dy dw dh.

(** What the canvas shows *)
Definition pixels (c : t) : Pixels := Raster (width c) (height c) (ops c).

(** A canvas without pixels: one of its dimensions is zero *)
Definition empty (c : t) : bool := Js.eqb (width c) 0 || Js.eqb (height c) 0.
End Canvas.

(** ** Files and data URLs *)

(** The bytes of a file: the encoding of a picture, or bytes that are not
    a picture. *)
Inductive Blob : Type :=
| Encoded (p : Pixels)
| Raw (bytes : list Byte.byte).

Module File.
Record t : Type := mk { bits : Blob; name : string; type : string }.

(** Loading the file into an [Image]: [onload] with the picture, or
    [onerror]. *)
Definition decode (f : t) : option Pixels :=
  match bits f with
  | Encoded p => Some p
  | Raw _ => None
  end.

(** A character in the range U+0020 to U+007E *)
Definition printable (c : ascii) : bool :=
  let n := nat_of_ascii c in ((32 <=? n) && (n <=? 126))%nat.

(** An ASCII upper-case letter, and a character in ASCII lower case *)
Definition capital (c : ascii) : bool :=
  let n := nat_of_ascii c in ((65 <=? n) && (n <=? 90))%nat.
Definition lower (c : ascii) : ascii :=
  if capital c then ascii_of_nat (nat_of_ascii c + 32) else c.

Fixpoint all_printable (s : string) : bool :=
  match s with
  | EmptyString => true
  | String c r => printable c && all_printable r
  end.

Fixpoint lowercase (s : string) : string :=
  match s with
  | EmptyString => EmptyString
  | String c r => String (lower c) (lowercase r)
  end.

(** The [type] of the file [new File(bits, name, { type })] (File API):
    the empty string when [type] has a character outside U+0020 to
    U+007E, and [type] in ASCII lower case otherwise. *)
Definition normalize (type : string) : string :=
  if all_printable type then lowercase type else EmptyString.

(** [new File([bits], name, { type })] *)
Definition create (bits : Blob) (name type : string) : t :=
  mk bits name (normalize type).
End File.

(** A data URL string, cut at its first comma: the text before it and,
    when the string has a comma, what the text between the first and
    the second comma decodes to under [atob] ([None] when it is not
    base64). *)
Module DataURL.
Record t : Type := mk { head : string; payload : option (option Blob) }.
End DataURL.

(** [canvas.toDataURL('image/png')]: a canvas without pixels gives the
    string [data:,] (HTML Standard, canvas element). *)
Definition toDataURL (c : Canvas.t) : DataURL.t :=
  if Canvas.empty c then DataURL.mk "data:" (Some (Some (Raw [])))
  else DataURL.mk "data:image/png;base64" (Some (Some (Encoded (Canvas.pixels c)))).

(** A thrown [Error] with its message ([inl]), or a value. *)
Definition Result (A : Type) : Type := (string + A)%type.

Definition bind {A B : Type} (r : Result A) (k : A -> Result B) : Result B :=
  match r with
  | inl message => inl message
  | inr a => k a
  end.

Notation "x <- r ;; k" := (bind r (fun x => k))
  (at level 61, r at next level, right associativity).

Definition throw {A : Type} (message : string) : Result A := inl message.

(** [dataURLtoFile(dataurl, filename)] *)
Definition dataURLtoFile (dataurl : DataURL.t) (filename : string) : Result File.t :=
  match DataURL.payload dataurl with
  | None => inl "Invalid data URL"
  | Some arr1 =>
      match Js.match_colon_semicolon (DataURL.head dataurl) with
      | None => inl "Could not parse MIME type from data URL"
      | Some EmptyString => inl "Could not parse MIME type from data URL"
      | Some mime =>
          match arr1 with
          | None => inl "The string to be decoded is not correctly encoded."
          | Some u8arr => inr (File.create u8arr filename mime)
          end
      end
  end.

(** ** The component state *)

Module Tab.
Inductive t : Type := retouch | erase | adjust | filters | crop | transform.

Definition eqb (a b : t) : bool :=
  match a, b with
  | retouch, retouch | erase, erase | adjust, adjust
  | filters, filters | crop, crop | transform, transform => true
  | _, _ => false
  end.
End Tab.

(** The [useState] cells of [App], in the order of their declaration,
    then the [useRef] cells the handlers assign ([erasePathRef],
    [isPanningRef], [panStartRef]) and the erase canvas behind
    [eraseCanvasRef], which they draw on and clear. *)
Record State : Type := mkState {
  history : list File.t;
  historyIndex : Z;
  prompt : string;
  isLoading : bool;
  error : option string;
  editHotspot : option Point.t;
  displayHotspot : option Hotspot.t;
  activeTab : Tab.t;
  crop : option PixelCrop.t;
  completedCrop : option PixelCrop.t;
  aspect : option Q;
  isComparing : bool;
  isDrawing : bool;
  erasePath : list Point.t;
  scale : Q;
  position : Point.t;
  erasePathRef : list Point.t;
  eraseCanvasRef : option Canvas.t;
  isPanningRef : bool;
  panStartRef : Point.t
}.

(** The state setters: each replaces one cell. *)
Definition setHistory (v : list File.t) (s : State) : State :=
  let 'mkState _ hi pr il er eh dh tab cr cc asp ic idr ep sc pos epr ecr ipr psr := s in
  mkState v hi pr il er eh dh tab cr cc asp ic idr ep sc pos epr ecr ipr psr.
Definition setHistoryIndex (v : Z) (s : State) : State :=
  let 'mkState h _ pr il er eh dh tab cr cc asp ic idr ep sc pos epr ecr ipr psr := s in
  mkState h v pr il er eh dh tab cr cc asp ic idr ep sc pos epr ecr ipr psr.
Definition setPrompt (v : string) (s : State) : State :=
  let 'mkState h hi _ il er eh dh tab cr cc asp ic idr ep sc pos epr ecr ipr psr := s in
  mkState h hi v il er eh dh tab cr cc asp ic idr ep sc pos epr ecr ipr psr.
Definition setIsLoading (v : bool) (s : State) : State :=
  let 'mkState h hi pr _ er eh dh tab cr cc asp ic idr ep sc pos epr ecr ipr psr := s in
  mkState h hi pr v er eh dh tab cr cc asp ic idr ep sc pos epr ecr ipr psr.
Definition setError (v : option string) (s : State) : State :=
  let 'mkState h hi pr il _ eh dh tab cr cc asp ic idr ep sc pos epr ecr ipr psr := s in
  mkState h hi pr il v eh dh tab cr cc asp ic idr ep sc pos epr ecr ipr psr.
Definition setEditHotspot (v : option Point.t) (s : State) : State :=
  let 'mkState h hi pr il er _ dh tab cr cc asp ic idr ep sc pos epr ecr ipr psr := s in
  mkState h hi pr il er v dh tab cr cc asp ic idr ep sc pos epr ecr ipr psr.
Definition setDisplayHotspot (v : option Hotspot.t) (s : State) : State :=
  let 'mkState h hi pr il er eh _ tab cr cc asp ic idr ep sc pos epr ecr ipr psr := s in
  mkState h hi pr il er eh v tab cr cc asp ic idr ep sc pos epr ecr ipr psr.
Definition setActiveTab (v : Tab.t) (s : State) : State :=
  let 'mkState h hi pr il er eh dh _ cr cc asp ic idr ep sc pos epr ecr ipr psr := s in
  mkState h hi pr il er eh dh v cr cc asp ic idr ep sc pos epr ecr ipr psr.
Definition setCrop (v : option PixelCrop.t) (s : State) : State :=
  let 'mkState h hi pr il er eh dh tab _ cc asp ic idr ep sc pos epr ecr ipr psr := s in
  mkState h hi pr il er eh dh tab v cc asp ic idr ep sc pos epr ecr ipr psr.
Definition setCompletedCrop (v : option PixelCrop.t) (s : State) : State :=
  let 'mkState h hi pr il er eh dh tab cr _ asp ic idr ep sc pos epr ecr ipr psr := s in
  mkState h hi pr il er eh dh tab cr v asp ic idr ep sc pos epr ecr ipr psr.
Definition setAspect (v : option Q) (s : State) : State :=
  let 'mkState h hi pr il er eh dh tab cr cc _ ic idr ep sc pos epr ecr ipr psr := s in
  mkState h hi pr il er eh dh tab cr cc v ic idr ep sc pos epr ecr ipr psr.
Definition setIsComparing (v : bool) (s : State) : State :=
  let 'mkState h hi pr il er eh dh tab cr cc asp _ idr ep sc pos epr ecr ipr psr := s in
  mkState h hi pr il er eh dh tab cr cc asp v idr ep sc pos epr ecr ipr psr.
Definition setIsDrawing (v : bool) (s : State) : State :=
  let 'mkState h hi pr il er eh dh tab cr cc asp ic _ ep sc pos epr ecr ipr psr := s in
  mkState h hi pr il er eh dh tab cr cc asp ic v ep sc pos epr ecr ipr psr.
Definition setErasePath (v : list Point.t) (s : State) : State :=
  let 'mkState h hi pr il er eh dh tab cr cc asp ic idr _ sc pos epr ecr ipr psr := s in
  mkState h hi pr il er eh dh tab cr cc asp ic idr v sc pos epr ecr ipr psr.
Definition setScale (v : Q) (s : State) : State :=
  let 'mkState h hi pr il er eh dh tab cr cc asp ic idr ep _ pos epr ecr ipr psr := s in
  mkState h hi pr il er eh dh tab cr cc asp ic idr ep v pos epr ecr ipr psr.
Definition setPosition (v : Point.t) (s : State) : State :=
  let 'mkState h hi pr il er eh dh tab cr cc asp ic idr ep sc _ epr ecr ipr psr := s in
  mkState h hi pr il er eh dh tab cr cc asp ic idr ep sc v epr ecr ipr psr.
Definition set_erasePathRef (v : list Point.t) (s : State) : State :=
  let 'mkState h hi pr il er eh dh tab cr cc asp ic idr ep sc pos _ ecr ipr psr := s in
  mkState h hi pr il er eh dh tab cr cc asp ic idr ep sc pos v ecr ipr psr.
Definition set_eraseCanvasRef (v : option Canvas.t) (s : State) : State :=
  let 'mkState h hi pr il er eh dh tab cr cc asp ic idr ep sc pos epr _ ipr psr := s in
  mkState h hi pr il er eh dh tab cr cc asp ic idr ep sc pos epr v ipr psr.
Definition set_isPanningRef (v : bool) (s : State) : State :=
  let 'mkState h hi pr il er eh dh tab cr cc asp ic idr ep sc pos epr ecr _ psr := s in
  mkState h hi pr il er eh dh tab cr cc asp ic idr ep sc pos epr ecr v psr.
Definition set_panStartRef (v : Point.t) (s : State) : State :=
  let 'mkState h hi pr il er eh dh tab cr cc asp ic idr ep sc pos epr ecr ipr _ := s in
  mkState h hi pr il er eh dh tab cr cc asp ic idr ep sc pos epr ecr ipr v.

Notation "s |> f" := (f s) (at level 71, left associativity, only parsing).

(** ** What a handler reads from the page *)

Module Img.
(** The displayed [<img>] (or a loaded [Image]) with the picture it
    shows. *)
Record t : Type := mk {
  naturalWidth : Q;
  naturalHeight : Q;
  clientWidth : Q;
  clientHeight : Q;
  width : Q;
  height : Q;
  picture : Pixels
}.
End Img.

Record Dom : Type := mkDom {
  imgRef : option Img.t;                 (* [imgRef.current] *)
  imageContainerRef : option DOMRect.t;  (* bounding rectangle of [imageContainerRef.current] *)
  eraseCanvasRect : DOMRect.t;           (* bounding rectangle of the erase canvas *)
  devicePixelRatio : Q;                  (* [window.devicePixelRatio] *)
  context2d : bool;                      (* does [getContext('2d')] of a new canvas give a context *)
  now : Z                                (* [Date.now()] *)
}.

Module MouseEvent.
Record t : Type := mk { clientX : Q; clientY : Q; button : Z }.
End MouseEvent.

Module WheelEvent.
Record t : Type := mk { clientX : Q; clientY : Q; deltaY : Q }.
End WheelEvent.

(** ** The remote service and the outcome of a handler *)

Inductive Request : Type :=
| GenerateErasedImage (image mask : File.t).

(** The promise of the service: resolved with a data URL, or rejected;
    [message] is the message of the rejection when it is an [Error]. *)
Inductive Reply : Type :=
| Resolved (url : DataURL.t)
| Rejected (message : option string).

Inductive Outcome : Type :=
| Done (s : State)
| Threw (message : string) (s : State)
| Await (rq : Request) (s : State) (k : Dom -> Reply -> State -> State).

(** ** Derived values of a render *)

Definition currentImage (s : State) : option File.t :=
  Js.index (history s) (historyIndex s).
Definition originalImage (s : State) : option File.t :=
  Js.index (history s) 0.

Definition canUndo (s : State) : bool := (0 <? historyIndex s)%Z.
Definition canRedo (s : State) : bool :=
  (historyIndex s <? Js.length (history s) - 1)%Z.

(** [canErase] as passed to [ErasePanel] *)
Definition canErase (s : State) : bool := (0 <? Js.length (erasePath s))%Z.

(** [isCropping] as passed to [CropPanel]:
    [!!completedCrop?.width && completedCrop.width > 0] *)
Definition isCropping (s : State) : bool :=
  match completedCrop s with
  | Some c => negb (Js.eqb (PixelCrop.width c) 0) && Js.gtb (PixelCrop.width c) 0
  | None => false
  end.

(** The natural dimensions of the current image, when it is a picture *)
Definition currentSize (s : State) : option (Q * Q) :=
  match currentImage s with
  | Some file => option_map natural_size (File.decode file)
  | None => None
  end.

(** ** View and tool resets *)

Definition resetView (s : State) : State :=
  s |> setScale 1 |> setPosition (Point.mk 0 0).

Definition handleClearErase (s : State) : State :=
  let s := s |> set_erasePathRef [] |> setErasePath [] in
  match eraseCanvasRef s with
  | Some canvas =>
      set_eraseCanvasRef
        (Some (Canvas.clearRect 0 0 (Canvas.width canvas) (Canvas.height canvas) canvas)) s
  | None => s
  end.

Definition handleTabChange (tabId : Tab.t) (s : State) : State :=
  if negb (Tab.eqb (activeTab s) tabId) then
    s |> resetView
      |> setEditHotspot None
      |> setDisplayHotspot None
      |> handleClearErase
      |> setCrop None
      |> setCompletedCrop None
      |> setActiveTab tabId
  else s.

(** ** The edit history *)

(** [addImageToHistory]: [snap] is the state of the render whose
    [history] and [historyIndex] the callback closed over, [s] the state
    the updates are applied to.  For a handler that does not wait, the
    two are the same state. *)
Definition addImageToHistory (snap : State) (newImageFile : File.t) (s : State) : State :=
  let newHistory := Js.slice (history snap) 0 (historyIndex snap + 1) in
  let newHistory := Js.push newHistory newImageFile in
  s |> setHistory newHistory
    |> setHistoryIndex (Js.length newHistory - 1)
    |> setCrop None
    |> setCompletedCrop None
    |> handleClearErase.

Definition handleImageUpload (file : File.t) (s : State) : State :=
  s |> setError None
    |> setHistory [file]
    |> setHistoryIndex 0
    |> setEditHotspot None
    |> setDisplayHotspot None
    |> setActiveTab Tab.retouch
    |> setCrop None
    |> setCompletedCrop None
    |> handleClearErase
    |> resetView.

Definition handleUndo (s : State) : State :=
  if canUndo s then
    s |> setHistoryIndex (historyIndex s - 1)
      |> setEditHotspot None
      |> setDisplayHotspot None
      |> handleClearErase
      |> resetView
  else s.

Definition handleRedo (s : State) : State :=
  if canRedo s then
    s |> setHistoryIndex (historyIndex s + 1)
      |> setEditHotspot None
      |> setDisplayHotspot None
      |> handleClearErase
      |> resetView
  else s.

Definition handleReset (s : State) : State :=
  if (0 <? Js.length (history s))%Z then
    s |> setHistoryIndex 0
      |> setError None
      |> setEditHotspot None
      |> setDisplayHotspot None
      |> handleClearErase
      |> resetView
  else s.

Definition handleUploadNew (s : State) : State :=
  s |> setHistory []
    |> setHistoryIndex (-1)
    |> setError None
    |> setPrompt ""
    |> setEditHotspot None
    |> setDisplayHotspot None
    |> handleClearErase
    |> resetView.

(** The state of [App] on its first render *)
Definition initial : State :=
  mkState [] (-1) "" false None None None Tab.retouch None None None false false []
          1 (Point.mk 0 0) [] None false (Point.mk 0 0).

(** ** Retouch: choosing the point to edit *)

(** [handleImageClick].  The click is mapped through the inverse of the
    pan and zoom transform to a point of the displayed image, and from
    there to a pixel of the picture. *)
Definition handleImageClick (dom : Dom) (e : MouseEvent.t) (s : State) : State :=
  if negb (Tab.eqb (activeTab s) Tab.retouch) then s else
  match imgRef dom, imageContainerRef dom with
  | Some img, Some containerRect =>
      let mouseX := MouseEvent.clientX e - DOMRect.left containerRect in
      let mouseY := MouseEvent.clientY e - DOMRect.top containerRect in
      let imageX := (mouseX - Point.x (position s)) / scale s in
      let imageY := (mouseY - Point.y (position s)) / scale s in
      if Js.ltb imageX 0 || Js.ltb imageY 0
         || Js.gtb imageX (Img.clientWidth img) || Js.gtb imageY (Img.clientHeight img)
      then s
      else
        let scaleX := Img.naturalWidth img / Img.clientWidth img in
        let scaleY := Img.naturalHeight img / Img.clientHeight img in
        let originalX := Js.round (imageX * scaleX) in
        let originalY := Js.round (imageY * scaleY) in
        s |> setDisplayHotspot (Some (Hotspot.mk imageX imageY))
          |> setEditHotspot (Some (Point.mk originalX originalY))
  | _, _ => s
  end.

(** Where the marker of the chosen point is rendered ([left], [top]),
    when it is rendered. *)
Definition hotspotMarker (s : State) : option (Q * Q) :=
  match displayHotspot s with
  | Some h =>
      if negb (isLoading s) && Tab.eqb (activeTab s) Tab.retouch then
        Some (Point.x (position s) + Hotspot.imageX h * scale s,
              Point.y (position s) + Hotspot.imageY h * scale s)
      else None
  | None => None
  end.

(** The two maps of the view transform, as [handleImageClick] and the
    rendering of the marker write them: from a point of the viewport
    (relative to the container) to a point of the displayed image, and
    back. *)
Definition imagePoint (s : State) (mouseX mouseY : Q) : Hotspot.t :=
  Hotspot.mk ((mouseX - Point.x (position s)) / scale s)
             ((mouseY - Point.y (position s)) / scale s).

Definition viewportPoint (s : State) (h : Hotspot.t) : Q * Q :=
  (Point.x (position s) + Hotspot.imageX h * scale s,
   Point.y (position s) + Hotspot.imageY h * scale s).

(** ** Zoom and pan *)

Definition handleWheel (dom : Dom) (e : WheelEvent.t) (s : State) : State :=
  if Tab.eqb (activeTab s) Tab.erase || Tab.eqb (activeTab s) Tab.crop then s else
  match imageContainerRef dom with
  | None => s
  | Some rect =>
      let mouseX := WheelEvent.clientX e - DOMRect.left rect in
      let mouseY := WheelEvent.clientY e - DOMRect.top rect in
      let zoomFactor := 11 # 10 in
      let newScale :=
        if Js.ltb (WheelEvent.deltaY e) 0 then scale s * zoomFactor
        else scale s / zoomFactor in
      let clampedScale := Js.max 1 (Js.min newScale 10) in
      if Js.eqb clampedScale (scale s) then s else
      if Js.leb clampedScale 1 then resetView s else
      let newX := mouseX - (mouseX - Point.x (position s)) * (clampedScale / scale s) in
      let newY := mouseY - (mouseY - Point.y (position s)) * (clampedScale / scale s) in
      s |> setScale clampedScale |> setPosition (Point.mk newX newY)
  end.

Definition handlePanMouseDown (e : MouseEvent.t) (s : State) : State :=
  if Js.gtb (scale s) 1 && (MouseEvent.button e =? 0)%Z
     && negb (Tab.eqb (activeTab s) Tab.erase) && negb (Tab.eqb (activeTab s) Tab.crop)
  then
    s |> set_isPanningRef true
      |> set_panStartRef (Point.mk (MouseEvent.clientX e - Point.x (position s))
                                   (MouseEvent.clientY e - Point.y (position s)))
  else s.

Definition handlePanMouseMove (e : MouseEvent.t) (s : State) : State :=
  if isPanningRef s then
    let newX := MouseEvent.clientX e - Point.x (panStartRef s) in
    let newY := MouseEvent.clientY e - Point.y (panStartRef s) in
    s |> setPosition (Point.mk newX newY)
  else s.

Definition handlePanEnd (s : State) : State :=
  if isPanningRef s then s |> set_isPanningRef false else s.

Definition handleZoomIn (dom : Dom) (s : State) : State :=
  match imageContainerRef dom with
  | None => s
  | Some rect =>
      let centerX := DOMRect.width rect / 2 in
      let centerY := DOMRect.height rect / 2 in
      let newScale := Js.min (scale s * (5 # 4)) 10 in
      let newX := centerX - (centerX - Point.x (position s)) * (newScale / scale s) in
      let newY := centerY - (centerY - Point.y (position s)) * (newScale / scale s) in
      s |> setScale newScale |> setPosition (Point.mk newX newY)
  end.

Definition handleZoomOut (dom : Dom) (s : State) : State :=
  let newScale := Js.max (scale s / (5 # 4)) 1 in
  if Js.leb newScale 1 then resetView s else
  match imageContainerRef dom with
  | None => s
  | Some rect =>
      let centerX := DOMRect.width rect / 2 in
      let centerY := DOMRect.height rect / 2 in
      let newX := centerX - (centerX - Point.x (position s)) * (newScale / scale s) in
      let newY := centerY - (centerY - Point.y (position s)) * (newScale / scale s) in
      s |> setScale newScale |> setPosition (Point.mk newX newY)
  end.

(** A request to zoom, and the handler that serves it *)
Inductive ZoomRequest : Type :=
| Wheel (e : WheelEvent.t)
| ZoomInButton
| ZoomOutButton.

Definition zoom (dom : Dom) (r : ZoomRequest) (s : State) : State :=
  match r with
  | Wheel e => handleWheel dom e s
  | ZoomInButton => handleZoomIn dom s
  | ZoomOutButton => handleZoomOut dom s
  end.

(** The scale a request asks for, before it is clamped *)
Definition requestedScale (r : ZoomRequest) (s : State) : Q :=
  match r with
  | Wheel e =>
      if Js.ltb (WheelEvent.deltaY e) 0 then scale s * (11 # 10) else scale s / (11 # 10)
  | ZoomInButton => scale s * (5 # 4)
  | ZoomOutButton => scale s / (5 # 4)
  end.

(** Whether the handler of a request gets past its guards: the wheel is
    ignored on the erase and crop tabs, and the wheel and the zoom-in
    button do nothing without the container. *)
Definition served (dom : Dom) (r : ZoomRequest) (s : State) : bool :=
  let mounted := match imageContainerRef dom with Some _ => true | None => false end in
  match r with
  | Wheel _ =>
      negb (Tab.eqb (activeTab s) Tab.erase || Tab.eqb (activeTab s) Tab.crop) && mounted
  | ZoomInButton => mounted
  | ZoomOutButton => true
  end.

(** What a zoom handler can do to the view: leave the state as it is,
    reset the view, or set a scale above 1 together with a new pan. *)
Inductive ZoomEffect (s s' : State) : Prop :=
| Unchanged : s' = s -> ZoomEffect s s'
| ViewReset : scale s' = 1 -> position s' = Point.mk 0 0 -> ZoomEffect s s'
| Zoomed : 1 < scale s' <= 10 -> ZoomEffect s s'.

(** [Math.max(1, Math.min(x, 10))] *)
Definition clamp (x : Q) : Q := Js.max 1 (Js.min x 10).

(** ** Erase: drawing the path *)

Definition handleEraseMouseDown (dom : Dom) (e : MouseEvent.t) (s : State) : Outcome :=
  if negb (Tab.eqb (activeTab s) Tab.erase) || isLoading s then Done s else
  let s := s |> setIsDrawing true in
  match eraseCanvasRef s with
  | None => Threw "Cannot read properties of null (reading 'getBoundingClientRect')" s
  | Some canvas =>
      let rect := eraseCanvasRect dom in
      let x := MouseEvent.clientX e - DOMRect.left rect in
      let y := MouseEvent.clientY e - DOMRect.top rect in
      Done (s |> set_erasePathRef [Point.mk x y])
  end.

Definition handleEraseMouseMove (dom : Dom) (e : MouseEvent.t) (s : State) : Outcome :=
  if negb (isDrawing s) || negb (Tab.eqb (activeTab s) Tab.erase) || isLoading s
  then Done s else
  match eraseCanvasRef s with
  | None => Threw "Cannot read properties of null (reading 'getContext')" s
  | Some canvas =>
      let rect := eraseCanvasRect dom in
      let x := MouseEvent.clientX e - DOMRect.left rect in
      let y := MouseEvent.clientY e - DOMRect.top rect in
      let canvas := Canvas.beginPath canvas in
      match Js.index (erasePathRef s) (Js.length (erasePathRef s) - 1) with
      | None =>
          Threw "Cannot read properties of undefined (reading 'x')"
                (s |> set_eraseCanvasRef (Some canvas))
      | Some lastPoint =>
          let canvas :=
            canvas |> Canvas.moveTo (Point.x lastPoint) (Point.y lastPoint)
                   |> Canvas.lineTo x y
                   |> Canvas.set_strokeStyle "rgba(74, 144, 226, 0.8)"
                   |> Canvas.set_lineWidth 20
                   |> Canvas.set_lineCap "round"
                   |> Canvas.set_lineJoin "round"
                   |> Canvas.stroke in
          Done (s |> set_eraseCanvasRef (Some canvas)
                  |> set_erasePathRef (Js.push (erasePathRef s) (Point.mk x y)))
      end
  end.

Definition handleEraseMouseUp (s : State) : State :=
  if negb (isDrawing s) then s else
  s |> setIsDrawing false |> setErasePath (erasePathRef s).

(** ** Erase: the mask and the request *)

(** [err instanceof Error ? err.message : 'An unknown error occurred.'] *)
Definition errorMessage (err : option string) : string :=
  match err with
  | Some message => message
  | None => "An unknown error occurred."
  end.

(** The mask canvas of [handleApplyErase]: the body of its [try] block
    up to [ctx.stroke()]. *)
Definition eraseMask (dom : Dom) (image : Img.t) (displayCanvas : Canvas.t)
    (path : list Point.t) : Result Canvas.t :=
  let naturalWidth := Img.naturalWidth image in
  let naturalHeight := Img.naturalHeight image in
  let maskCanvas :=
    Canvas.create |> Canvas.set_width naturalWidth |> Canvas.set_height naturalHeight in
  if negb (context2d dom) then throw "Could not create mask canvas context." else
  let maskCanvas :=
    maskCanvas |> Canvas.set_fillStyle "black"
               |> Canvas.fillRect 0 0 naturalWidth naturalHeight in
  let scaleX := naturalWidth / Canvas.width displayCanvas in
  let scaleY := naturalHeight / Canvas.height displayCanvas in
  let maskCanvas :=
    maskCanvas |> Canvas.set_strokeStyle "white"
               |> Canvas.set_lineWidth (30 * scaleX)
               |> Canvas.set_lineCap "round"
               |> Canvas.set_lineJoin "round"
               |> Canvas.beginPath in
  match path with
  | [] => throw "Cannot read properties of undefined (reading 'x')"
  | p0 :: rest =>
      let maskCanvas :=
        maskCanvas |> Canvas.moveTo (Point.x p0 * scaleX) (Point.y p0 * scaleY) in
      let maskCanvas :=
        fold_left (fun c p => Canvas.lineTo (Point.x p * scaleX) (Point.y p * scaleY) c)
                  rest maskCanvas in
      inr (Canvas.stroke maskCanvas)
  end.

(** The picture of the mask for an image of natural size W x H, an erase
    canvas of size w x h and a path that starts at [p0]. *)
Definition maskPicture (W H w h : Q) (p0 : Point.t) (rest : list Point.t) : Pixels :=
  Raster W H
    [ FillRect "black" [] 0 0 W H;
      Stroke "white" (30 * (W / w)) "round" "round" []
        (MoveTo (Point.x p0 * (W / w)) (Point.y p0 * (H / h))
         :: map (fun p => LineTo (Point.x p * (W / w)) (Point.y p * (H / h))) rest) ].

Definition eraseFailed (message : string) (s : State) : State :=
  s |> setError (Some ("Failed to apply the erase. " ++ message)%string)
    |> setIsLoading false.

Definition handleApplyErase (dom : Dom) (s : State) : Outcome :=
  match currentImage s, imgRef dom, eraseCanvasRef s with
  | Some currentImage, Some image, Some displayCanvas =>
      if (Js.length (erasePathRef s) <? 2)%Z then
        Done (s |> setError (Some "Please draw on the image to select an area to erase."))
      else
        let s1 := s |> setIsLoading true |> setError None in
        let mask :=
          maskCanvas <- eraseMask dom image displayCanvas (erasePathRef s) ;;
          dataURLtoFile (toDataURL maskCanvas) "mask.png" in
        match mask with
        | inl message => Done (eraseFailed message s1)
        | inr maskFile =>
            Await (GenerateErasedImage currentImage maskFile) s1
              (fun page reply cur =>
                 match reply with
                 | Rejected err => eraseFailed (errorMessage err) cur
                 | Resolved erasedImageUrl =>
                     match dataURLtoFile erasedImageUrl
                             ("erased-" ++ Js.decimal (now page) ++ ".png")%string with
                     | inl message => eraseFailed message cur
                     | inr newImageFile =>
                         cur |> addImageToHistory s newImageFile |> setIsLoading false
                     end
                 end)
        end
  | _, _, _ =>
      Done (s |> setError (Some "Please draw on the image to select an area to erase."))
  end.

(** ** Transform: rotate and flip *)

Inductive Transformation : Type :=
| rotate_left | rotate_right | flip_horizontal | flip_vertical.

(** The canvas drawn by [image.onload] in [handleTransform], for the
    loaded picture [image]. *)
Definition transformCanvas (transformation : Transformation) (image : Pixels) : Canvas.t :=
  let canvas := Canvas.create in
  let '(w, h) := natural_size image in
  match transformation with
  | rotate_left | rotate_right =>
      let canvas := canvas |> Canvas.set_width h |> Canvas.set_height w in
      canvas |> Canvas.translate (Canvas.width canvas / 2) (Canvas.height canvas / 2)
             |> Canvas.rotate
                  ((match transformation with rotate_left => - (90) | _ => 90 end) / 180)
             |> Canvas.drawImage5 image (- w / 2) (- h / 2) w h
  | flip_horizontal =>
      canvas |> Canvas.set_width w |> Canvas.set_height h
             |> Canvas.translate w 0
             |> Canvas.scale (- (1)) 1
             |> Canvas.drawImage5 image 0 0 w h
  | flip_vertical =>
      canvas |> Canvas.set_width w |> Canvas.set_height h
             |> Canvas.translate 0 h
             |> Canvas.scale 1 (- (1))
             |> Canvas.drawImage5 image 0 0 w h
  end.

(** [handleTransform].  The load of the picture and the export of the
    canvas are taken in one step: no other event comes in between. *)
Definition handleTransform (dom : Dom) (transformation : Transformation) (s : State) : State :=
  match currentImage s with
  | None => s |> setError (Some "No image loaded to transform.")
  | Some currentImage =>
      let s1 := s |> setIsLoading true |> setError None in
      let transformed :=
        transformedImageUrl <-
          match File.decode currentImage with
          | None => throw "Failed to load image for transformation."
          | Some image =>
              if negb (context2d dom) then throw "Could not get canvas context."
              else inr (toDataURL (transformCanvas transformation image))
          end ;;
        dataURLtoFile transformedImageUrl
          ("transformed-" ++ Js.decimal (now dom) ++ ".png")%string in
      match transformed with
      | inl message =>
          s1 |> setError (Some ("Failed to apply the transformation. " ++ message)%string)
             |> setIsLoading false
      | inr newImageFile =>
          s1 |> addImageToHistory s newImageFile |> setIsLoading false
      end
  end.

(** ** Crop *)

(** The canvas of [handleApplyCrop] at the time it is exported *)
Definition cropCanvas (dom : Dom) (image : Img.t) (completedCrop : PixelCrop.t) : Canvas.t :=
  let canvas := Canvas.create in
  let scaleX := Img.naturalWidth image / Img.width image in
  let scaleY := Img.naturalHeight image / Img.height image in
  let canvas :=
    canvas |> Canvas.assign_width (PixelCrop.width completedCrop)
           |> Canvas.assign_height (PixelCrop.height completedCrop) in
  let pixelRatio := Js.or_else (devicePixelRatio dom) 1 in
  canvas |> Canvas.assign_width (PixelCrop.width completedCrop * pixelRatio)
         |> Canvas.assign_height (PixelCrop.height completedCrop * pixelRatio)
         |> Canvas.setTransform pixelRatio 0 0 pixelRatio 0 0
         |> Canvas.set_imageSmoothingQuality "high"
         |> Canvas.drawImage (Img.picture image)
              (PixelCrop.x completedCrop * scaleX)
              (PixelCrop.y completedCrop * scaleY)
              (PixelCrop.width completedCrop * scaleX)
              (PixelCrop.height completedCrop * scaleY)
              0 0
              (PixelCrop.width completedCrop)
              (PixelCrop.height completedCrop).


(** [handleApplyCrop].  It has no [try]: an exception of [dataURLtoFile]
    leaves the handler. *)
Definition handleApplyCrop (dom : Dom) (s : State) : Outcome :=
  match completedCrop s, imgRef dom with
  | Some completedCrop, Some image =>
      if negb (context2d dom) then
        Done (s |> setError (Some "Could not process the crop."))
      else
        let canvas := cropCanvas dom image completedCrop in
        let croppedImageUrl := toDataURL canvas in
        match dataURLtoFile croppedImageUrl
                ("cropped-" ++ Js.decimal (now dom) ++ ".png")%string with
        | inl message => Threw message s
        | inr newImageFile => Done (s |> addImageToHistory s newImageFile)
        end
  | _, _ => Done (s |> setError (Some "Please select an area to crop."))
  end.

(** ** Runs of history events *)

(** A sequence of edits, each added by the render that follows the one
    before. *)
Definition applyEdits (edits : list File.t) (s : State) : State :=
  fold_left (fun st newImageFile => addImageToHistory st newImageFile st) edits s.

(** The history index is a position of the history, or [-1] when the
    history is empty. *)
Definition indexInRange (s : State) : Prop :=
  (-1 <= historyIndex s <= Js.length (history s) - 1)%Z.

(** ** Sample page, files and sessions *)

Module Sample.
Definition photo : File.t :=
  File.mk (Encoded (Photo 0 800 600)) "photo.png" "image/png".

Definition edit (n : nat) : File.t :=
  File.mk (Encoded (Photo n 800 600)) "edit.png" "image/png".

(** An 800 x 600 picture shown at 400 x 300 in a container of that
    size, on a screen with device pixel ratio 2. *)
Definition page : Dom :=
  mkDom (Some (Img.mk 800 600 400 300 400 300 (Photo 0 800 600)))
        (Some (DOMRect.mk 0 0 400 300)) (DOMRect.mk 0 0 400 300)
        2 true 1700000000000.

Definition uploaded : State := handleImageUpload photo initial.

Definition wheelUp : WheelEvent.t := WheelEvent.mk 200 150 (- (100)).
Definition wheelDown : WheelEvent.t := WheelEvent.mk 200 150 100.

(** A drag that goes on while the wheel zooms out: wheel up to 1.1,
    press the button, wheel down to 1 (the view is reset), move the
    pointer with the button still down. *)
Definition draggedAtScaleOne : State :=
  uploaded |> handleWheel page wheelUp
           |> handlePanMouseDown (MouseEvent.mk 200 150 0)
           |> handleWheel page wheelDown
           |> handlePanMouseMove (MouseEvent.mk 230 170 0).

(** The erase tab with its canvas mounted, then a click without
    movement on the canvas: button down and up at the same point. *)
Definition eraseTab : State :=
  uploaded |> handleTabChange Tab.erase
           |> set_eraseCanvasRef
                (Some (Canvas.create |> Canvas.set_width 400 |> Canvas.set_height 300)).

Definition press : MouseEvent.t := MouseEvent.mk 120 90 0.

Definition history3 : State :=
  applyEdits [edit 1; edit 2] uploaded |> handleUndo |> handleUndo.

(** A stroke of three points on the erase canvas *)
Definition stroked : State :=
  eraseTab |> set_erasePathRef [Point.mk 10 20; Point.mk 30 40; Point.mk 50 40].

End Sample.

(** * The rest of the component *)

(** ** Strings *)

(** A string is a sequence of code units below 256. *)
Module JsString.

(** White space and line terminators below 256: tab, line feed, vertical
    tab, form feed, carriage return, space, no-break space.  These are
    the characters [\s] matches and [trim] strips. *)
Definition whitespace (c : ascii) : bool :=
  let n := nat_of_ascii c in
  ((9 <=? n) && (n <=? 13) || (n =? 32) || (n =? 160))%nat.

(** [s.trimStart()] *)
Fixpoint trimStart (s : string) : string :=
  match s with
  | EmptyString => EmptyString
  | String c r => if whitespace c then trimStart r else s
  end.

(** [s.trimEnd()]: a character stays when it is not white space or when
    something stays after it. *)
Fixpoint trimEnd (s : string) : string :=
  match s with
  | EmptyString => EmptyString
  | String c r =>
      match trimEnd r with
      | EmptyString => if whitespace c then EmptyString else String c EmptyString
      | rest => String c rest
      end
  end.

(** [s.trim()] *)
Definition trim (s : string) : string := trimEnd (trimStart s).

(** [!s]: the empty string is falsy *)
Definition falsy (s : string) : bool :=
  match s with
  | EmptyString => true
  | String _ _ => false
  end.

(** [s.slice(0, n)] for a count [n] that is not negative *)
Fixpoint prefix (n : nat) (s : string) : string :=
  match n, s with
  | O, _ => EmptyString
  | S _, EmptyString => EmptyString
  | S m, String c r => String c (prefix m r)
  end.

(** [s.replace(/\s/g, '_')] *)
Fixpoint replace_whitespace (s : string) : string :=
  match s with
  | EmptyString => EmptyString
  | String c r => String (if whitespace c then "_"%char else c) (replace_whitespace r)
  end.

(** The characters of a string *)
Fixpoint chars (s : string) : list ascii :=
  match s with
  | EmptyString => []
  | String c r => c :: chars r
  end.

(** Does [p] hold of every character of [s] *)
Definition all (p : ascii -> bool) (s : string) : bool := forallb p (chars s).

Definition is_not (c : ascii) (x : ascii) : bool := negb (Ascii.eqb x c).

(** A character the group of [:(.*?);] can hold: not [;], not a line
    terminator *)
Definition in_group (x : ascii) : bool :=
  negb (Ascii.eqb x ";") && negb (Js.line_terminator x).

End JsString.

(** ** Uploads *)

(** [handleFileSelect]: [files] is the [FileList], or [None] for [null] *)
Definition handleFileSelect (files : option (list File.t)) (s : State) : State :=
  match files with
  | Some (file :: _) => handleImageUpload file s
  | _ => s
  end.

(** [getCursor] *)
Definition getCursor (s : State) : string :=
  if Tab.eqb (activeTab s) Tab.retouch then "crosshair"
  else if Js.gtb (scale s) 1 then "grab"
  else "default".

(** ** Edits made by the service *)

(** The requests of [handleGenerate], [handleApplyFilter] and
    [handleApplyAdjustment]. *)
Inductive PromptRequest : Type :=
| GenerateEditedImage (image : File.t) (userPrompt : string) (hotspot : Point.t)
| GenerateFilteredImage (image : File.t) (filterPrompt : string)
| GenerateAdjustedImage (image : File.t) (adjustmentPrompt : string).

(** What such a handler has done when it returns: it is through, or it
    waits for the service with a continuation for the reply. *)
Inductive PromptOutcome : Type :=
| Settled (s : State)
| Pending (rq : PromptRequest) (s : State) (k : Dom -> Reply -> State -> State).

(** The [catch] and [finally] blocks of these handlers *)
Definition editFailed (what : string) (message : string) (s : State) : State :=
  s |> setError (Some (what ++ message)%string) |> setIsLoading false.

Definition handleGenerate (s : State) : PromptOutcome :=
  match currentImage s with
  | None => Settled (s |> setError (Some "No image loaded to edit."))
  | Some currentImage =>
      if JsString.falsy (JsString.trim (prompt s)) then
        Settled (s |> setError (Some "Please enter a description for your edit."))
      else
        match editHotspot s with
        | None =>
            Settled (s |> setError
                            (Some "Please click on the image to select an area to edit."))
        | Some hotspot =>
            Pending (GenerateEditedImage currentImage (prompt s) hotspot)
              (s |> setIsLoading true |> setError None)
              (fun page reply cur =>
                 match reply with
                 | Rejected err =>
                     editFailed "Failed to generate the image. " (errorMessage err) cur
                 | Resolved editedImageUrl =>
                     match dataURLtoFile editedImageUrl
                             ("edited-" ++ Js.decimal (now page) ++ ".png")%string with
                     | inl message => editFailed "Failed to generate the image. " message cur
                     | inr newImageFile =>
                         cur |> addImageToHistory s newImageFile
                             |> setEditHotspot None
                             |> setDisplayHotspot None
                             |> setIsLoading false
                     end
                 end)
        end
  end.

Definition handleApplyFilter (filterPrompt : string) (s : State) : PromptOutcome :=
  match currentImage s with
  | None => Settled (s |> setError (Some "No image loaded to apply a filter to."))
  | Some currentImage =>
      Pending (GenerateFilteredImage currentImage filterPrompt)
        (s |> setIsLoading true |> setError None)
        (fun page reply cur =>
           match reply with
           | Rejected err =>
               editFailed "Failed to apply the filter. " (errorMessage err) cur
           | Resolved filteredImageUrl =>
               match dataURLtoFile filteredImageUrl
                       ("filtered-" ++ Js.decimal (now page) ++ ".png")%string with
               | inl message => editFailed "Failed to apply the filter. " message cur
               | inr newImageFile =>
                   cur |> addImageToHistory s newImageFile |> setIsLoading false
               end
           end)
  end.

Definition handleApplyAdjustment (adjustmentPrompt : string) (s : State) : PromptOutcome :=
  match currentImage s with
  | None => Settled (s |> setError (Some "No image loaded to apply an adjustment to."))
  | Some currentImage =>
      Pending (GenerateAdjustedImage currentImage adjustmentPrompt)
        (s |> setIsLoading true |> setError None)
        (fun page reply cur =>
           match reply with
           | Rejected err =>
               editFailed "Failed to apply the adjustment. " (errorMessage err) cur
           | Resolved adjustedImageUrl =>
               match dataURLtoFile adjustedImageUrl
                       ("adjusted-" ++ Js.decimal (now page) ++ ".png")%string with
               | inl message => editFailed "Failed to apply the adjustment. " message cur
               | inr newImageFile =>
                   cur |> addImageToHistory s newImageFile |> setIsLoading false
               end
           end)
  end.

(** The message of the failure a reply leads to, if it does: the promise
    was rejected, or [dataURLtoFile] throws on the data URL. *)
Definition replyFailure (filename : string) (reply : Reply) : option string :=
  match reply with
  | Rejected err => Some (errorMessage err)
  | Resolved url =>
      match dataURLtoFile url filename with
      | inl message => Some message
      | inr _ => None
      end
  end.

(** The name of the file a continuation makes of a reply *)
Definition replyFileName (kind : string) (page : Dom) : string :=
  (kind ++ Js.decimal (now page) ++ ".png")%string.

(** A continuation [k] reports every failure: the history and the
    current image of the state it runs on stay, loading ends, and the
    error is [what] followed by the message. *)
Definition reportsFailure (what kind : string) (k : Dom -> Reply -> State -> State) : Prop :=
  forall page reply cur message,
    replyFailure (replyFileName kind page) reply = Some message ->
    history (k page reply cur) = history cur
    /\ historyIndex (k page reply cur) = historyIndex cur
    /\ currentImage (k page reply cur) = currentImage cur
    /\ isLoading (k page reply cur) = false
    /\ error (k page reply cur) = Some (what ++ message)%string.

(** A continuation [k] adds the file of a good reply to the history of
    the snapshot [snap], whatever the state [cur] it runs on: the new
    history is the history of [snap] up to its index, then the file. *)
Definition addsToSnapshot (kind : string) (snap : State)
    (k : Dom -> Reply -> State -> State) : Prop :=
  forall page url cur file,
    dataURLtoFile url (replyFileName kind page) = inr file ->
    history (k page (Resolved url) cur)
    = firstn (Z.to_nat (historyIndex snap + 1)) (history snap) ++ [file]
    /\ currentImage (k page (Resolved url) cur) = Some file
    /\ isLoading (k page (Resolved url) cur) = false
    /\ scale (k page (Resolved url) cur) = scale cur
    /\ activeTab (k page (Resolved url) cur) = activeTab cur.

(** The continuation of a handler, on a reply that fails and on one that
    gives a file. *)
Definition continues (what kind : string) (snap : State) (tail : State -> State)
    (k : Dom -> Reply -> State -> State) : Prop :=
  (forall page reply cur message,
      replyFailure (replyFileName kind page) reply = Some message ->
      k page reply cur = editFailed what message cur)
  /\ (forall page url cur file,
        dataURLtoFile url (replyFileName kind page) = inr file ->
        k page (Resolved url) cur = tail (addImageToHistory snap file cur)).

(** ** The erase canvas follows the image *)

(** [setCanvasSize] of the resize effect; [rect] is the bounding rectangle
    of the image. *)
Definition setCanvasSize (dom : Dom) (rect : DOMRect.t) (s : State) : State :=
  match eraseCanvasRef s, imgRef dom with
  | Some canvas, Some image =>
      if Tab.eqb (activeTab s) Tab.erase then
        if negb (Js.eqb (Canvas.width canvas) (DOMRect.width rect))
           || negb (Js.eqb (Canvas.height canvas) (DOMRect.height rect))
        then
          let canvas :=
            canvas |> Canvas.assign_width (DOMRect.width rect)
                   |> Canvas.assign_height (DOMRect.height rect) in
          s |> set_eraseCanvasRef (Some canvas) |> handleClearErase
        else s
      else s
  | _, _ => s
  end.

(** ** What is rendered *)

(** [ZoomControls] is rendered on every tab but erase and crop. *)
Definition zoomControlsShown (s : State) : bool :=
  negb (Tab.eqb (activeTab s) Tab.erase) && negb (Tab.eqb (activeTab s) Tab.crop).

Module ZoomControls.
(** The [disabled] attributes of the two buttons *)
Definition zoomOutDisabled (scale : Q) : bool := Js.leb scale 1.
Definition zoomInDisabled (scale : Q) : bool := Js.leb 10 scale.

(** The label of the reset button: [Math.round(scale * 100)] and [%] *)
Definition label (scale : Q) : string :=
  (Js.decimal (Qfloor (Js.round (scale * 100))) ++ "%")%string.
End ZoomControls.

Module ErasePanel.
(** The [disabled] attribute of the Clear and the Erase Object buttons *)
Definition disabled (isLoading canErase : bool) : bool := isLoading || negb canErase.
End ErasePanel.

(** ** The state a handler leaves behind *)

Definition after (o : Outcome) : State :=
  match o with
  | Done s => s
  | Threw _ s => s
  | Await _ s _ => s
  end.

Definition afterPrompt (o : PromptOutcome) : State :=
  match o with
  | Settled s => s
  | Pending _ s _ => s
  end.

(** ** The states of a session *)

(** The states the component can be in: the first render, and from a
    state any handler called on it, a setter the page calls directly, a
    change of the erase canvas, or the continuation of a request on its
    reply.  A continuation belongs to a request made in an earlier state
    [snap] and runs on the state [cur] of the time of the reply. *)
Inductive Reachable : State -> Prop :=
| reach_initial : Reachable initial
| reach_fileSelect files s : Reachable s -> Reachable (handleFileSelect files s)
| reach_uploadNew s : Reachable s -> Reachable (handleUploadNew s)
| reach_tabChange tabId s : Reachable s -> Reachable (handleTabChange tabId s)
| reach_undo s : Reachable s -> Reachable (handleUndo s)
| reach_redo s : Reachable s -> Reachable (handleRedo s)
| reach_reset s : Reachable s -> Reachable (handleReset s)
| reach_setPrompt v s : Reachable s -> Reachable (setPrompt v s)
| reach_setError s : Reachable s -> Reachable (setError None s)
| reach_setCrop c s : Reachable s -> Reachable (setCrop c s)
| reach_setCompletedCrop c s : Reachable s -> Reachable (setCompletedCrop c s)
| reach_setAspect a s : Reachable s -> Reachable (setAspect a s)
| reach_setIsComparing b s : Reachable s -> Reachable (setIsComparing b s)
| reach_imageClick dom e s : Reachable s -> Reachable (handleImageClick dom e s)
| reach_wheel dom e s : Reachable s -> Reachable (handleWheel dom e s)
| reach_panMouseDown e s : Reachable s -> Reachable (handlePanMouseDown e s)
| reach_panMouseMove e s : Reachable s -> Reachable (handlePanMouseMove e s)
| reach_panEnd s : Reachable s -> Reachable (handlePanEnd s)
| reach_zoomIn dom s :
    Reachable s -> zoomControlsShown s = true -> Reachable (handleZoomIn dom s)
| reach_zoomOut dom s :
    Reachable s -> zoomControlsShown s = true -> Reachable (handleZoomOut dom s)
| reach_resetView s :
    Reachable s -> zoomControlsShown s = true -> Reachable (resetView s)
| reach_eraseCanvas canvas s : Reachable s -> Reachable (set_eraseCanvasRef canvas s)
| reach_setCanvasSize dom rect s : Reachable s -> Reachable (setCanvasSize dom rect s)
| reach_eraseMouseDown dom e s :
    Reachable s -> Reachable (after (handleEraseMouseDown dom e s))
| reach_eraseMouseMove dom e s :
    Reachable s -> Reachable (after (handleEraseMouseMove dom e s))
| reach_eraseMouseUp s : Reachable s -> Reachable (handleEraseMouseUp s)
| reach_clearErase s : Reachable s -> Reachable (handleClearErase s)
| reach_applyCrop dom s : Reachable s -> Reachable (after (handleApplyCrop dom s))
| reach_transform dom transformation s :
    Reachable s -> Reachable (handleTransform dom transformation s)
| reach_applyErase dom s : Reachable s -> Reachable (after (handleApplyErase dom s))
| reach_eraseReply dom snap rq waiting k page reply cur :
    Reachable snap -> Reachable cur ->
    handleApplyErase dom snap = Await rq waiting k ->
    Reachable (k page reply cur)
| reach_generate s : Reachable s -> Reachable (afterPrompt (handleGenerate s))
| reach_generateReply snap rq waiting k page reply cur :
    Reachable snap -> Reachable cur ->
    handleGenerate snap = Pending rq waiting k ->
    Reachable (k page reply cur)
| reach_applyFilter filterPrompt s :
    Reachable s -> Reachable (afterPrompt (handleApplyFilter filterPrompt s))
| reach_filterReply filterPrompt snap rq waiting k page reply cur :
    Reachable snap -> Reachable cur ->
    handleApplyFilter filterPrompt snap = Pending rq waiting k ->
    Reachable (k page reply cur)
| reach_applyAdjustment adjustmentPrompt s :
    Reachable s -> Reachable (afterPrompt (handleApplyAdjustment adjustmentPrompt s))
| reach_adjustmentReply adjustmentPrompt snap rq waiting k page reply cur :
    Reachable snap -> Reachable cur ->
    handleApplyAdjustment adjustmentPrompt snap = Pending rq waiting k ->
    Reachable (k page reply cur).

(** What holds of the history in every state of a session: it is empty
    and the index is [-1], or the index is one of its positions. *)
Definition historyOk (s : State) : Prop :=
  (history s = [] /\ historyIndex s = (-1)%Z)
  \/ (0 <= historyIndex s <= Js.length (history s) - 1)%Z.

(** What holds of the view: the scale is between 1 and 10, and it is 1 on
    the erase and crop tabs. *)
Definition viewOk (s : State) : Prop :=
  1 <= scale s <= 10
  /\ (zoomControlsShown s = false -> scale s = 1).

(** The history, the index, the scale and the tab of [s'] are those of
    [s]. *)
Definition untouched (s s' : State) : Prop :=
  history s' = history s /\ historyIndex s' = historyIndex s
  /\ scale s' = scale s /\ activeTab s' = activeTab s.

(** A continuation of a request either reports a failure on the state it
    runs on, or adds a file to the history of the snapshot. *)
Inductive ReplyEffect (snap cur s' : State) : Prop :=
| ReplyFailed what message :
    s' = editFailed what message cur -> ReplyEffect snap cur s'
| ReplyAdded file (tail : State -> State) :
    s' = tail (addImageToHistory snap file cur) ->
    (forall x, untouched x (tail x)) ->
    isLoading (tail (addImageToHistory snap file cur)) = false ->
    ReplyEffect snap cur s'.

(** ** Sample sessions *)

Module Session.
(** The upload of the sample photo through the file input *)
Definition uploaded : State := handleFileSelect (Some [Sample.photo]) initial.

(** Two edits after the upload, added by the renders that follow each
    other *)
Definition edited : State := applyEdits [Sample.edit 1; Sample.edit 2] uploaded.
End Session.

(** ** Strokes on the erase canvas *)

(** Run [f] on the state of a handler that is done; a handler that threw
    or waits ends the run. *)
Definition andThen (o : Outcome) (f : State -> Outcome) : Outcome :=
  match o with
  | Done s => f s
  | _ => o
  end.

(** A stroke: the button goes down at [down], the pointer moves through
    [moves], the button goes up; each event is handled by the render that
    follows the one before. *)
Definition eraseStroke (dom : Dom) (down : MouseEvent.t) (moves : list MouseEvent.t)
    (s : State) : Outcome :=
  andThen
    (fold_left (fun o e => andThen o (handleEraseMouseMove dom e)) moves
               (handleEraseMouseDown dom down s))
    (fun s' => Done (handleEraseMouseUp s')).

(** The point of a mouse event relative to the erase canvas *)
Definition canvasPoint (dom : Dom) (e : MouseEvent.t) : Point.t :=
  Point.mk (MouseEvent.clientX e - DOMRect.left (eraseCanvasRect dom))
           (MouseEvent.clientY e - DOMRect.top (eraseCanvasRect dom)).

(** The segments [handleEraseMouseMove] draws for a sequence of points,
    one from each point to the next. *)
Fixpoint segments (ctm : list Transform) (points : list Point.t) : list DrawOp :=
  match points with
  | p :: (q :: _) as rest =>
      Stroke "rgba(74, 144, 226, 0.8)" 20 "round" "round" ctm
             [MoveTo (Point.x p) (Point.y p); LineTo (Point.x q) (Point.y q)]
      :: segments ctm rest
  | _ => []
  end.

(** The state in the middle of a stroke: drawing on the erase tab, with
    the points so far in [erasePathRef] and their segments on the
    canvas. *)
Record Drawing (s0 : State) (c0 : Canvas.t) (points : list Point.t) (s : State) : Prop := {
  drawing_tab : activeTab s = Tab.erase;
  drawing_loading : isLoading s = false;
  drawing_flag : isDrawing s = true;
  drawing_path : erasePathRef s = points;
  drawing_state_path : erasePath s = erasePath s0;
  drawing_untouched : untouched s0 s;
  drawing_canvas :
    exists c, eraseCanvasRef s = Some c
              /\ Canvas.width c = Canvas.width c0 /\ Canvas.height c = Canvas.height c0
              /\ Ctx.transform (Canvas.ctx c) = Ctx.transform (Canvas.ctx c0)
              /\ Canvas.ops c
                 = Canvas.ops c0 ++ segments (Ctx.transform (Canvas.ctx c0)) points
}.


(** Whether [handlePanMouseDown] starts a drag *)
Definition panStarts (e : MouseEvent.t) (s : State) : bool :=
  Js.gtb (scale s) 1 && (MouseEvent.button e =? 0)%Z
  && negb (Tab.eqb (activeTab s) Tab.erase) && negb (Tab.eqb (activeTab s) Tab.crop).

(** ** Moving through the history and the tabs *)

(** The handlers that show another image or another tool *)
Inductive Navigation : Type :=
| Undo
| Redo
| Reset
| UploadNew
| Upload (file : File.t)
| ChangeTab (tabId : Tab.t).

Definition navigate (n : Navigation) (s : State) : State :=
  match n with
  | Undo => handleUndo s
  | Redo => handleRedo s
  | Reset => handleReset s
  | UploadNew => handleUploadNew s
  | Upload file => handleImageUpload file s
  | ChangeTab tabId => handleTabChange tabId s
  end.

(** Whether the handler gets past its guard *)
Definition navigates (n : Navigation) (s : State) : bool :=
  match n with
  | Undo => canUndo s
  | Redo => canRedo s
  | Reset => (0 <? Js.length (history s))%Z
  | UploadNew => true
  | Upload _ => true
  | ChangeTab tabId => negb (Tab.eqb (activeTab s) tabId)
  end.

(** * GenerateScreen *)

Module GenerateScreen.

(** The aspect ratios [1:1], [16:9], [9:16], [4:3] and [3:4] *)
Inductive AspectRatio : Type := Square | Wide | Tall | Landscape | Portrait.

(** The [useState] cells of the component, in the order of their
    declaration *)
Record State : Type := mkState {
  prompt : string;
  isLoading : bool;
  error : option string;
  generatedImageUrl : option DataURL.t;
  activeAspect : AspectRatio
}.

Definition setPrompt (v : string) (s : State) : State :=
  let 'mkState _ l e u a := s in mkState v l e u a.
Definition setIsLoading (v : bool) (s : State) : State :=
  let 'mkState p _ e u a := s in mkState p v e u a.
Definition setError (v : option string) (s : State) : State :=
  let 'mkState p l _ u a := s in mkState p l v u a.
Definition setGeneratedImageUrl (v : option DataURL.t) (s : State) : State :=
  let 'mkState p l e _ a := s in mkState p l e v a.
Definition setActiveAspect (v : AspectRatio) (s : State) : State :=
  let 'mkState p l e u _ := s in mkState p l e u v.

Definition initial : State := mkState "" false None None Square.

(** A data URL string is truthy unless it is the empty string: nothing
    before a comma and no comma. *)
Definition truthy (url : DataURL.t) : bool :=
  match DataURL.payload url with
  | None => negb (JsString.falsy (DataURL.head url))
  | Some _ => true
  end.

(** What [handleGenerate] has done when it returns: it is through, or it
    waits for [generateImageFromPrompt(prompt, activeAspect)]. *)
Inductive Outcome : Type :=
| Settled (s : State)
| Pending (prompt : string) (aspect : AspectRatio) (s : State)
    (k : Reply -> State -> State).

Definition handleGenerate (s : State) : Outcome :=
  if JsString.falsy (JsString.trim (prompt s)) then
    Settled (s |> setError (Some "Please enter a prompt to generate an image."))
  else
    Pending (prompt s) (activeAspect s)
      (s |> setIsLoading true |> setError None |> setGeneratedImageUrl None)
      (fun reply cur =>
         match reply with
         | Resolved imageUrl =>
             cur |> setGeneratedImageUrl (Some imageUrl) |> setIsLoading false
         | Rejected err =>
             cur |> setError
                      (Some ("Failed to generate the image. " ++ errorMessage err)%string)
                 |> setIsLoading false
         end).

(** [handleEdit]: the file handed to [onImageGenerated], or the error
    [dataURLtoFile] throws; [None] when there is no image. *)
Definition handleEdit (page : Dom) (s : State) : option (Result File.t) :=
  match generatedImageUrl s with
  | Some url =>
      if truthy url then
        Some (dataURLtoFile url ("generated-" ++ Js.decimal (now page) ++ ".png")%string)
      else None
  | None => None
  end.

(** The [download] attribute of the link [handleDownload] clicks *)
Definition handleDownload (s : State) : option string :=
  match generatedImageUrl s with
  | Some url =>
      if truthy url then
        Some ("generated-"
              ++ JsString.replace_whitespace (JsString.prefix 20 (prompt s))
              ++ ".png")%string
      else None
  | None => None
  end.

Definition handleGenerateAnother (s : State) : State :=
  s |> setGeneratedImageUrl None |> setError None.

(** What the component renders: the error box, the spinner, the image
    with its buttons, or the form. *)
Inductive Screen : Type :=
| ErrorBox (message : string)
| Spinner
| Generated (url : DataURL.t)
| Form.

Definition screen (s : State) : Screen :=
  match error s with
  | Some (String _ _ as message) => ErrorBox message
  | _ =>
      if isLoading s then Spinner else
      match generatedImageUrl s with
      | Some url => if truthy url then Generated url else Form
      | None => Form
      end
  end.

End GenerateScreen.

(** * AdjustmentPanel *)

Module AdjustmentPanel.

Record State : Type := mkState {
  selectedPresetPrompt : option string;
  customPrompt : string;
  showBeautifyOptions : bool
}.

Definition initial : State := mkState None "" false.

(** A call of one of the two callbacks of the panel *)
Inductive Call : Type :=
| ApplyAdjustment (prompt : string)
| ApplyUpscale.

(** [selectedPresetPrompt || customPrompt] *)
Definition activePrompt (s : State) : string :=
  match selectedPresetPrompt s with
  | Some (String _ _ as preset) => preset
  | _ => customPrompt s
  end.

Definition handlePresetClick (prompt : string) (s : State) : State :=
  mkState (Some prompt) "" false.

Definition handleCustomChange (value : string) (s : State) : State :=
  mkState None value false.

Definition handleApply (s : State) : option Call :=
  if JsString.falsy (activePrompt s) then None
  else Some (ApplyAdjustment (activePrompt s)).

Definition setShowBeautifyOptions (v : bool) (s : State) : State :=
  mkState (selectedPresetPrompt s) (customPrompt s) v.

Definition autoAdjustPrompt : string :=
  "Automatically enhance the image's lighting, color balance, and contrast for a professional, natural look. Do not crop or change the composition.".

Definition removeBackgroundPrompt : string :=
  "Remove the background from the image, keeping only the main subject. The new background must be transparent.".

Definition beautifyFemalePrompt : string :=
  "Subtly beautify the female subject in the photo. Smooth skin while retaining natural texture, slightly brighten the eyes and teeth, add a touch of color to the lips and cheeks, and enhance the hair's shine. The overall effect should be natural and flattering, not artificial.".

Definition beautifyMalePrompt : string :=
  "Subtly enhance the male subject in the photo. Even out skin tone while preserving texture like stubble, slightly sharpen the jawline and eyes, and reduce minor blemishes. The result should look healthy and rested, completely natural and not retouched.".

(** The events of the panel: its buttons and its text input *)
Inductive Event : Type :=
| PresetClick (prompt : string)
| CustomChange (value : string)
| BeautifyToggle
| AutoAdjust
| RemoveBackground
| Upscale
| BeautifyFemale
| BeautifyMale
| Apply.

(** Whether the Apply button is rendered, and its [disabled] attribute *)
Definition applyShown (s : State) : bool := negb (JsString.falsy (activePrompt s)).
Definition applyDisabled (isLoading : bool) (s : State) : bool :=
  isLoading || JsString.falsy (JsString.trim (activePrompt s)).

(** Whether the control of an event is rendered and enabled.  Every
    control is disabled while [isLoading]; the two beautify buttons are
    rendered with [showBeautifyOptions]; the Apply button is rendered
    with a prompt and disabled when the prompt is blank. *)
Definition enabled (isLoading : bool) (e : Event) (s : State) : bool :=
  negb isLoading
  && match e with
     | BeautifyFemale | BeautifyMale => showBeautifyOptions s
     | Apply => applyShown s && negb (applyDisabled isLoading s)
     | _ => true
     end.

(** The handler of an event, on a render with the given [isLoading]: the
    next state and the callback it calls.  An event on a control that is
    not there or disabled does not reach its handler. *)
Definition handle (isLoading : bool) (e : Event) (s : State) : State * option Call :=
  if negb (enabled isLoading e s) then (s, None) else
  match e with
  | PresetClick prompt => (handlePresetClick prompt s, None)
  | CustomChange value => (handleCustomChange value s, None)
  | BeautifyToggle => (setShowBeautifyOptions (negb (showBeautifyOptions s)) s, None)
  | AutoAdjust => (setShowBeautifyOptions false s, Some (ApplyAdjustment autoAdjustPrompt))
  | RemoveBackground =>
      (setShowBeautifyOptions false s, Some (ApplyAdjustment removeBackgroundPrompt))
  | Upscale => (setShowBeautifyOptions false s, Some ApplyUpscale)
  | BeautifyFemale =>
      (setShowBeautifyOptions false s, Some (ApplyAdjustment beautifyFemalePrompt))
  | BeautifyMale =>
      (setShowBeautifyOptions false s, Some (ApplyAdjustment beautifyMalePrompt))
  | Apply => (s, handleApply s)
  end.

(** A sequence of events, each with the [isLoading] of its render and
    handled by the render after the one before: the last state and the
    calls made, in order. *)
Fixpoint run (events : list (bool * Event)) (s : State) : State * list Call :=
  match events with
  | [] => (s, [])
  | (isLoading, e) :: rest =>
      let '(s1, call) := handle isLoading e s in
      let '(s2, calls) := run rest s1 in
      (s2, match call with Some c => c :: calls | None => calls end)
  end.

(** A call that does not carry a blank prompt *)
Definition sound (c : Call) : bool :=
  match c with
  | ApplyAdjustment prompt => negb (JsString.all JsString.whitespace prompt)
  | ApplyUpscale => true
  end.

End AdjustmentPanel.

(** * The zoom arithmetic in doubles *)

(** The numbers of the code are IEEE binary64.  This module has the
    lines of [handleWheel], [handleZoomIn] and [handleZoomOut] that
    compute the view, translated from the source with the arithmetic of
    doubles: every operation rounds to the nearest double. *)
Module Double.
Local Open Scope float_scope.

(** [Math.max] and [Math.min]: NaN when an argument is NaN; of the two
    zeros [Math.max] gives the positive and [Math.min] the negative
    one. *)
Definition max (a b : float) : float :=
  if is_nan a || is_nan b then nan
  else if a <? b then b
  else if b <? a then a
  else if get_sign a then b else a.
Definition min (a b : float) : float :=
  if is_nan a || is_nan b then nan
  else if a <? b then a
  else if b <? a then b
  else if get_sign a then a else b.

(** [scale] and [position] *)
Record View : Type := mkView { scale : float; x : float; y : float }.

(** The bounding rectangle of the container *)
Record Rect : Type := mkRect { left : float; top : float; width : float; height : float }.

Record Wheel : Type := mkWheel { clientX : float; clientY : float; deltaY : float }.

Definition resetView (v : View) : View := mkView 1 0 0.

(** The literal [1.1] is the double nearest to 11/10. *)
Definition zoomFactor : float := 0x1.199999999999ap+0.

Definition handleWheel (activeTab : Tab.t) (container : option Rect) (e : Wheel)
    (v : View) : View :=
  if Tab.eqb activeTab Tab.erase || Tab.eqb activeTab Tab.crop then v else
  match container with
  | None => v
  | Some rect =>
      let mouseX := clientX e - left rect in
      let mouseY := clientY e - top rect in
      let newScale :=
        if deltaY e <? 0 then scale v * zoomFactor else scale v / zoomFactor in
      let clampedScale := max 1 (min newScale 10) in
      if clampedScale =? scale v then v else
      if clampedScale <=? 1 then resetView v else
      let newX := mouseX - (mouseX - x v) * (clampedScale / scale v) in
      let newY := mouseY - (mouseY - y v) * (clampedScale / scale v) in
      mkView clampedScale newX newY
  end.

Definition handleZoomIn (container : option Rect) (v : View) : View :=
  match container with
  | None => v
  | Some rect =>
      let centerX := width rect / 2 in
      let centerY := height rect / 2 in
      let newScale := min (scale v * 1.25) 10 in
      let newX := centerX - (centerX - x v) * (newScale / scale v) in
      let newY := centerY - (centerY - y v) * (newScale / scale v) in
      mkView newScale newX newY
  end.

Definition handleZoomOut (container : option Rect) (v : View) : View :=
  let newScale := max (scale v / 1.25) 1 in
  if newScale <=? 1 then resetView v else
  match container with
  | None => v
  | Some rect =>
      let centerX := width rect / 2 in
      let centerY := height rect / 2 in
      let newX := centerX - (centerX - x v) * (newScale / scale v) in
      let newY := centerY - (centerY - y v) * (newScale / scale v) in
      mkView newScale newX newY
  end.

(** The point of the image under a point of the viewport,
    [(mouse - position) / scale], as [handleImageClick] computes it *)
Definition imageX (v : View) (mouseX : float) : float := (mouseX - x v) / scale v.
Definition imageY (v : View) (mouseY : float) : float := (mouseY - y v) / scale v.

End Double.

(** * Properties *)

(** ** Arrays *)

Section ArrayFacts.
Context {A : Type}.
Implicit Types (arr : list A) (x : A).

Lemma slice_prefix arr (i : Z) :
  (-1 <= i)%Z ->
  Js.slice arr 0 (i + 1) = firstn (Z.to_nat (i + 1)) arr.
Proof.
  intros Hi. unfold Js.slice, Js.relative.
  assert (H0 : (0 <? 0)%Z = false) by reflexivity; rewrite H0.
  assert (H1 : (i + 1 <? 0)%Z = false) by (apply Z.ltb_ge; lia); rewrite H1.
  rewrite (Z.min_l 0) by lia. simpl skipn. rewrite Z.sub_0_r.
  destruct (Z.le_ge_cases (i + 1) (Z.of_nat (List.length arr))) as [Hle | Hge].
  - now rewrite Z.min_l.
  - rewrite Z.min_r by lia. rewrite Nat2Z.id.
    rewrite !firstn_all2; trivial; lia.
Qed.

Lemma length_push arr x : Js.length (Js.push arr x) = (Js.length arr + 1)%Z.
Proof. unfold Js.length, Js.push. rewrite length_app. simpl. lia. Qed.

Lemma index_push_last arr x : Js.index (Js.push arr x) (Js.length arr) = Some x.
Proof.
  unfold Js.index, Js.length, Js.push.
  assert (H : (Z.of_nat (List.length arr) <? 0)%Z = false) by (apply Z.ltb_ge; lia).
  rewrite H, Nat2Z.id, nth_error_app2, Nat.sub_diag; trivial.
Qed.

Lemma index_nat arr (n : nat) : Js.index arr (Z.of_nat n) = nth_error arr n.
Proof.
  unfold Js.index.
  assert (H : (Z.of_nat n <? 0)%Z = false) by (apply Z.ltb_ge; lia).
  now rewrite H, Nat2Z.id.
Qed.

Lemma length_firstn_Z arr (i : Z) :
  (-1 <= i <= Js.length arr - 1)%Z ->
  Js.length (firstn (Z.to_nat (i + 1)) arr) = (i + 1)%Z.
Proof.
  unfold Js.length. intros Hi. rewrite length_firstn. lia.
Qed.
End ArrayFacts.

(** ** What the resets leave alone *)

Lemma handleClearErase_keeps s :
  history (handleClearErase s) = history s
  /\ historyIndex (handleClearErase s) = historyIndex s
  /\ scale (handleClearErase s) = scale s
  /\ position (handleClearErase s) = position s
  /\ error (handleClearErase s) = error s
  /\ isLoading (handleClearErase s) = isLoading s.
Proof.
  destruct s as [? ? ? ? ? ? ? ? ? ? ? ? ? ? ? ? ? [canvas |] ? ?];
    repeat split; reflexivity.
Qed.

Lemma resetView_history s : history (resetView s) = history s.
Proof. now destruct s. Qed.

Lemma resetView_historyIndex s : historyIndex (resetView s) = historyIndex s.
Proof. now destruct s. Qed.

Lemma history_addImageToHistory snap f s :
  history (addImageToHistory snap f s)
  = Js.push (Js.slice (history snap) 0 (historyIndex snap + 1)) f.
Proof.
  unfold addImageToHistory.
  rewrite (proj1 (handleClearErase_keeps _)). now destruct s.
Qed.

Lemma historyIndex_addImageToHistory snap f s :
  historyIndex (addImageToHistory snap f s)
  = (Js.length (Js.push (Js.slice (history snap) 0 (historyIndex snap + 1)) f) - 1)%Z.
Proof.
  unfold addImageToHistory.
  rewrite (proj1 (proj2 (handleClearErase_keeps _))). now destruct s.
Qed.

(** The history after [addImageToHistory], for an index that is not below
    [-1]: the entries up to the index, then the new file, which is the
    last and the current one. *)
Lemma addImageToHistory_result snap f s :
  (-1 <= historyIndex snap)%Z ->
  history (addImageToHistory snap f s)
  = firstn (Z.to_nat (historyIndex snap + 1)) (history snap) ++ [f]
  /\ historyIndex (addImageToHistory snap f s)
     = Js.length (firstn (Z.to_nat (historyIndex snap + 1)) (history snap))
  /\ currentImage (addImageToHistory snap f s) = Some f.
Proof.
  intros Hi.
  assert (Hh := history_addImageToHistory snap f s).
  assert (Hx := historyIndex_addImageToHistory snap f s).
  rewrite slice_prefix in Hh, Hx by lia.
  rewrite length_push in Hx.
  assert (Hx' : historyIndex (addImageToHistory snap f s)
                = Js.length (firstn (Z.to_nat (historyIndex snap + 1)) (history snap)))
    by lia.
  repeat split; trivial.
  unfold currentImage. rewrite Hh, Hx'. apply index_push_last.
Qed.

(** The same for an index that is a position of the history or [-1]. *)
Lemma addImageToHistory_shape snap f s :
  (-1 <= historyIndex snap <= Js.length (history snap) - 1)%Z ->
  history (addImageToHistory snap f s)
  = firstn (Z.to_nat (historyIndex snap + 1)) (history snap) ++ [f]
  /\ historyIndex (addImageToHistory snap f s) = (historyIndex snap + 1)%Z
  /\ currentImage (addImageToHistory snap f s) = Some f.
Proof.
  intros Hi.
  destruct (addImageToHistory_result snap f s) as (Hh & Hx & Hc); [lia |].
  rewrite length_firstn_Z in Hx by lia. now repeat split.
Qed.

(** C1.  Adding an edit keeps the entries of the history up to the
    current index, discards all entries after it, appends the new
    snapshot, and makes the position of the appended snapshot, the new
    last element, the current index.  This holds for every history and
    every index from [-1] (no image yet) upwards; for an index that is a
    position of the history, the last one or an earlier one, the new
    history has index + 2 entries and the new index is index + 1. *)
Theorem addImageToHistory_truncates_then_appends (snap s : State) (newImageFile : File.t) :
  (-1 <= historyIndex snap)%Z ->
  let s' := addImageToHistory snap newImageFile s in
  history s' = firstn (Z.to_nat (historyIndex snap + 1)) (history snap) ++ [newImageFile]
  /\ historyIndex s' = (Js.length (history s') - 1)%Z
  /\ currentImage s' = Some newImageFile
  /\ ((historyIndex snap <= Js.length (history snap) - 1)%Z ->
      Js.length (history s') = (historyIndex snap + 2)%Z
      /\ historyIndex s' = (historyIndex snap + 1)%Z).
Proof.
  intros Hi s'.
  destruct (addImageToHistory_result snap newImageFile s Hi) as (Hh & Hx & Hc).
  fold s' in Hh, Hx, Hc.
  assert (Hlen : Js.length (history s')
                 = (Js.length (firstn (Z.to_nat (historyIndex snap + 1)) (history snap))
                    + 1)%Z).
  { rewrite Hh. apply length_push. }
  repeat split; trivial; try lia.
  - rewrite Hlen, length_firstn_Z; lia.
  - rewrite Hx, length_firstn_Z; lia.
Qed.

Lemma addImageToHistory_truncates_then_appends_witness :
  (-1 <= historyIndex Sample.history3)%Z
  /\ history Sample.history3 = [Sample.photo; Sample.edit 1; Sample.edit 2]
  /\ history (addImageToHistory Sample.history3 (Sample.edit 3) Sample.history3)
     = [Sample.photo; Sample.edit 3].
Proof.
  assert (H : (-1 <= historyIndex Sample.history3)%Z) by (vm_compute; discriminate).
  split; [exact H | split; [reflexivity |]].
  exact (proj1 (addImageToHistory_truncates_then_appends
                  Sample.history3 Sample.history3 (Sample.edit 3) H)).
Defined.

(** ** Undo and redo *)

Lemma handleUndo_history s : history (handleUndo s) = history s.
Proof.
  unfold handleUndo. destruct (canUndo s); trivial.
  rewrite resetView_history, (proj1 (handleClearErase_keeps _)). now destruct s.
Qed.

Lemma handleUndo_historyIndex s :
  historyIndex (handleUndo s)
  = if (0 <? historyIndex s)%Z then (historyIndex s - 1)%Z else historyIndex s.
Proof.
  unfold handleUndo, canUndo. destruct (0 <? historyIndex s)%Z; trivial.
  rewrite resetView_historyIndex, (proj1 (proj2 (handleClearErase_keeps _))).
  now destruct s.
Qed.

Lemma handleRedo_history s : history (handleRedo s) = history s.
Proof.
  unfold handleRedo. destruct (canRedo s); trivial.
  rewrite resetView_history, (proj1 (handleClearErase_keeps _)). now destruct s.
Qed.

Lemma handleRedo_historyIndex s :
  historyIndex (handleRedo s)
  = if (historyIndex s <? Js.length (history s) - 1)%Z
    then (historyIndex s + 1)%Z else historyIndex s.
Proof.
  unfold handleRedo, canRedo.
  destruct (historyIndex s <? Js.length (history s) - 1)%Z; trivial.
  rewrite resetView_historyIndex, (proj1 (proj2 (handleClearErase_keeps _))).
  now destruct s.
Qed.

Lemma undo_iter (k : nat) s :
  (0 <= historyIndex s)%Z ->
  history (Nat.iter k handleUndo s) = history s
  /\ historyIndex (Nat.iter k handleUndo s) = Z.max (historyIndex s - Z.of_nat k) 0.
Proof.
  intros H0. induction k as [| k [IHh IHx]].
  - simpl. split; trivial. lia.
  - rewrite !Nat.iter_succ. rewrite handleUndo_history, handleUndo_historyIndex, IHh, IHx.
    split; trivial.
    destruct (0 <? Z.max (historyIndex s - Z.of_nat k) 0)%Z eqn:E.
    + apply Z.ltb_lt in E. lia.
    + apply Z.ltb_ge in E. lia.
Qed.

Lemma redo_iter (k : nat) s :
  (historyIndex s <= Js.length (history s) - 1)%Z ->
  history (Nat.iter k handleRedo s) = history s
  /\ historyIndex (Nat.iter k handleRedo s)
     = Z.min (historyIndex s + Z.of_nat k) (Js.length (history s) - 1).
Proof.
  intros H0. induction k as [| k [IHh IHx]].
  - simpl. split; trivial. lia.
  - rewrite !Nat.iter_succ. rewrite handleRedo_history, handleRedo_historyIndex, IHh, IHx.
    split; trivial.
    destruct (Z.min (historyIndex s + Z.of_nat k) (Js.length (history s) - 1)
              <? Js.length (history s) - 1)%Z eqn:E.
    + apply Z.ltb_lt in E. lia.
    + apply Z.ltb_ge in E. lia.
Qed.

Lemma applyEdits_cons f edits s :
  applyEdits (f :: edits) s = applyEdits edits (addImageToHistory s f s).
Proof. unfold applyEdits. cbn [fold_left]. reflexivity. Qed.

(** Edits added one after the other at the end of the history pile up
    behind it. *)
Lemma applyEdits_at_end edits : forall s,
  historyIndex s = (Js.length (history s) - 1)%Z ->
  history (applyEdits edits s) = history s ++ edits
  /\ historyIndex (applyEdits edits s) = (Js.length (history s ++ edits) - 1)%Z.
Proof.
  induction edits as [| f edits IH]; intros s Hend.
  - simpl. now rewrite app_nil_r.
  - rewrite applyEdits_cons.
    assert (Hi : (-1 <= historyIndex s <= Js.length (history s) - 1)%Z)
      by (unfold Js.length in *; lia).
    destruct (addImageToHistory_shape s f s Hi) as (Hh & Hx & _).
    assert (Hfull : history (addImageToHistory s f s) = history s ++ [f]).
    { rewrite Hh, firstn_all2; trivial. unfold Js.length in *; lia. }
    destruct (IH (addImageToHistory s f s)) as [IHh IHx].
    + rewrite Hx, Hfull. unfold Js.length. rewrite length_app. simpl.
      unfold Js.length in Hend. lia.
    + rewrite IHh, IHx, Hfull, <- app_assoc. now split.
Qed.

Lemma upload_then_edits file edits s0 :
  history (applyEdits edits (handleImageUpload file s0)) = file :: edits
  /\ historyIndex (applyEdits edits (handleImageUpload file s0))
     = Z.of_nat (List.length edits).
Proof.
  assert (Hh : history (handleImageUpload file s0) = [file]).
  { unfold handleImageUpload.
    rewrite resetView_history, (proj1 (handleClearErase_keeps _)). now destruct s0. }
  assert (Hx : historyIndex (handleImageUpload file s0) = 0%Z).
  { unfold handleImageUpload.
    rewrite resetView_historyIndex, (proj1 (proj2 (handleClearErase_keeps _))).
    now destruct s0. }
  destruct (applyEdits_at_end edits (handleImageUpload file s0)) as [Eh Ex].
  - now rewrite Hh, Hx.
  - rewrite Eh, Ex, Hh. split; trivial.
    unfold Js.length. rewrite length_app. cbn [List.length]. lia.
Qed.

(** C2.  After an upload and [n] edits, [n] undos bring back the uploaded
    snapshot (position 0); from there the [k]-th redo shows the [k]-th
    edit, so that [n] redos show the [n] edits in their order and end on
    the last one, with the history itself untouched. *)
Theorem undo_all_then_redo_replays (file : File.t) (edits : list File.t) (s0 : State) :
  let n := List.length edits in
  let edited := applyEdits edits (handleImageUpload file s0) in
  let undone := Nat.iter n handleUndo edited in
  currentImage edited = nth_error (file :: edits) n
  /\ historyIndex undone = 0%Z
  /\ currentImage undone = Some file
  /\ (forall k, (k <= n)%nat ->
        currentImage (Nat.iter k handleRedo undone) = nth_error (file :: edits) k)
  /\ map (fun k => currentImage (Nat.iter k handleRedo undone)) (seq 1 n) = map Some edits
  /\ historyIndex (Nat.iter n handleRedo undone) = Z.of_nat n
  /\ history (Nat.iter n handleRedo undone) = file :: edits.
Proof.
  intros n edited undone.
  destruct (upload_then_edits file edits s0) as [Eh Ex].
  fold edited in Eh, Ex. fold n in Ex.
  destruct (undo_iter n edited) as [Uh Ux]; [lia |].
  fold undone in Uh, Ux. rewrite Eh in Uh. rewrite Ex in Ux.
  assert (Ux0 : historyIndex undone = 0%Z) by lia.
  assert (Hlen : Js.length (history undone) = (Z.of_nat n + 1)%Z).
  { rewrite Uh. unfold Js.length. simpl List.length. fold n. lia. }
  assert (Hredo : forall k, (k <= n)%nat ->
            history (Nat.iter k handleRedo undone) = file :: edits
            /\ historyIndex (Nat.iter k handleRedo undone) = Z.of_nat k).
  { intros k Hk. destruct (redo_iter k undone) as [Rh Rx]; [lia |].
    rewrite Rh, Rx. split; [exact Uh |]. rewrite Ux0, Hlen. lia. }
  assert (Hcur : forall k, (k <= n)%nat ->
            currentImage (Nat.iter k handleRedo undone) = nth_error (file :: edits) k).
  { intros k Hk. destruct (Hredo k Hk) as [Rh Rx].
    unfold currentImage. now rewrite Rh, Rx, index_nat. }
  repeat split.
  - unfold currentImage. now rewrite Eh, Ex, index_nat.
  - exact Ux0.
  - unfold currentImage. now rewrite Uh, Ux0.
  - exact Hcur.
  - apply nth_error_ext. intros i.
    rewrite !nth_error_map.
    destruct (Nat.lt_ge_cases i n) as [Hlt | Hge].
    + rewrite nth_error_seq. 
      replace (i <? n)%nat with true by (symmetry; now apply Nat.ltb_lt).
      cbn [option_map]. rewrite (Hcur (1 + i)%nat) by lia. cbn [Nat.add nth_error].
      destruct (nth_error edits i) eqn:E; trivial.
      apply nth_error_None in E. fold n in E. lia.
    + replace (nth_error (seq 1 n) i) with (@None nat)
        by (symmetry; apply nth_error_None; rewrite length_seq; lia).
      replace (nth_error edits i) with (@None File.t)
        by (symmetry; apply nth_error_None; fold n; lia).
      reflexivity.
  - now apply Hredo.
  - now apply Hredo.
Qed.

Lemma undo_all_then_redo_replays_witness :
  let edited := applyEdits [Sample.edit 1; Sample.edit 2] Sample.uploaded in
  let undone := Nat.iter 2 handleUndo edited in
  currentImage undone = Some Sample.photo
  /\ currentImage (Nat.iter 1 handleRedo undone) = Some (Sample.edit 1)
  /\ currentImage (Nat.iter 2 handleRedo undone) = Some (Sample.edit 2).
Proof.
  destruct (undo_all_then_redo_replays Sample.photo [Sample.edit 1; Sample.edit 2] initial)
    as (_ & _ & Hundone & Hredo & _).
  split; [exact Hundone | split].
  - exact (Hredo 1%nat (le_S 1 1 (le_n 1))).
  - exact (Hredo 2%nat (le_n 2)).
Defined.

(** ** The history index stays in range *)

Lemma indexInRange_initial : indexInRange initial.
Proof. unfold indexInRange. cbn. lia. Qed.

Lemma indexInRange_addImageToHistory f s :
  indexInRange s -> indexInRange (addImageToHistory s f s).
Proof.
  unfold indexInRange. intros H.
  destruct (addImageToHistory_shape s f s H) as (Hh & Hx & _).
  rewrite Hh, Hx.
  fold (Js.push (firstn (Z.to_nat (historyIndex s + 1)) (history s)) f).
  rewrite length_push, length_firstn_Z; lia.
Qed.

Lemma indexInRange_handleUndo s : indexInRange s -> indexInRange (handleUndo s).
Proof.
  unfold indexInRange. rewrite handleUndo_history, handleUndo_historyIndex.
  destruct (0 <? historyIndex s)%Z eqn:E; [apply Z.ltb_lt in E |]; lia.
Qed.

Lemma indexInRange_handleRedo s : indexInRange s -> indexInRange (handleRedo s).
Proof.
  unfold indexInRange. rewrite handleRedo_history, handleRedo_historyIndex.
  destruct (historyIndex s <? Js.length (history s) - 1)%Z eqn:E;
    [apply Z.ltb_lt in E |]; lia.
Qed.

Lemma indexInRange_handleImageUpload file s : indexInRange (handleImageUpload file s).
Proof.
  unfold indexInRange, handleImageUpload.
  rewrite resetView_history, resetView_historyIndex.
  rewrite (proj1 (handleClearErase_keeps _)), (proj1 (proj2 (handleClearErase_keeps _))).
  destruct s. cbn. lia.
Qed.

Lemma indexInRange_handleReset s : indexInRange s -> indexInRange (handleReset s).
Proof.
  unfold indexInRange, handleReset.
  destruct (0 <? Js.length (history s))%Z eqn:E; trivial. apply Z.ltb_lt in E.
  rewrite resetView_history, resetView_historyIndex.
  rewrite (proj1 (handleClearErase_keeps _)), (proj1 (proj2 (handleClearErase_keeps _))).
  destruct s. cbn in *. lia.
Qed.

Lemma indexInRange_handleUploadNew s : indexInRange (handleUploadNew s).
Proof.
  unfold indexInRange, handleUploadNew.
  rewrite resetView_history, resetView_historyIndex.
  rewrite (proj1 (handleClearErase_keeps _)), (proj1 (proj2 (handleClearErase_keeps _))).
  destruct s. cbn. lia.
Qed.

(** ** Numbers *)

Lemma ltb_true a b : Js.ltb a b = true -> a < b.
Proof.
  unfold Js.ltb. intros H. apply negb_true_iff in H.
  apply Qnot_le_lt. intros Hle. apply Qle_bool_iff in Hle. congruence.
Qed.

Lemma ltb_false a b : Js.ltb a b = false -> b <= a.
Proof.
  unfold Js.ltb. intros H. apply negb_false_iff in H. now apply Qle_bool_iff.
Qed.

Lemma leb_true a b : Js.leb a b = true -> a <= b.
Proof. apply Qle_bool_iff. Qed.

Lemma leb_false a b : Js.leb a b = false -> b < a.
Proof.
  unfold Js.leb. intros H. apply Qnot_le_lt. intros Hle.
  apply Qle_bool_iff in Hle. congruence.
Qed.

Lemma eqb_true a b : Js.eqb a b = true -> a == b.
Proof. apply Qeq_bool_iff. Qed.

Lemma eqb_false a b : Js.eqb a b = false -> ~ a == b.
Proof. intros H E. apply Qeq_bool_iff in E. unfold Js.eqb in H. congruence. Qed.

(** Case analysis on the comparisons of a handler: every [if] on a
    comparison of numbers is split and the fact it decides is kept. *)
Ltac js_compare :=
  repeat match goal with
  | |- context [Js.ltb ?a ?b] =>
      let E := fresh "E" in
      destruct (Js.ltb a b) eqn:E;
      [apply ltb_true in E | apply ltb_false in E]
  | |- context [Js.leb ?a ?b] =>
      let E := fresh "E" in
      destruct (Js.leb a b) eqn:E;
      [apply leb_true in E | apply leb_false in E]
  | |- context [Js.eqb ?a ?b] =>
      let E := fresh "E" in
      destruct (Js.eqb a b) eqn:E;
      [apply eqb_true in E | apply eqb_false in E]
  end.

(** Division by the two zoom factors, as a product, for [lra]. *)
Ltac zoom_factors :=
  repeat match goal with
  | |- context [?x / (5 # 4)] => change (x / (5 # 4)) with (x * (4 # 5))
  | H : context [?x / (5 # 4)] |- _ => change (x / (5 # 4)) with (x * (4 # 5)) in H
  | |- context [?x / (11 # 10)] => change (x / (11 # 10)) with (x * (10 # 11))
  | H : context [?x / (11 # 10)] |- _ => change (x / (11 # 10)) with (x * (10 # 11)) in H
  end.

Lemma max_cases a b : (a < b /\ Js.max a b = b) \/ (b <= a /\ Js.max a b = a).
Proof. unfold Js.max. js_compare; auto. Qed.

Lemma min_cases a b : (b < a /\ Js.min a b = b) \/ (a <= b /\ Js.min a b = a).
Proof. unfold Js.min. js_compare; auto. Qed.

(** [Math.max(1, Math.min(x, 10))] *)
Lemma clamp_range x : 1 <= Js.max 1 (Js.min x 10) <= 10.
Proof.
  destruct (min_cases x 10) as [[H1 ->] | [H1 ->]];
    destruct (max_cases 1 x) as [[H2 E2] | [H2 E2]];
    destruct (max_cases 1 10) as [[H3 E3] | [H3 E3]];
    rewrite ?E2, ?E3; lra.
Qed.

Lemma clamp_above x : 10 < x -> Js.max 1 (Js.min x 10) = 10.
Proof.
  intros Hx.
  destruct (min_cases x 10) as [[H1 ->] | [H1 ->]]; [| lra].
  destruct (max_cases 1 10) as [[H3 ->] | [H3 E3]]; [reflexivity | lra].
Qed.

Lemma clamp_below x : x < 1 -> Js.max 1 (Js.min x 10) = 1.
Proof.
  intros Hx.
  destruct (min_cases x 10) as [[H1 ->] | [H1 ->]]; [lra |].
  destruct (max_cases 1 x) as [[H3 E3] | [H3 ->]]; [lra | reflexivity].
Qed.

(** ** Zoom *)

Lemma resetView_view s :
  scale (resetView s) = 1 /\ position (resetView s) = Point.mk 0 0.
Proof. now destruct s. Qed.

Lemma set_view c p s :
  scale (s |> setScale c |> setPosition p) = c
  /\ position (s |> setScale c |> setPosition p) = p.
Proof. now destruct s. Qed.

Lemma handleWheel_effect dom e s : ZoomEffect s (handleWheel dom e s).
Proof.
  unfold handleWheel.
  destruct (Tab.eqb (activeTab s) Tab.erase || Tab.eqb (activeTab s) Tab.crop);
    [now apply Unchanged |].
  destruct (imageContainerRef dom) as [rect |]; [| now apply Unchanged].
  cbv zeta.
  set (newScale := if Js.ltb (WheelEvent.deltaY e) 0 then _ else _).
  fold (clamp newScale).
  destruct (Js.eqb (clamp newScale) (scale s)); [now apply Unchanged |].
  destruct (Js.leb (clamp newScale) 1) eqn:E.
  - apply ViewReset; apply resetView_view.
  - apply leb_false in E. apply Zoomed. rewrite (proj1 (set_view _ _ _)).
    split; [exact E | apply clamp_range].
Qed.

Lemma handleWheel_scale dom e s :
  served dom (Wheel e) s = true ->
  scale (handleWheel dom e s) == clamp (requestedScale (Wheel e) s).
Proof.
  unfold served, handleWheel, requestedScale.
  destruct (Tab.eqb (activeTab s) Tab.erase || Tab.eqb (activeTab s) Tab.crop);
    [discriminate |].
  destruct (imageContainerRef dom) as [rect |]; [intros _ | discriminate].
  cbv zeta.
  set (newScale := if Js.ltb (WheelEvent.deltaY e) 0 then _ else _).
  fold (clamp newScale).
  destruct (Js.eqb (clamp newScale) (scale s)) eqn:E0.
  - apply eqb_true in E0. now symmetry.
  - destruct (Js.leb (clamp newScale) 1) eqn:E.
    + apply leb_true in E. rewrite (proj1 (resetView_view s)).
      pose proof (clamp_range newScale) as [Hlo _]. fold (clamp newScale) in Hlo. lra.
    + rewrite (proj1 (set_view _ _ _)). reflexivity.
Qed.

Lemma handleZoomIn_effect dom s :
  1 <= scale s <= 10 -> ZoomEffect s (handleZoomIn dom s).
Proof.
  intros Hs. unfold handleZoomIn.
  destruct (imageContainerRef dom) as [rect |]; [| now apply Unchanged].
  cbv zeta. apply Zoomed. rewrite (proj1 (set_view _ _ _)).
  destruct (min_cases (scale s * (5 # 4)) 10) as [[H ->] | [H ->]]; lra.
Qed.

Lemma handleZoomIn_scale dom s :
  1 <= scale s <= 10 ->
  served dom ZoomInButton s = true ->
  scale (handleZoomIn dom s) == clamp (requestedScale ZoomInButton s).
Proof.
  intros Hs. unfold served, handleZoomIn, requestedScale, clamp.
  destruct (imageContainerRef dom) as [rect |]; [intros _ | discriminate].
  cbv zeta. rewrite (proj1 (set_view _ _ _)).
  destruct (min_cases (scale s * (5 # 4)) 10) as [[H ->] | [H ->]];
    match goal with |- _ == Js.max 1 ?m =>
      destruct (max_cases 1 m) as [[H' ->] | [H' ->]] end; lra.
Qed.

Lemma handleZoomOut_effect dom s :
  1 <= scale s <= 10 -> ZoomEffect s (handleZoomOut dom s).
Proof.
  intros Hs. unfold handleZoomOut. cbv zeta.
  destruct (Js.leb (Js.max (scale s / (5 # 4)) 1) 1) eqn:E.
  - apply ViewReset; apply resetView_view.
  - apply leb_false in E.
    destruct (imageContainerRef dom) as [rect |]; [| now apply Unchanged].
    apply Zoomed. rewrite (proj1 (set_view _ _ _)). split; [exact E |].
    destruct (max_cases (scale s / (5 # 4)) 1) as [[H ->] | [H ->]];
      zoom_factors; lra.
Qed.

Lemma handleZoomOut_scale dom s :
  1 <= scale s <= 10 ->
  requestedScale ZoomOutButton s < 1 ->
  scale (handleZoomOut dom s) == 1.
Proof.
  intros Hs. unfold handleZoomOut, requestedScale. cbv zeta. intros Hreq.
  destruct (Js.leb (Js.max (scale s / (5 # 4)) 1) 1) eqn:E.
  - now rewrite (proj1 (resetView_view s)).
  - apply leb_false in E.
    destruct (max_cases (scale s / (5 # 4)) 1) as [[H E'] | [H E']];
      rewrite E' in E; zoom_factors; lra.
Qed.

Lemma zoom_effect dom r s :
  1 <= scale s <= 10 -> ZoomEffect s (zoom dom r s).
Proof.
  intros Hs. destruct r as [e | |]; simpl.
  - apply handleWheel_effect.
  - now apply handleZoomIn_effect.
  - now apply handleZoomOut_effect.
Qed.

(** C3.  The code breaks the last clause of the claim.  After a drag
    that went on while the wheel zoomed out (wheel up, press, wheel down
    to scale 1 with the reset of the view, move with the button still
    down) the scale is 1 and the pan is not (0,0).  The zoom request
    wheel-down then returns at the test [clampedScale === scale], before
    it reaches [if (clampedScale <= 1) resetView()]: the resulting scale
    is 1 and the pan is the one from before, not (0,0).  The zoom-out
    button, asked at the same state, resets the pan. *)
Theorem wheel_at_scale_one_keeps_the_pan :
  let s := Sample.draggedAtScaleOne in
  let s' := zoom Sample.page (Wheel Sample.wheelDown) s in
  Reachable s
  /\ 1 <= scale s <= 10
  /\ served Sample.page (Wheel Sample.wheelDown) s = true
  /\ requestedScale (Wheel Sample.wheelDown) s < 1
  /\ scale s' == 1
  /\ position s' = position s
  /\ ~ (Point.x (position s') == 0 /\ Point.y (position s') == 0)
  /\ position (zoom Sample.page ZoomOutButton s) = Point.mk 0 0.
Proof.
  intros s s'. split.
  { apply reach_panMouseMove, reach_wheel, reach_panMouseDown, reach_wheel.
    exact (reach_fileSelect (Some [Sample.photo]) initial reach_initial). }
  vm_compute. repeat split; try discriminate.
  intros [H _]. discriminate H.
Qed.

Lemma ltb_intro a b : a < b -> Js.ltb a b = true.
Proof.
  intros H. destruct (Js.ltb a b) eqn:E; trivial. apply ltb_false in E. lra.
Qed.

Lemma ltb_intro_false a b : b <= a -> Js.ltb a b = false.
Proof.
  intros H. destruct (Js.ltb a b) eqn:E; trivial. apply ltb_true in E. lra.
Qed.

(** C4, amended.  In exact arithmetic a wheel step that ends at a scale
    above 1 keeps the image point under the cursor where it is: with the
    cursor at (mx, my) relative to the container, the pan and scale the
    formulas of the handler give satisfy (mx - px') / s' = (mx - px) / s
    and the same for y, for the pan and scale before (px, py, s) and
    after (px', py', s'). *)
Theorem wheel_zoom_keeps_cursor_point (dom : Dom) (rect : DOMRect.t)
    (e : WheelEvent.t) (s : State) :
  imageContainerRef dom = Some rect ->
  let s' := handleWheel dom e s in
  let mx := WheelEvent.clientX e - DOMRect.left rect in
  let my := WheelEvent.clientY e - DOMRect.top rect in
  1 < scale s' ->
  (mx - Point.x (position s')) / scale s' == (mx - Point.x (position s)) / scale s
  /\ (my - Point.y (position s')) / scale s' == (my - Point.y (position s)) / scale s.
Proof.
  intros Hrect s' mx my. subst s'. unfold handleWheel. rewrite Hrect.
  destruct (Tab.eqb (activeTab s) Tab.erase || Tab.eqb (activeTab s) Tab.crop);
    [intros _; split; reflexivity |].
  cbv zeta. fold mx my.
  set (newScale := if Js.ltb (WheelEvent.deltaY e) 0 then _ else _).
  fold (clamp newScale).
  destruct (Js.eqb (clamp newScale) (scale s)); [intros _; split; reflexivity |].
  destruct (Js.leb (clamp newScale) 1) eqn:E.
  - rewrite (proj1 (resetView_view s)). intros H. lra.
  - apply leb_false in E.
    rewrite (proj1 (set_view _ _ _)), (proj2 (set_view _ _ _)). cbn [Point.x Point.y].
    intros _.
    assert (Hnew : 1 < newScale).
    { unfold clamp in E.
      destruct (max_cases 1 (Js.min newScale 10)) as [[H E'] | [H E']];
        rewrite E' in E; [| lra].
      destruct (min_cases newScale 10) as [[H1 E1] | [H1 E1]]; rewrite E1 in H; lra. }
    assert (Hs : 0 < scale s).
    { subst newScale. destruct (Js.ltb (WheelEvent.deltaY e) 0); zoom_factors; lra. }
    split; field; split; lra.
Qed.

Lemma wheel_zoom_keeps_cursor_point_witness :
  let s' := handleWheel Sample.page Sample.wheelUp Sample.uploaded in
  1 < scale s'
  /\ (200 - 0 - Point.x (position s')) / scale s' == (200 - 0 - 0) / 1.
Proof.
  assert (H : 1 < scale (handleWheel Sample.page Sample.wheelUp Sample.uploaded))
    by (vm_compute; reflexivity).
  split; [exact H |].
  exact (proj1 (wheel_zoom_keeps_cursor_point Sample.page (DOMRect.mk 0 0 400 300)
                  Sample.wheelUp Sample.uploaded eq_refl H)).
Defined.

(** C4 as stated fails in the doubles of the code.  At the default view
    (scale 1, pan (0,0)) with the cursor at x = 250 of a container at the
    origin, a wheel step up ends at scale 1.1, above 1, and the image
    point under the cursor is no longer 250: the product
    (mx - px) * (s' / s), the difference and the quotient are each
    rounded. *)
Lemma wheel_zoom_moves_the_cursor_point_in_doubles :
  let v := Double.mkView 1 0 0 in
  let rect := Double.mkRect 0 0 400 300 in
  let e := Double.mkWheel 250 150 (-100) in
  let v' := Double.handleWheel Tab.retouch (Some rect) e v in
  let mx := (Double.clientX e - Double.left rect)%float in
  (1 <? Double.scale v')%float = true
  /\ Double.imageX v mx = 250%float
  /\ (Double.imageX v' mx =? Double.imageX v mx)%float = false
  /\ (Double.imageX v' mx <? 250)%float = true.
Proof. vm_compute. repeat split. Qed.

(** ** Clicks on the image *)

(** C5.  A click whose point, taken back through the pan and zoom
    transform ((mouse - pan) / scale), lies outside the rectangle
    [0, clientWidth] x [0, clientHeight] of the image changes nothing:
    the state, and with it the display hotspot and the edit hotspot, is
    the one from before. *)
Theorem click_outside_image_is_ignored (dom : Dom) (img : Img.t) (rect : DOMRect.t)
    (e : MouseEvent.t) (s : State) :
  imgRef dom = Some img ->
  imageContainerRef dom = Some rect ->
  0 < scale s ->
  let imageX :=
    (MouseEvent.clientX e - DOMRect.left rect - Point.x (position s)) / scale s in
  let imageY :=
    (MouseEvent.clientY e - DOMRect.top rect - Point.y (position s)) / scale s in
  imageX < 0 \/ imageY < 0 \/ Img.clientWidth img < imageX \/ Img.clientHeight img < imageY ->
  handleImageClick dom e s = s
  /\ displayHotspot (handleImageClick dom e s) = displayHotspot s
  /\ editHotspot (handleImageClick dom e s) = editHotspot s.
Proof.
  intros Himg Hrect _ imageX imageY Hout.
  assert (Hnoop : handleImageClick dom e s = s).
  { unfold handleImageClick. rewrite Himg, Hrect.
    destruct (negb (Tab.eqb (activeTab s) Tab.retouch)); trivial.
    cbv zeta. fold imageX imageY. unfold Js.gtb.
    destruct Hout as [H | [H | [H | H]]]; rewrite (ltb_intro _ _ H);
      rewrite ?orb_true_r; reflexivity. }
  now rewrite Hnoop.
Qed.

Lemma click_outside_image_is_ignored_witness :
  let e := MouseEvent.mk 500 100 0 in
  Img.clientWidth (Img.mk 800 600 400 300 400 300 (Photo 0 800 600))
    < (MouseEvent.clientX e - 0 - Point.x (position Sample.uploaded)) / scale Sample.uploaded
  /\ handleImageClick Sample.page e Sample.uploaded = Sample.uploaded.
Proof.
  intros e.
  assert (H : Img.clientWidth (Img.mk 800 600 400 300 400 300 (Photo 0 800 600))
              < (MouseEvent.clientX e - 0 - Point.x (position Sample.uploaded))
                / scale Sample.uploaded)
    by (vm_compute; reflexivity).
  split; [exact H |].
  refine (proj1 (click_outside_image_is_ignored Sample.page _ (DOMRect.mk 0 0 400 300)
                   e Sample.uploaded eq_refl eq_refl _ _)).
  - vm_compute; reflexivity.
  - right; right; left. exact H.
Defined.

(** A click inside the image on the retouch tab stores the image point of
    the click, and the marker is rendered at its viewport point. *)
Lemma handleImageClick_accepts dom img rect e s :
  imgRef dom = Some img ->
  imageContainerRef dom = Some rect ->
  activeTab s = Tab.retouch ->
  let mouseX := MouseEvent.clientX e - DOMRect.left rect in
  let mouseY := MouseEvent.clientY e - DOMRect.top rect in
  let h := imagePoint s mouseX mouseY in
  0 <= Hotspot.imageX h <= Img.clientWidth img ->
  0 <= Hotspot.imageY h <= Img.clientHeight img ->
  let s' := handleImageClick dom e s in
  displayHotspot s' = Some h
  /\ scale s' = scale s /\ position s' = position s
  /\ isLoading s' = isLoading s /\ activeTab s' = activeTab s.
Proof.
  intros Himg Hrect Htab mouseX mouseY h Hx Hy s'. subst s'.
  unfold handleImageClick. rewrite Himg, Hrect, Htab. cbn [Tab.eqb negb].
  cbv zeta. fold mouseX mouseY. unfold Js.gtb.
  change ((mouseX - Point.x (position s)) / scale s) with (Hotspot.imageX h).
  change ((mouseY - Point.y (position s)) / scale s) with (Hotspot.imageY h).
  rewrite !ltb_intro_false by tauto. cbn [orb].
  destruct s; repeat split; assumption.
Qed.

(** C6.  The map from the viewport to the image, (mouse - pan) / scale,
    followed by the map back, pan + image * scale, is the identity at
    every point, for every pan and every scale above 0 (and so is the
    composition the other way round).  These are the maps of the
    component: an accepted click stores the image point of the mouse, and
    the marker rendered from it sits at the mouse again. *)
Theorem view_transform_round_trip (dom : Dom) (img : Img.t) (rect : DOMRect.t)
    (e : MouseEvent.t) (s : State) :
  0 < scale s ->
  (forall mouseX mouseY,
      fst (viewportPoint s (imagePoint s mouseX mouseY)) == mouseX
      /\ snd (viewportPoint s (imagePoint s mouseX mouseY)) == mouseY)
  /\ (forall imageX imageY,
      let '(vx, vy) := viewportPoint s (Hotspot.mk imageX imageY) in
      Hotspot.imageX (imagePoint s vx vy) == imageX
      /\ Hotspot.imageY (imagePoint s vx vy) == imageY)
  /\ (imgRef dom = Some img -> imageContainerRef dom = Some rect ->
      activeTab s = Tab.retouch -> isLoading s = false ->
      let mouseX := MouseEvent.clientX e - DOMRect.left rect in
      let mouseY := MouseEvent.clientY e - DOMRect.top rect in
      0 <= Hotspot.imageX (imagePoint s mouseX mouseY) <= Img.clientWidth img ->
      0 <= Hotspot.imageY (imagePoint s mouseX mouseY) <= Img.clientHeight img ->
      exists left top,
        hotspotMarker (handleImageClick dom e s) = Some (left, top)
        /\ left == mouseX /\ top == mouseY).
Proof.
  intros Hs.
  assert (Hround : forall mouseX mouseY,
      fst (viewportPoint s (imagePoint s mouseX mouseY)) == mouseX
      /\ snd (viewportPoint s (imagePoint s mouseX mouseY)) == mouseY).
  { intros mouseX mouseY. unfold viewportPoint, imagePoint. cbn.
    split; field; lra. }
  split; [exact Hround | split].
  - intros imageX imageY. unfold viewportPoint, imagePoint. cbn.
    split; field; lra.
  - intros Himg Hrect Htab Hload mouseX mouseY Hx Hy.
    destruct (handleImageClick_accepts dom img rect e s Himg Hrect Htab Hx Hy)
      as (Hh & Hsc & Hpos & Hl & Ht).
    exists (fst (viewportPoint s (imagePoint s mouseX mouseY))),
           (snd (viewportPoint s (imagePoint s mouseX mouseY))).
    split; [| apply Hround].
    unfold hotspotMarker. fold mouseX mouseY in Hh.
    rewrite Hh, Hsc, Hpos, Hl, Ht, Hload, Htab. reflexivity.
Qed.

Lemma view_transform_round_trip_witness :
  let s := Sample.uploaded |> handleWheel Sample.page Sample.wheelUp in
  0 < scale s
  /\ fst (viewportPoint s (imagePoint s 120 90)) == 120
  /\ exists left top,
       hotspotMarker (handleImageClick Sample.page (MouseEvent.mk 120 90 0) s)
       = Some (left, top)
       /\ left == 120 - 0 /\ top == 90 - 0.
Proof.
  intros s.
  assert (H : 0 < scale s) by (vm_compute; reflexivity).
  destruct (view_transform_round_trip Sample.page
              (Img.mk 800 600 400 300 400 300 (Photo 0 800 600))
              (DOMRect.mk 0 0 400 300) (MouseEvent.mk 120 90 0) s H)
    as (Hround & _ & Hclick).
  assert (Hx : 0 <= Hotspot.imageX (imagePoint s (120 - 0) (90 - 0)) <= 400)
    by (vm_compute; split; discriminate).
  assert (Hy : 0 <= Hotspot.imageY (imagePoint s (120 - 0) (90 - 0)) <= 300)
    by (vm_compute; split; discriminate).
  exact (conj H (conj (proj1 (Hround 120 90))
                      (Hclick eq_refl eq_refl eq_refl eq_refl Hx Hy))).
Defined.

(** ** The erase mask *)

(** The [for] loop of [handleApplyErase] adds one [lineTo] per point, in
    order, and touches nothing else of the canvas. *)
Lemma lineTo_loop (f g : Point.t -> Q) (rest : list Point.t) : forall c,
  fold_left (fun c p => Canvas.lineTo (f p) (g p) c) rest c
  = Canvas.map_path (fun path => path ++ map (fun p => LineTo (f p) (g p)) rest) c.
Proof.
  induction rest as [| p rest IH]; intros [w h [fs ss lw lc lj sq tr path] ops].
  - unfold Canvas.map_path, Canvas.with_ctx. cbn. now rewrite app_nil_r.
  - cbn [fold_left]. rewrite IH.
    unfold Canvas.lineTo, Canvas.map_path, Canvas.with_ctx. cbn.
    now rewrite <- app_assoc.
Qed.

Lemma canvas_not_empty c :
  0 < Canvas.width c -> 0 < Canvas.height c -> Canvas.empty c = false.
Proof.
  intros Hw Hh. unfold Canvas.empty.
  destruct (Js.eqb (Canvas.width c) 0) eqn:E1; [apply eqb_true in E1; lra |].
  destruct (Js.eqb (Canvas.height c) 0) eqn:E2; [apply eqb_true in E2; lra |].
  reflexivity.
Qed.

(** The export of a canvas with pixels becomes a PNG file of what the
    canvas shows. *)
Lemma export_canvas c filename :
  0 < Canvas.width c -> 0 < Canvas.height c ->
  dataURLtoFile (toDataURL c) filename
  = inr (File.mk (Encoded (Canvas.pixels c)) filename "image/png").
Proof.
  intros Hw Hh. unfold toDataURL. now rewrite canvas_not_empty.
Qed.

Lemma eraseMask_picture dom image displayCanvas p0 rest :
  context2d dom = true ->
  exists maskCanvas,
    eraseMask dom image displayCanvas (p0 :: rest) = inr maskCanvas
    /\ Canvas.width maskCanvas = Img.naturalWidth image
    /\ Canvas.height maskCanvas = Img.naturalHeight image
    /\ Canvas.pixels maskCanvas
       = maskPicture (Img.naturalWidth image) (Img.naturalHeight image)
                     (Canvas.width displayCanvas) (Canvas.height displayCanvas) p0 rest.
Proof.
  intros Hctx. unfold eraseMask. rewrite Hctx. cbn [negb]. cbv zeta.
  rewrite lineTo_loop. eexists. split; [reflexivity |].
  repeat split.
Qed.

(** C7.  For an image of natural size W x H and an erase canvas of size
    w x h, apply-erase (with a path of at least two points) rasterizes a
    mask of exactly W x H: black over the whole canvas, then the path,
    each point scaled by (W / w, H / h), stroked in white with line width
    30 * (W / w), round caps and round joins.  That mask, as [mask.png],
    is what the request to the service carries. *)
Theorem erase_mask_has_natural_size (dom : Dom) (s : State) (currentImage0 : File.t)
    (image : Img.t) (displayCanvas : Canvas.t) (p0 p1 : Point.t) (rest : list Point.t) :
  currentImage s = Some currentImage0 ->
  imgRef dom = Some image ->
  eraseCanvasRef s = Some displayCanvas ->
  erasePathRef s = p0 :: p1 :: rest ->
  context2d dom = true ->
  let W := Img.naturalWidth image in
  let H := Img.naturalHeight image in
  let w := Canvas.width displayCanvas in
  let h := Canvas.height displayCanvas in
  0 < W -> 0 < H -> 0 < w -> 0 < h ->
  exists maskCanvas k,
    eraseMask dom image displayCanvas (erasePathRef s) = inr maskCanvas
    /\ Canvas.width maskCanvas = W
    /\ Canvas.height maskCanvas = H
    /\ Canvas.pixels maskCanvas = maskPicture W H w h p0 (p1 :: rest)
    /\ handleApplyErase dom s
       = Await (GenerateErasedImage currentImage0
                  (File.mk (Encoded (Canvas.pixels maskCanvas)) "mask.png" "image/png"))
               (s |> setIsLoading true |> setError None) k.
Proof.
  intros Hcur Himg Hcanvas Hpath Hctx W H w h HW HH Hw Hh.
  destruct (eraseMask_picture dom image displayCanvas p0 (p1 :: rest) Hctx)
    as (maskCanvas & Hmask & Hwidth & Hheight & Hpixels).
  exists maskCanvas. eexists.
  rewrite Hpath. repeat split; try assumption.
  unfold handleApplyErase. rewrite Hcur, Himg, Hcanvas, Hpath.
  replace (Js.length (p0 :: p1 :: rest) <? 2)%Z with false.
  2:{ symmetry. apply Z.ltb_ge. unfold Js.length. cbn [List.length]. lia. }
  cbv zeta. rewrite Hmask. cbn [bind].
  rewrite export_canvas by (rewrite ?Hwidth, ?Hheight; assumption).
  reflexivity.
Qed.

Lemma erase_mask_has_natural_size_witness :
  exists maskCanvas,
    eraseMask Sample.page (Img.mk 800 600 400 300 400 300 (Photo 0 800 600))
              (Canvas.create |> Canvas.set_width 400 |> Canvas.set_height 300)
              (erasePathRef Sample.stroked) = inr maskCanvas
    /\ Canvas.width maskCanvas = 800
    /\ Canvas.height maskCanvas = 600.
Proof.
  destruct (erase_mask_has_natural_size Sample.page Sample.stroked Sample.photo
              (Img.mk 800 600 400 300 400 300 (Photo 0 800 600))
              (Canvas.create |> Canvas.set_width 400 |> Canvas.set_height 300)
              (Point.mk 10 20) (Point.mk 30 40) [Point.mk 50 40]
              eq_refl eq_refl eq_refl eq_refl eq_refl
              eq_refl eq_refl eq_refl eq_refl)
    as (maskCanvas & k & Hmask & Hw & Hh & _).
  exists maskCanvas. repeat split; assumption.
Defined.

(** ** Rotate and flip *)

Lemma index_some_range {A : Type} (arr : list A) (i : Z) (x : A) :
  Js.index arr i = Some x -> (0 <= i <= Js.length arr - 1)%Z.
Proof.
  unfold Js.index, Js.length. destruct (i <? 0)%Z eqn:E; [discriminate |].
  apply Z.ltb_ge in E. intros H.
  assert (Z.to_nat i < List.length arr)%nat by (apply nth_error_Some; congruence).
  lia.
Qed.

Lemma currentImage_setIsLoading b s : currentImage (setIsLoading b s) = currentImage s.
Proof. now destruct s. Qed.

Lemma transformCanvas_size transformation image w h :
  natural_size image = (w, h) ->
  (Canvas.width (transformCanvas transformation image),
   Canvas.height (transformCanvas transformation image))
  = match transformation with
    | rotate_left | rotate_right => (h, w)
    | flip_horizontal | flip_vertical => (w, h)
    end.
Proof.
  intros Hsize. unfold transformCanvas. rewrite Hsize.
  destruct transformation; reflexivity.
Qed.

(** With a current picture and a 2D context, [handleTransform] makes the
    export of the transformed canvas the current image. *)
Lemma handleTransform_current dom transformation s file image w h :
  currentImage s = Some file ->
  File.decode file = Some image ->
  natural_size image = (w, h) ->
  0 < w -> 0 < h ->
  context2d dom = true ->
  currentImage (handleTransform dom transformation s)
  = Some (File.mk (Encoded (Canvas.pixels (transformCanvas transformation image)))
                  ("transformed-" ++ Js.decimal (now dom) ++ ".png")%string
                  "image/png").
Proof.
  intros Hcur Hdec Hsize Hw Hh Hctx.
  pose proof (index_some_range _ _ _ Hcur) as Hrange.
  pose proof (transformCanvas_size transformation image w h Hsize) as Hdims.
  unfold handleTransform. rewrite Hcur, Hdec, Hctx. cbn [negb bind]. cbv zeta.
  rewrite export_canvas.
  - rewrite currentImage_setIsLoading.
    apply addImageToHistory_shape. lia.
  - destruct transformation; injection Hdims as Hd1 Hd2; rewrite Hd1; assumption.
  - destruct transformation; injection Hdims as Hd1 Hd2; rewrite Hd2; assumption.
Qed.

Lemma handleTransform_size dom transformation s w h :
  currentSize s = Some (w, h) ->
  0 < w -> 0 < h ->
  context2d dom = true ->
  currentSize (handleTransform dom transformation s)
  = Some match transformation with
         | rotate_left | rotate_right => (h, w)
         | flip_horizontal | flip_vertical => (w, h)
         end.
Proof.
  unfold currentSize at 1.
  destruct (currentImage s) as [file |] eqn:Hcur; [| discriminate].
  destruct (File.decode file) as [image |] eqn:Hdec; [| discriminate].
  cbn [option_map]. intros Hsize Hw Hh Hctx.
  assert (Hsize' : natural_size image = (w, h)) by congruence.
  unfold currentSize.
  rewrite (handleTransform_current dom transformation s file image w h)
    by assumption.
  cbn [File.decode File.bits option_map Canvas.pixels natural_size].
  f_equal. now apply transformCanvas_size.
Qed.

(** C8.  A rotation to the left or to the right of an image of dimensions
    (w, h) gives an image of dimensions (h, w); a rotation by -90 degrees
    followed by one by +90 degrees, or the other way round, gives an image
    of the dimensions (w, h) again; a horizontal or vertical flip keeps
    the dimensions. *)
Theorem rotation_swaps_and_flip_keeps_dimensions (dom dom' : Dom) (s : State) (w h : Q) :
  currentSize s = Some (w, h) ->
  0 < w -> 0 < h ->
  context2d dom = true -> context2d dom' = true ->
  currentSize (handleTransform dom rotate_left s) = Some (h, w)
  /\ currentSize (handleTransform dom rotate_right s) = Some (h, w)
  /\ currentSize (handleTransform dom' rotate_right (handleTransform dom rotate_left s))
     = Some (w, h)
  /\ currentSize (handleTransform dom' rotate_left (handleTransform dom rotate_right s))
     = Some (w, h)
  /\ currentSize (handleTransform dom flip_horizontal s) = Some (w, h)
  /\ currentSize (handleTransform dom flip_vertical s) = Some (w, h).
Proof.
  intros Hsize Hw Hh Hctx Hctx'.
  assert (Hleft := handleTransform_size dom rotate_left s w h Hsize Hw Hh Hctx).
  assert (Hright := handleTransform_size dom rotate_right s w h Hsize Hw Hh Hctx).
  repeat split; trivial.
  - apply (handleTransform_size dom' rotate_right _ h w Hleft Hh Hw Hctx').
  - apply (handleTransform_size dom' rotate_left _ h w Hright Hh Hw Hctx').
  - apply (handleTransform_size dom flip_horizontal s w h Hsize Hw Hh Hctx).
  - apply (handleTransform_size dom flip_vertical s w h Hsize Hw Hh Hctx).
Qed.

Lemma rotation_swaps_and_flip_keeps_dimensions_witness :
  currentSize Sample.uploaded = Some (800, 600)
  /\ currentSize (handleTransform Sample.page rotate_left Sample.uploaded) = Some (600, 800)
  /\ currentSize (handleTransform Sample.page rotate_right
                    (handleTransform Sample.page rotate_left Sample.uploaded))
     = Some (800, 600).
Proof.
  assert (H : currentSize Sample.uploaded = Some (800, 600)) by reflexivity.
  assert (Hw : 0 < 800) by reflexivity.
  assert (Hh : 0 < 600) by reflexivity.
  pose proof (rotation_swaps_and_flip_keeps_dimensions Sample.page Sample.page
                Sample.uploaded 800 600 H Hw Hh eq_refl eq_refl) as (H1 & _ & H3 & _).
  repeat split; assumption.
Defined.

(** ** Crop *)

Lemma or_else_positive r d : 0 < r -> Js.or_else r d = r.
Proof.
  intros Hr. unfold Js.or_else.
  destruct (Js.eqb r 0) eqn:E; [apply eqb_true in E; lra | reflexivity].
Qed.






(** C9.  The code breaks the last clause of the claim.  For the crop
    rectangle (10, 10, 50, 2/5) at device pixel ratio 2 the panel is told
    that there is a crop ([isCropping]); the canvas gets the sizes the
    setters store for 100 and 4/5, which are 100 and 0; a canvas without
    pixels exports the string [data:,], [dataURLtoFile] throws, and since
    [handleApplyCrop] has no [try] the exception leaves the handler:
    nothing is drawn on a canvas of height 4/5 and nothing is added to
    the history.  The same happens for a rectangle of height 0. *)
Theorem crop_below_one_pixel_is_not_added :
  let image := Img.mk 800 600 400 300 400 300 (Photo 0 800 600) in
  let thin := PixelCrop.mk 10 10 50 (2 # 5) in
  let flat := PixelCrop.mk 10 10 50 0 in
  let s := Sample.uploaded |> setCompletedCrop (Some thin) in
  let s0 := Sample.uploaded |> setCompletedCrop (Some flat) in
  isCropping s = true
  /\ Canvas.width (cropCanvas Sample.page image thin) == 100
  /\ Canvas.height (cropCanvas Sample.page image thin) == 0
  /\ ~ Canvas.height (cropCanvas Sample.page image thin) == (2 # 5) * 2
  /\ handleApplyCrop Sample.page s = Threw "Could not parse MIME type from data URL" s
  /\ history s = [Sample.photo]
  /\ ~ (exists s', handleApplyCrop Sample.page s = Done s')
  /\ isCropping s0 = true
  /\ handleApplyCrop Sample.page s0 = Threw "Could not parse MIME type from data URL" s0.
Proof.
  intros image thin flat s s0.
  assert (H : handleApplyCrop Sample.page s
              = Threw "Could not parse MIME type from data URL" s) by reflexivity.
  split; [reflexivity |]. split; [reflexivity |]. split; [reflexivity |].
  split; [intros E; discriminate E |]. split; [exact H |]. split; [reflexivity |].
  split; [| split; reflexivity].
  intros [s' Hs']. rewrite H in Hs'. discriminate.
Qed.



(** ** Apply-erase without a stroke *)

Lemma setError_keeps_history v s :
  history (setError v s) = history s
  /\ historyIndex (setError v s) = historyIndex s
  /\ currentImage (setError v s) = currentImage s
  /\ error (setError v s) = v.
Proof. now destruct s. Qed.

Lemma handleApplyErase_short_path dom s :
  (Js.length (erasePathRef s) < 2)%Z ->
  handleApplyErase dom s
  = Done (s |> setError (Some "Please draw on the image to select an area to erase.")).
Proof.
  intros Hlen. unfold handleApplyErase.
  destruct (currentImage s), (imgRef dom), (eraseCanvasRef s); trivial.
  apply Z.ltb_lt in Hlen. now rewrite Hlen.
Qed.

(** C10.  With fewer than two points in the recorded erase path,
    apply-erase only sets an error message: the history, the history
    index and the current image stay as they are, and the handler is done
    without a mask and without a request to the service.  A click
    without movement on the erase canvas records exactly one point: the
    panel then enables the erase button ([canErase]), and apply-erase
    ends in that error. *)
Theorem erase_needs_two_points (dom dom' : Dom) (e : MouseEvent.t) (s : State) :
  ((Js.length (erasePathRef s) < 2)%Z ->
   exists s',
     handleApplyErase dom s = Done s'
     /\ error s' = Some "Please draw on the image to select an area to erase."
     /\ history s' = history s
     /\ historyIndex s' = historyIndex s
     /\ currentImage s' = currentImage s)
  /\ (activeTab s = Tab.erase -> isLoading s = false -> eraseCanvasRef s <> None ->
      exists pressed,
        handleEraseMouseDown dom e s = Done pressed
        /\ let released := handleEraseMouseUp pressed in
           Js.length (erasePath released) = 1%Z
           /\ Js.length (erasePathRef released) = 1%Z
           /\ canErase released = true
           /\ handleApplyErase dom' released
              = Done (released
                      |> setError
                           (Some "Please draw on the image to select an area to erase."))).
Proof.
  split.
  - intros Hlen. eexists. split; [now apply handleApplyErase_short_path |].
    destruct (setError_keeps_history
                (Some "Please draw on the image to select an area to erase.") s)
      as (Hh & Hi & Hc & He).
    now repeat split.
  - intros Htab Hload Hcanvas.
    unfold handleEraseMouseDown. rewrite Htab, Hload. cbn [Tab.eqb negb orb]. cbv zeta.
    destruct s as [? ? ? ? ? ? ? ? ? ? ? ? ? ? ? ? ? [canvas |] ? ?];
      [| now contradiction Hcanvas].
    eexists. split; [reflexivity |].
    cbn. repeat split.
    apply handleApplyErase_short_path. reflexivity.
Qed.

Lemma erase_needs_two_points_witness :
  (Js.length (erasePathRef Sample.eraseTab) < 2)%Z
  /\ (exists s', handleApplyErase Sample.page Sample.eraseTab = Done s'
                 /\ history s' = history Sample.eraseTab)
  /\ (exists pressed,
        handleEraseMouseDown Sample.page Sample.press Sample.eraseTab = Done pressed
        /\ canErase (handleEraseMouseUp pressed) = true).
Proof.
  assert (H : (Js.length (erasePathRef Sample.eraseTab) < 2)%Z) by reflexivity.
  assert (Hcanvas : eraseCanvasRef Sample.eraseTab <> None) by discriminate.
  destruct (erase_needs_two_points Sample.page Sample.page Sample.press Sample.eraseTab)
    as [Hshort Hclick].
  split; [exact H | split].
  - destruct (Hshort H) as (s' & Hdone & _ & Hh & _). exists s'. now split.
  - destruct (Hclick eq_refl eq_refl Hcanvas) as (pressed & Hdown & _ & _ & Hcan & _).
    exists pressed. now split.
Defined.

(** * More properties of the component *)

(** ** What the handlers leave alone *)

Ltac split_cases :=
  repeat match goal with
  | |- context [match ?x with _ => _ end] => destruct x
  end.

Ltac untouched_by h :=
  intros;
  repeat match goal with s : State |- _ => destruct s end;
  unfold untouched, h; cbn -[Qdiv Qmult Qplus Qminus Qopp Js.ltb Js.leb Js.eqb Js.gtb Js.max Js.min Js.round];
  split_cases;
  cbn -[Qdiv Qmult Qplus Qminus Qopp Js.ltb Js.leb Js.eqb Js.gtb Js.max Js.min Js.round];
  repeat split; reflexivity.

Lemma untouched_refl s : untouched s s.
Proof. now repeat split. Qed.

Lemma untouched_trans s1 s2 s3 : untouched s1 s2 -> untouched s2 s3 -> untouched s1 s3.
Proof.
  unfold untouched. intros (A1 & A2 & A3 & A4) (B1 & B2 & B3 & B4).
  repeat split; congruence.
Qed.

Lemma untouched_setPrompt v s : untouched s (setPrompt v s).
Proof. untouched_by setPrompt. Qed.

Lemma untouched_setError v s : untouched s (setError v s).
Proof. untouched_by setError. Qed.

Lemma untouched_setIsLoading v s : untouched s (setIsLoading v s).
Proof. untouched_by setIsLoading. Qed.

Lemma untouched_setCrop v s : untouched s (setCrop v s).
Proof. untouched_by setCrop. Qed.

Lemma untouched_setCompletedCrop v s : untouched s (setCompletedCrop v s).
Proof. untouched_by setCompletedCrop. Qed.

Lemma untouched_setAspect v s : untouched s (setAspect v s).
Proof. untouched_by setAspect. Qed.

Lemma untouched_setIsComparing v s : untouched s (setIsComparing v s).
Proof. untouched_by setIsComparing. Qed.

Lemma untouched_set_eraseCanvasRef v s : untouched s (set_eraseCanvasRef v s).
Proof. untouched_by set_eraseCanvasRef. Qed.

Lemma untouched_handleClearErase s : untouched s (handleClearErase s).
Proof. untouched_by handleClearErase. Qed.

Lemma untouched_handleImageClick dom e s : untouched s (handleImageClick dom e s).
Proof. untouched_by handleImageClick. Qed.

Lemma untouched_handlePanMouseDown e s : untouched s (handlePanMouseDown e s).
Proof. untouched_by handlePanMouseDown. Qed.

Lemma untouched_handlePanMouseMove e s : untouched s (handlePanMouseMove e s).
Proof. untouched_by handlePanMouseMove. Qed.

Lemma untouched_handlePanEnd s : untouched s (handlePanEnd s).
Proof. untouched_by handlePanEnd. Qed.

Lemma untouched_setCanvasSize dom rect s : untouched s (setCanvasSize dom rect s).
Proof. untouched_by setCanvasSize. Qed.

Lemma untouched_handleEraseMouseDown dom e s :
  untouched s (after (handleEraseMouseDown dom e s)).
Proof. untouched_by handleEraseMouseDown. Qed.

Lemma untouched_handleEraseMouseMove dom e s :
  untouched s (after (handleEraseMouseMove dom e s)).
Proof. untouched_by handleEraseMouseMove. Qed.

Lemma untouched_handleEraseMouseUp s : untouched s (handleEraseMouseUp s).
Proof. untouched_by handleEraseMouseUp. Qed.

Lemma untouched_resetView_history s :
  history (resetView s) = history s /\ historyIndex (resetView s) = historyIndex s
  /\ activeTab (resetView s) = activeTab s /\ scale (resetView s) = 1.
Proof. now destruct s. Qed.

(** [addImageToHistory] takes the history from the snapshot and leaves the
    view of the state it runs on alone. *)
Lemma addImageToHistory_view snap f cur :
  scale (addImageToHistory snap f cur) = scale cur
  /\ activeTab (addImageToHistory snap f cur) = activeTab cur.
Proof.
  unfold addImageToHistory.
  destruct (untouched_handleClearErase
              (cur |> setHistory
                        (Js.push (Js.slice (history snap) 0 (historyIndex snap + 1)) f)
                   |> setHistoryIndex
                        (Js.length
                           (Js.push (Js.slice (history snap) 0 (historyIndex snap + 1)) f)
                         - 1)
                   |> setCrop None |> setCompletedCrop None))
    as (_ & _ & Hs & Ht).
  cbv zeta. rewrite Hs, Ht. now destruct cur.
Qed.

(** ** The replies of the service *)

Lemma untouched_editFailed what message s : untouched s (editFailed what message s).
Proof. untouched_by editFailed. Qed.

Lemma isLoading_editFailed what message s : isLoading (editFailed what message s) = false.
Proof. now destruct s. Qed.

Lemma isLoading_setIsLoading b s : isLoading (setIsLoading b s) = b.
Proof. now destruct s. Qed.

Lemma generate_tail_untouched x :
  untouched x (x |> setEditHotspot None |> setDisplayHotspot None |> setIsLoading false).
Proof. now destruct x. Qed.

Lemma generate_tail_loading x :
  isLoading (x |> setEditHotspot None |> setDisplayHotspot None |> setIsLoading false)
  = false.
Proof. now destruct x. Qed.

Lemma handleApplyErase_reply dom snap rq waiting k :
  handleApplyErase dom snap = Await rq waiting k ->
  waiting = (snap |> setIsLoading true |> setError None)
  /\ forall page reply cur, ReplyEffect snap cur (k page reply cur).
Proof.
  unfold handleApplyErase.
  destruct (currentImage snap), (imgRef dom), (eraseCanvasRef snap); try discriminate.
  destruct (Js.length (erasePathRef snap) <? 2)%Z; [discriminate |].
  cbv zeta.
  destruct (bind _ _) as [message | maskFile]; [discriminate |].
  intros H. injection H as _ <- <-. split; [reflexivity |].
  intros page [url | err] cur.
  - destruct (dataURLtoFile url _) as [message | newImageFile].
    + now apply (ReplyFailed _ _ _ "Failed to apply the erase. " message).
    + apply (ReplyAdded _ _ _ newImageFile (setIsLoading false)); trivial.
      * apply untouched_setIsLoading.
      * apply isLoading_setIsLoading.
  - now apply (ReplyFailed _ _ _ "Failed to apply the erase. " (errorMessage err)).
Qed.

Lemma handleGenerate_reply snap rq waiting k :
  handleGenerate snap = Pending rq waiting k ->
  waiting = (snap |> setIsLoading true |> setError None)
  /\ forall page reply cur, ReplyEffect snap cur (k page reply cur).
Proof.
  unfold handleGenerate.
  destruct (currentImage snap); try discriminate.
  destruct (JsString.falsy _); [discriminate |].
  destruct (editHotspot snap); [| discriminate].
  intros H. injection H as _ <- <-. split; [reflexivity |].
  intros page [url | err] cur.
  - destruct (dataURLtoFile url _) as [message | newImageFile].
    + now apply (ReplyFailed _ _ _ "Failed to generate the image. " message).
    + apply (ReplyAdded _ _ _ newImageFile
               (fun x => x |> setEditHotspot None |> setDisplayHotspot None
                           |> setIsLoading false)); trivial.
      * apply generate_tail_untouched.
      * apply generate_tail_loading.
  - now apply (ReplyFailed _ _ _ "Failed to generate the image. " (errorMessage err)).
Qed.

Lemma handleApplyFilter_reply filterPrompt snap rq waiting k :
  handleApplyFilter filterPrompt snap = Pending rq waiting k ->
  waiting = (snap |> setIsLoading true |> setError None)
  /\ forall page reply cur, ReplyEffect snap cur (k page reply cur).
Proof.
  unfold handleApplyFilter.
  destruct (currentImage snap); try discriminate.
  intros H. injection H as _ <- <-. split; [reflexivity |].
  intros page [url | err] cur.
  - destruct (dataURLtoFile url _) as [message | newImageFile].
    + now apply (ReplyFailed _ _ _ "Failed to apply the filter. " message).
    + apply (ReplyAdded _ _ _ newImageFile (setIsLoading false)); trivial.
      * apply untouched_setIsLoading.
      * apply isLoading_setIsLoading.
  - now apply (ReplyFailed _ _ _ "Failed to apply the filter. " (errorMessage err)).
Qed.

Lemma handleApplyAdjustment_reply adjustmentPrompt snap rq waiting k :
  handleApplyAdjustment adjustmentPrompt snap = Pending rq waiting k ->
  waiting = (snap |> setIsLoading true |> setError None)
  /\ forall page reply cur, ReplyEffect snap cur (k page reply cur).
Proof.
  unfold handleApplyAdjustment.
  destruct (currentImage snap); try discriminate.
  intros H. injection H as _ <- <-. split; [reflexivity |].
  intros page [url | err] cur.
  - destruct (dataURLtoFile url _) as [message | newImageFile].
    + now apply (ReplyFailed _ _ _ "Failed to apply the adjustment. " message).
    + apply (ReplyAdded _ _ _ newImageFile (setIsLoading false)); trivial.
      * apply untouched_setIsLoading.
      * apply isLoading_setIsLoading.
  - now apply (ReplyFailed _ _ _ "Failed to apply the adjustment. " (errorMessage err)).
Qed.

(** ** Invariants of a session *)

Lemma historyOk_untouched s s' : untouched s s' -> historyOk s -> historyOk s'.
Proof.
  unfold untouched, historyOk. intros (Hh & Hi & _ & _). now rewrite Hh, Hi.
Qed.

Lemma viewOk_untouched s s' : untouched s s' -> viewOk s -> viewOk s'.
Proof.
  unfold untouched, viewOk, zoomControlsShown. intros (_ & _ & Hs & Ht).
  now rewrite Hs, Ht.
Qed.

Lemma viewOk_same_view s s' :
  scale s' = scale s -> activeTab s' = activeTab s -> viewOk s -> viewOk s'.
Proof.
  unfold viewOk, zoomControlsShown. intros Hs Ht. now rewrite Hs, Ht.
Qed.

Lemma viewOk_scale_one s : scale s = 1 -> viewOk s.
Proof.
  unfold viewOk. intros H. rewrite H. repeat split; discriminate.
Qed.

Lemma historyOk_index s : historyOk s -> (-1 <= historyIndex s <= Js.length (history s) - 1)%Z.
Proof.
  unfold historyOk, Js.length. intros [[Hh Hi] | H]; [rewrite Hh, Hi; cbn |]; lia.
Qed.

Lemma historyOk_addImageToHistory snap f cur :
  historyOk snap -> historyOk (addImageToHistory snap f cur).
Proof.
  intros Hsnap. apply historyOk_index in Hsnap.
  destruct (addImageToHistory_shape snap f cur Hsnap) as (Hh & Hx & _).
  right. rewrite Hh, Hx.
  fold (Js.push (firstn (Z.to_nat (historyIndex snap + 1)) (history snap)) f).
  rewrite length_push, length_firstn_Z; lia.
Qed.

Lemma historyOk_handleImageUpload file s : historyOk (handleImageUpload file s).
Proof.
  right. unfold handleImageUpload.
  rewrite resetView_history, resetView_historyIndex.
  rewrite (proj1 (handleClearErase_keeps _)), (proj1 (proj2 (handleClearErase_keeps _))).
  destruct s. cbn. lia.
Qed.

Lemma historyOk_handleUploadNew s : historyOk (handleUploadNew s).
Proof.
  left. unfold handleUploadNew.
  rewrite resetView_history, resetView_historyIndex.
  rewrite (proj1 (handleClearErase_keeps _)), (proj1 (proj2 (handleClearErase_keeps _))).
  now destruct s.
Qed.

Lemma historyOk_handleUndo s : historyOk s -> historyOk (handleUndo s).
Proof.
  unfold historyOk. rewrite handleUndo_history, handleUndo_historyIndex.
  destruct (0 <? historyIndex s)%Z eqn:E; trivial.
  apply Z.ltb_lt in E. intros [[_ Hi] | H]; [lia | right; lia].
Qed.

Lemma historyOk_handleRedo s : historyOk s -> historyOk (handleRedo s).
Proof.
  unfold historyOk. rewrite handleRedo_history, handleRedo_historyIndex.
  destruct (historyIndex s <? Js.length (history s) - 1)%Z eqn:E; trivial.
  apply Z.ltb_lt in E. intros [[Hh Hi] | H]; [| right; lia].
  rewrite Hh in E. cbn in E. lia.
Qed.

Lemma historyOk_handleReset s : historyOk s -> historyOk (handleReset s).
Proof.
  unfold handleReset. destruct (0 <? Js.length (history s))%Z eqn:E; trivial.
  apply Z.ltb_lt in E. intros _. right.
  rewrite resetView_history, resetView_historyIndex.
  rewrite (proj1 (handleClearErase_keeps _)), (proj1 (proj2 (handleClearErase_keeps _))).
  destruct s. cbn in *. lia.
Qed.

Lemma historyOk_handleTabChange tabId s : historyOk s -> historyOk (handleTabChange tabId s).
Proof.
  unfold handleTabChange. destruct (negb _); trivial.
  unfold historyOk.
  assert (H : history (s |> resetView |> setEditHotspot None |> setDisplayHotspot None
                         |> handleClearErase |> setCrop None |> setCompletedCrop None
                         |> setActiveTab tabId) = history s
              /\ historyIndex (s |> resetView |> setEditHotspot None
                                 |> setDisplayHotspot None |> handleClearErase
                                 |> setCrop None |> setCompletedCrop None
                                 |> setActiveTab tabId) = historyIndex s).
  { destruct s as [? ? ? ? ? ? ? ? ? ? ? ? ? ? ? ? ? [canvas |] ? ?]; now split. }
  destruct H as [-> ->]. trivial.
Qed.

Lemma historyOk_handleTransform dom transformation s :
  historyOk s -> historyOk (handleTransform dom transformation s).
Proof.
  intros Hs. unfold handleTransform.
  destruct (currentImage s); [| exact (historyOk_untouched _ _ (untouched_setError _ s) Hs)].
  cbv zeta. destruct (bind _ _) as [message | newImageFile].
  - refine (historyOk_untouched _ _ _ Hs).
    eapply untouched_trans; [| apply untouched_setIsLoading].
    eapply untouched_trans; [| apply untouched_setError].
    eapply untouched_trans; [| apply untouched_setError].
    apply untouched_setIsLoading.
  - refine (historyOk_untouched _ _ (untouched_setIsLoading _ _) _).
    now apply historyOk_addImageToHistory.
Qed.

Lemma historyOk_handleApplyCrop dom s :
  historyOk s -> historyOk (after (handleApplyCrop dom s)).
Proof.
  intros Hs. unfold handleApplyCrop.
  destruct (completedCrop s), (imgRef dom);
    try exact (historyOk_untouched _ _ (untouched_setError _ s) Hs).
  destruct (negb (context2d dom));
    [exact (historyOk_untouched _ _ (untouched_setError _ s) Hs) |].
  cbv zeta. destruct (dataURLtoFile _ _); cbn [after]; trivial.
  now apply historyOk_addImageToHistory.
Qed.

Lemma untouched_waiting s : untouched s (s |> setIsLoading true |> setError None).
Proof. now destruct s. Qed.

Lemma untouched_handleApplyErase dom s : untouched s (after (handleApplyErase dom s)).
Proof.
  unfold handleApplyErase.
  destruct (currentImage s), (imgRef dom), (eraseCanvasRef s);
    try apply untouched_setError.
  destruct (Js.length (erasePathRef s) <? 2)%Z; [apply untouched_setError |].
  cbv zeta. destruct (bind _ _); cbn [after].
  - eapply untouched_trans; [apply untouched_waiting | apply untouched_editFailed].
  - apply untouched_waiting.
Qed.

Lemma untouched_handleGenerate s : untouched s (afterPrompt (handleGenerate s)).
Proof.
  unfold handleGenerate.
  destruct (currentImage s); [| apply untouched_setError].
  destruct (JsString.falsy _); [apply untouched_setError |].
  destruct (editHotspot s); [apply untouched_waiting | apply untouched_setError].
Qed.

Lemma untouched_handleApplyFilter p s : untouched s (afterPrompt (handleApplyFilter p s)).
Proof.
  unfold handleApplyFilter.
  destruct (currentImage s); [apply untouched_waiting | apply untouched_setError].
Qed.

Lemma untouched_handleApplyAdjustment p s :
  untouched s (afterPrompt (handleApplyAdjustment p s)).
Proof.
  unfold handleApplyAdjustment.
  destruct (currentImage s); [apply untouched_waiting | apply untouched_setError].
Qed.

Lemma historyOk_reply snap cur s' :
  ReplyEffect snap cur s' -> historyOk snap -> historyOk cur -> historyOk s'.
Proof.
  intros [what message -> | file tail -> Htail _] Hsnap Hcur.
  - exact (historyOk_untouched _ _ (untouched_editFailed _ _ _) Hcur).
  - refine (historyOk_untouched _ _ (Htail _) _). now apply historyOk_addImageToHistory.
Qed.

Lemma viewOk_reply snap cur s' : ReplyEffect snap cur s' -> viewOk cur -> viewOk s'.
Proof.
  intros [what message -> | file tail -> Htail _] Hcur.
  - exact (viewOk_untouched _ _ (untouched_editFailed _ _ _) Hcur).
  - refine (viewOk_untouched _ _ (Htail _) _).
    destruct (addImageToHistory_view snap file cur) as [Hs Ht].
    exact (viewOk_same_view _ _ Hs Ht Hcur).
Qed.

Lemma handleWheel_tab dom e s : activeTab (handleWheel dom e s) = activeTab s.
Proof.
  destruct s. unfold handleWheel.
  cbn -[Qdiv Qmult Qplus Qminus Js.ltb Js.leb Js.eqb Js.max Js.min].
  split_cases; reflexivity.
Qed.

Lemma handleZoomIn_tab dom s : activeTab (handleZoomIn dom s) = activeTab s.
Proof.
  destruct s. unfold handleZoomIn.
  cbn -[Qdiv Qmult Qplus Qminus Js.ltb Js.leb Js.eqb Js.max Js.min].
  split_cases; reflexivity.
Qed.

Lemma handleZoomOut_tab dom s : activeTab (handleZoomOut dom s) = activeTab s.
Proof.
  destruct s. unfold handleZoomOut.
  cbn -[Qdiv Qmult Qplus Qminus Js.ltb Js.leb Js.eqb Js.max Js.min].
  split_cases; reflexivity.
Qed.

Lemma handleWheel_hidden dom e s :
  zoomControlsShown s = false -> handleWheel dom e s = s.
Proof.
  unfold zoomControlsShown, handleWheel.
  destruct (Tab.eqb (activeTab s) Tab.erase), (Tab.eqb (activeTab s) Tab.crop);
    trivial; discriminate.
Qed.

Lemma viewOk_zoomed s s' :
  activeTab s' = activeTab s -> zoomControlsShown s = true ->
  1 <= scale s' <= 10 -> viewOk s'.
Proof.
  unfold viewOk, zoomControlsShown. intros Ht Hshown Hrange. rewrite Ht.
  split; trivial. intros H. congruence.
Qed.

Lemma viewOk_handleWheel dom e s : viewOk s -> viewOk (handleWheel dom e s).
Proof.
  intros Hs. destruct (zoomControlsShown s) eqn:Hshown.
  - destruct (handleWheel_effect dom e s) as [Hu | Hr _ | Hz].
    + now rewrite Hu.
    + now apply viewOk_scale_one.
    + apply (viewOk_zoomed s); trivial; [apply handleWheel_tab | lra].
  - now rewrite handleWheel_hidden.
Qed.

Lemma viewOk_handleZoomIn dom s :
  zoomControlsShown s = true -> viewOk s -> viewOk (handleZoomIn dom s).
Proof.
  intros Hshown Hs.
  destruct (handleZoomIn_effect dom s (proj1 Hs)) as [Hu | Hr _ | Hz].
  - now rewrite Hu.
  - now apply viewOk_scale_one.
  - apply (viewOk_zoomed s); trivial; [apply handleZoomIn_tab | lra].
Qed.

Lemma viewOk_handleZoomOut dom s :
  zoomControlsShown s = true -> viewOk s -> viewOk (handleZoomOut dom s).
Proof.
  intros Hshown Hs.
  destruct (handleZoomOut_effect dom s (proj1 Hs)) as [Hu | Hr _ | Hz].
  - now rewrite Hu.
  - now apply viewOk_scale_one.
  - apply (viewOk_zoomed s); trivial; [apply handleZoomOut_tab | lra].
Qed.

Lemma scale_handleImageUpload file s : scale (handleImageUpload file s) = 1.
Proof. unfold handleImageUpload. apply resetView_view. Qed.

Lemma scale_handleUploadNew s : scale (handleUploadNew s) = 1.
Proof. unfold handleUploadNew. apply resetView_view. Qed.

Lemma viewOk_handleUndo s : viewOk s -> viewOk (handleUndo s).
Proof.
  unfold handleUndo. destruct (canUndo s); trivial. intros _.
  apply viewOk_scale_one, resetView_view.
Qed.

Lemma viewOk_handleRedo s : viewOk s -> viewOk (handleRedo s).
Proof.
  unfold handleRedo. destruct (canRedo s); trivial. intros _.
  apply viewOk_scale_one, resetView_view.
Qed.

Lemma viewOk_handleReset s : viewOk s -> viewOk (handleReset s).
Proof.
  unfold handleReset. destruct (0 <? Js.length (history s))%Z; trivial. intros _.
  apply viewOk_scale_one, resetView_view.
Qed.

Lemma viewOk_handleTabChange tabId s : viewOk s -> viewOk (handleTabChange tabId s).
Proof.
  unfold handleTabChange. destruct (negb _); trivial. intros _.
  apply viewOk_scale_one.
  destruct s as [? ? ? ? ? ? ? ? ? ? ? ? ? ? ? ? ? [canvas |] ? ?]; reflexivity.
Qed.

Lemma viewOk_handleTransform dom transformation s :
  viewOk s -> viewOk (handleTransform dom transformation s).
Proof.
  intros Hs. unfold handleTransform.
  destruct (currentImage s); [| exact (viewOk_untouched _ _ (untouched_setError _ s) Hs)].
  cbv zeta. destruct (bind _ _) as [message | newImageFile].
  - refine (viewOk_untouched _ _ _ Hs).
    eapply untouched_trans; [| apply untouched_setIsLoading].
    eapply untouched_trans; [| apply untouched_setError].
    eapply untouched_trans; [| apply untouched_setError].
    apply untouched_setIsLoading.
  - refine (viewOk_untouched _ _ (untouched_setIsLoading _ _) _).
    destruct (addImageToHistory_view s newImageFile
                (s |> setIsLoading true |> setError None)) as [Hsc Ht].
    refine (viewOk_same_view _ _ Hsc Ht _).
    exact (viewOk_untouched _ _ (untouched_waiting s) Hs).
Qed.

Lemma viewOk_handleApplyCrop dom s : viewOk s -> viewOk (after (handleApplyCrop dom s)).
Proof.
  intros Hs. unfold handleApplyCrop.
  destruct (completedCrop s), (imgRef dom);
    try exact (viewOk_untouched _ _ (untouched_setError _ s) Hs).
  destruct (negb (context2d dom));
    [exact (viewOk_untouched _ _ (untouched_setError _ s) Hs) |].
  cbv zeta. destruct (dataURLtoFile _ _) as [message | f]; cbn [after]; trivial.
  destruct (addImageToHistory_view s f s) as [Hsc Ht].
  exact (viewOk_same_view _ _ Hsc Ht Hs).
Qed.

(** Every state of a session has a well-formed history and view. *)
Lemma Reachable_ok s : Reachable s -> historyOk s /\ viewOk s.
Proof.
  induction 1 as
    [ | files s _ [Hh Hv] | s _ [Hh Hv] | tabId s _ [Hh Hv] | s _ [Hh Hv] | s _ [Hh Hv]
      | s _ [Hh Hv] | v s _ [Hh Hv] | s _ [Hh Hv] | c s _ [Hh Hv] | c s _ [Hh Hv]
      | a s _ [Hh Hv] | b s _ [Hh Hv] | dom e s _ [Hh Hv] | dom e s _ [Hh Hv]
      | e s _ [Hh Hv] | e s _ [Hh Hv] | s _ [Hh Hv] | dom s _ [Hh Hv] Hshown
      | dom s _ [Hh Hv] Hshown | s _ [Hh Hv] Hshown | canvas s _ [Hh Hv]
      | dom rect s _ [Hh Hv] | dom e s _ [Hh Hv] | dom e s _ [Hh Hv] | s _ [Hh Hv]
      | s _ [Hh Hv] | dom s _ [Hh Hv] | dom t s _ [Hh Hv] | dom s _ [Hh Hv]
      | dom snap rq waiting k page reply cur _ [Hh Hv] _ [Hh' Hv'] Hk
      | s _ [Hh Hv]
      | snap rq waiting k page reply cur _ [Hh Hv] _ [Hh' Hv'] Hk
      | p s _ [Hh Hv]
      | p snap rq waiting k page reply cur _ [Hh Hv] _ [Hh' Hv'] Hk
      | p s _ [Hh Hv]
      | p snap rq waiting k page reply cur _ [Hh Hv] _ [Hh' Hv'] Hk ].
  - split; [left; now split | apply viewOk_scale_one; reflexivity].
  - unfold handleFileSelect. destruct files as [[| file rest] |]; try now split.
    split; [apply historyOk_handleImageUpload
           | apply viewOk_scale_one, scale_handleImageUpload].
  - split; [apply historyOk_handleUploadNew | apply viewOk_scale_one, scale_handleUploadNew].
  - split; [now apply historyOk_handleTabChange | now apply viewOk_handleTabChange].
  - split; [now apply historyOk_handleUndo | now apply viewOk_handleUndo].
  - split; [now apply historyOk_handleRedo | now apply viewOk_handleRedo].
  - split; [now apply historyOk_handleReset | now apply viewOk_handleReset].
  - pose proof (untouched_setPrompt v s) as U.
    split; [exact (historyOk_untouched _ _ U Hh) | exact (viewOk_untouched _ _ U Hv)].
  - pose proof (untouched_setError None s) as U.
    split; [exact (historyOk_untouched _ _ U Hh) | exact (viewOk_untouched _ _ U Hv)].
  - pose proof (untouched_setCrop c s) as U.
    split; [exact (historyOk_untouched _ _ U Hh) | exact (viewOk_untouched _ _ U Hv)].
  - pose proof (untouched_setCompletedCrop c s) as U.
    split; [exact (historyOk_untouched _ _ U Hh) | exact (viewOk_untouched _ _ U Hv)].
  - pose proof (untouched_setAspect a s) as U.
    split; [exact (historyOk_untouched _ _ U Hh) | exact (viewOk_untouched _ _ U Hv)].
  - pose proof (untouched_setIsComparing b s) as U.
    split; [exact (historyOk_untouched _ _ U Hh) | exact (viewOk_untouched _ _ U Hv)].
  - pose proof (untouched_handleImageClick dom e s) as U.
    split; [exact (historyOk_untouched _ _ U Hh) | exact (viewOk_untouched _ _ U Hv)].
  - split; [| now apply viewOk_handleWheel].
    destruct (handleWheel_effect dom e s) as [Hu | _ _ | _]; try now rewrite Hu.
    + revert Hh. unfold historyOk, handleWheel. destruct s.
      cbn -[Qdiv Qmult Qplus Qminus Js.ltb Js.leb Js.eqb Js.max Js.min].
      split_cases; trivial.
    + revert Hh. unfold historyOk, handleWheel. destruct s.
      cbn -[Qdiv Qmult Qplus Qminus Js.ltb Js.leb Js.eqb Js.max Js.min].
      split_cases; trivial.
  - pose proof (untouched_handlePanMouseDown e s) as U.
    split; [exact (historyOk_untouched _ _ U Hh) | exact (viewOk_untouched _ _ U Hv)].
  - pose proof (untouched_handlePanMouseMove e s) as U.
    split; [exact (historyOk_untouched _ _ U Hh) | exact (viewOk_untouched _ _ U Hv)].
  - pose proof (untouched_handlePanEnd s) as U.
    split; [exact (historyOk_untouched _ _ U Hh) | exact (viewOk_untouched _ _ U Hv)].
  - split; [| now apply viewOk_handleZoomIn].
    revert Hh. unfold historyOk, handleZoomIn. destruct s.
    cbn -[Qdiv Qmult Qplus Qminus Js.ltb Js.leb Js.eqb Js.max Js.min].
    split_cases; trivial.
  - split; [| now apply viewOk_handleZoomOut].
    revert Hh. unfold historyOk, handleZoomOut. destruct s.
    cbn -[Qdiv Qmult Qplus Qminus Js.ltb Js.leb Js.eqb Js.max Js.min].
    split_cases; trivial.
  - split; [| apply viewOk_scale_one, resetView_view].
    unfold historyOk. now rewrite resetView_history, resetView_historyIndex.
  - pose proof (untouched_set_eraseCanvasRef canvas s) as U.
    split; [exact (historyOk_untouched _ _ U Hh) | exact (viewOk_untouched _ _ U Hv)].
  - pose proof (untouched_setCanvasSize dom rect s) as U.
    split; [exact (historyOk_untouched _ _ U Hh) | exact (viewOk_untouched _ _ U Hv)].
  - pose proof (untouched_handleEraseMouseDown dom e s) as U.
    split; [exact (historyOk_untouched _ _ U Hh) | exact (viewOk_untouched _ _ U Hv)].
  - pose proof (untouched_handleEraseMouseMove dom e s) as U.
    split; [exact (historyOk_untouched _ _ U Hh) | exact (viewOk_untouched _ _ U Hv)].
  - pose proof (untouched_handleEraseMouseUp s) as U.
    split; [exact (historyOk_untouched _ _ U Hh) | exact (viewOk_untouched _ _ U Hv)].
  - pose proof (untouched_handleClearErase s) as U.
    split; [exact (historyOk_untouched _ _ U Hh) | exact (viewOk_untouched _ _ U Hv)].
  - split; [now apply historyOk_handleApplyCrop | now apply viewOk_handleApplyCrop].
  - split; [now apply historyOk_handleTransform | now apply viewOk_handleTransform].
  - pose proof (untouched_handleApplyErase dom s) as U.
    split; [exact (historyOk_untouched _ _ U Hh) | exact (viewOk_untouched _ _ U Hv)].
  - destruct (handleApplyErase_reply _ _ _ _ _ Hk) as [_ Hreply].
    split; [exact (historyOk_reply _ _ _ (Hreply page reply cur) Hh Hh')
           | exact (viewOk_reply _ _ _ (Hreply page reply cur) Hv')].
  - pose proof (untouched_handleGenerate s) as U.
    split; [exact (historyOk_untouched _ _ U Hh) | exact (viewOk_untouched _ _ U Hv)].
  - destruct (handleGenerate_reply _ _ _ _ Hk) as [_ Hreply].
    split; [exact (historyOk_reply _ _ _ (Hreply page reply cur) Hh Hh')
           | exact (viewOk_reply _ _ _ (Hreply page reply cur) Hv')].
  - pose proof (untouched_handleApplyFilter p s) as U.
    split; [exact (historyOk_untouched _ _ U Hh) | exact (viewOk_untouched _ _ U Hv)].
  - destruct (handleApplyFilter_reply _ _ _ _ _ Hk) as [_ Hreply].
    split; [exact (historyOk_reply _ _ _ (Hreply page reply cur) Hh Hh')
           | exact (viewOk_reply _ _ _ (Hreply page reply cur) Hv')].
  - pose proof (untouched_handleApplyAdjustment p s) as U.
    split; [exact (historyOk_untouched _ _ U Hh) | exact (viewOk_untouched _ _ U Hv)].
  - destruct (handleApplyAdjustment_reply _ _ _ _ _ Hk) as [_ Hreply].
    split; [exact (historyOk_reply _ _ _ (Hreply page reply cur) Hh Hh')
           | exact (viewOk_reply _ _ _ (Hreply page reply cur) Hv')].
Qed.

(** ** The history in a session *)

Lemma index_none_iff {A : Type} (arr : list A) (i : Z) :
  (0 <= i <= Js.length arr - 1)%Z -> Js.index arr i <> None.
Proof.
  unfold Js.index, Js.length. intros Hi.
  replace (i <? 0)%Z with false by (symmetry; apply Z.ltb_ge; lia).
  apply nth_error_Some. lia.
Qed.

(** X1.  In every state of a session the history is empty with index
    [-1], or the index is a position of the history; so there is a
    current image exactly when the history is not empty. *)
Theorem session_history_index_in_range (s : State) :
  Reachable s ->
  ((history s = [] /\ historyIndex s = (-1)%Z)
   \/ (0 <= historyIndex s <= Js.length (history s) - 1)%Z)
  /\ (currentImage s = None <-> history s = []).
Proof.
  intros Hreach. destruct (Reachable_ok s Hreach) as [Hh _].
  split; [exact Hh |].
  unfold currentImage. destruct Hh as [[Hh Hi] | Hi].
  - rewrite Hh, Hi. split; reflexivity.
  - split.
    + intros Hnone. now apply index_none_iff in Hnone.
    + intros Hh. rewrite Hh in Hi. cbn in Hi. lia.
Qed.

Lemma session_history_index_in_range_witness :
  Reachable Session.uploaded
  /\ (currentImage Session.uploaded = None <-> history Session.uploaded = []).
Proof.
  assert (H : Reachable Session.uploaded)
    by exact (reach_fileSelect (Some [Sample.photo]) initial reach_initial).
  exact (conj H (proj2 (session_history_index_in_range Session.uploaded H))).
Defined.

(** X4.  Undo and redo stop at the ends of the history: from an index
    that is a position of the history, [k] undos lead to position
    max(index - k, 0) and [k] redos to min(index + k, last), with the
    history itself as it was.  With [k] at least the index, the undos end
    on the original image. *)
Theorem undo_and_redo_stop_at_the_ends (k : nat) (s : State) :
  (0 <= historyIndex s <= Js.length (history s) - 1)%Z ->
  history (Nat.iter k handleUndo s) = history s
  /\ historyIndex (Nat.iter k handleUndo s) = Z.max (historyIndex s - Z.of_nat k) 0
  /\ history (Nat.iter k handleRedo s) = history s
  /\ historyIndex (Nat.iter k handleRedo s)
     = Z.min (historyIndex s + Z.of_nat k) (Js.length (history s) - 1)
  /\ ((historyIndex s <= Z.of_nat k)%Z ->
      currentImage (Nat.iter k handleUndo s) = originalImage s).
Proof.
  intros Hi.
  destruct (undo_iter k s) as [Uh Ux]; [lia |].
  destruct (redo_iter k s) as [Rh Rx]; [lia |].
  repeat split; trivial.
  intros Hk. unfold currentImage, originalImage. rewrite Uh, Ux. f_equal. lia.
Qed.

Lemma undo_and_redo_stop_at_the_ends_witness :
  (0 <= historyIndex Session.edited <= Js.length (history Session.edited) - 1)%Z
  /\ historyIndex (Nat.iter 5 handleUndo Session.edited) = 0%Z
  /\ historyIndex (Nat.iter 5 handleRedo (Nat.iter 5 handleUndo Session.edited)) = 2%Z.
Proof.
  assert (H : (0 <= historyIndex Session.edited
               <= Js.length (history Session.edited) - 1)%Z)
    by (vm_compute; split; discriminate).
  split; [exact H | split].
  - exact (proj1 (proj2 (undo_and_redo_stop_at_the_ends 5 Session.edited H))).
  - reflexivity.
Defined.

Lemma undo_redo_inverse (s : State) :
  (0 <= historyIndex s <= Js.length (history s) - 1)%Z ->
  (canUndo s = true ->
   history (handleRedo (handleUndo s)) = history s
   /\ historyIndex (handleRedo (handleUndo s)) = historyIndex s
   /\ currentImage (handleRedo (handleUndo s)) = currentImage s)
  /\ (canRedo s = true ->
      history (handleUndo (handleRedo s)) = history s
      /\ historyIndex (handleUndo (handleRedo s)) = historyIndex s
      /\ currentImage (handleUndo (handleRedo s)) = currentImage s).
Proof.
  intros Hi. unfold canUndo, canRedo, currentImage. split; intros Hcan.
  - assert (Hh : history (handleRedo (handleUndo s)) = history s)
      by now rewrite handleRedo_history, handleUndo_history.
    assert (Hx : historyIndex (handleRedo (handleUndo s)) = historyIndex s).
    { rewrite handleRedo_historyIndex, handleUndo_history, handleUndo_historyIndex, Hcan.
      apply Z.ltb_lt in Hcan.
      replace (historyIndex s - 1 <? Js.length (history s) - 1)%Z with true
        by (symmetry; apply Z.ltb_lt; lia).
      lia. }
    now rewrite Hh, Hx.
  - assert (Hh : history (handleUndo (handleRedo s)) = history s)
      by now rewrite handleUndo_history, handleRedo_history.
    assert (Hx : historyIndex (handleUndo (handleRedo s)) = historyIndex s).
    { rewrite handleUndo_historyIndex, handleRedo_historyIndex, Hcan.
      apply Z.ltb_lt in Hcan.
      replace (0 <? historyIndex s + 1)%Z with true
        by (symmetry; apply Z.ltb_lt; lia).
      lia. }
    now rewrite Hh, Hx.
Qed.

(** X5.  Redo takes back an undo and undo takes back a redo: when undo is
    possible, undo followed by redo leads to the history, the index and
    the current image from before, and the same for redo followed by
    undo when redo is possible. *)
Theorem undo_and_redo_cancel (s : State) :
  (0 <= historyIndex s <= Js.length (history s) - 1)%Z ->
  (canUndo s = true ->
   history (handleRedo (handleUndo s)) = history s
   /\ historyIndex (handleRedo (handleUndo s)) = historyIndex s
   /\ currentImage (handleRedo (handleUndo s)) = currentImage s)
  /\ (canRedo s = true ->
      history (handleUndo (handleRedo s)) = history s
      /\ historyIndex (handleUndo (handleRedo s)) = historyIndex s
      /\ currentImage (handleUndo (handleRedo s)) = currentImage s).
Proof. exact (undo_redo_inverse s). Qed.

Lemma undo_and_redo_cancel_witness :
  (0 <= historyIndex Session.edited <= Js.length (history Session.edited) - 1)%Z
  /\ canUndo Session.edited = true
  /\ currentImage (handleRedo (handleUndo Session.edited)) = currentImage Session.edited.
Proof.
  assert (H : (0 <= historyIndex Session.edited
               <= Js.length (history Session.edited) - 1)%Z)
    by (vm_compute; split; discriminate).
  split; [exact H | split; [reflexivity |]].
  exact (proj2 (proj2 (proj1 (undo_and_redo_cancel Session.edited H) eq_refl))).
Defined.

Lemma index_prefix_push {A : Type} (arr : list A) (x : A) (n i : Z) :
  (0 <= i < n)%Z -> (n <= Js.length arr)%Z ->
  Js.index (firstn (Z.to_nat n) arr ++ [x]) i = Js.index arr i.
Proof.
  unfold Js.index, Js.length. intros Hi Hn.
  replace (i <? 0)%Z with false by (symmetry; apply Z.ltb_ge; lia).
  rewrite nth_error_app1 by (rewrite length_firstn; lia).
  rewrite nth_error_firstn.
  replace (Z.to_nat i <? Z.to_nat n)%nat with true
    by (symmetry; apply Nat.ltb_lt; lia).
  reflexivity.
Qed.

(** X6.  An edit made at a position of the history leaves nothing to
    redo and can be undone: the original image (position 0) is the one
    from before, undo shows the image that was current before the edit,
    and redo after that undo shows the edit again. *)
Theorem edit_can_be_undone (s : State) (newImageFile : File.t) :
  (0 <= historyIndex s <= Js.length (history s) - 1)%Z ->
  let s' := addImageToHistory s newImageFile s in
  canRedo s' = false
  /\ canUndo s' = true
  /\ originalImage s' = originalImage s
  /\ currentImage (handleUndo s') = currentImage s
  /\ currentImage (handleRedo (handleUndo s')) = Some newImageFile.
Proof.
  intros Hi s'.
  destruct (addImageToHistory_shape s newImageFile s) as (Hh & Hx & Hc); [lia |].
  fold s' in Hh, Hx, Hc.
  assert (Hlen : Js.length (history s') = (historyIndex s + 2)%Z).
  { rewrite Hh.
    fold (Js.push (firstn (Z.to_nat (historyIndex s + 1)) (history s)) newImageFile).
    rewrite length_push, length_firstn_Z; lia. }
  assert (Hrange : (0 <= historyIndex s' <= Js.length (history s') - 1)%Z) by lia.
  assert (Hundo : canUndo s' = true) by (unfold canUndo; apply Z.ltb_lt; lia).
  assert (Hux : historyIndex (handleUndo s') = historyIndex s).
  { rewrite handleUndo_historyIndex. unfold canUndo in Hundo. rewrite Hundo. lia. }
  repeat split; trivial.
  - unfold canRedo. apply Z.ltb_ge. lia.
  - unfold originalImage. rewrite Hh. apply index_prefix_push; lia.
  - unfold currentImage. rewrite handleUndo_history, Hux, Hh.
    apply index_prefix_push; lia.
  - destruct (undo_redo_inverse s' Hrange) as [Hcancel _].
    destruct (Hcancel Hundo) as (_ & _ & Hcur). now rewrite Hcur.
Qed.

Lemma edit_can_be_undone_witness :
  (0 <= historyIndex Session.uploaded <= Js.length (history Session.uploaded) - 1)%Z
  /\ currentImage (handleUndo (addImageToHistory Session.uploaded (Sample.edit 1)
                                 Session.uploaded))
     = currentImage Session.uploaded.
Proof.
  assert (H : (0 <= historyIndex Session.uploaded
               <= Js.length (history Session.uploaded) - 1)%Z)
    by (vm_compute; split; discriminate).
  split; [exact H |].
  exact (proj1 (proj2 (proj2 (proj2
           (edit_can_be_undone Session.uploaded (Sample.edit 1) H))))).
Defined.

(** X7.  Reset goes back to the original image and keeps the history:
    with a history that is not empty, the index becomes 0, the current
    image is the original one, there is nothing to undo, every later
    entry can still be reached by redo, and the error, the hotspots and
    the view are reset; with an empty history reset changes nothing. *)
Theorem reset_returns_to_the_original (s : State) :
  (history s <> [] ->
   let s' := handleReset s in
   history s' = history s
   /\ historyIndex s' = 0%Z
   /\ currentImage s' = originalImage s
   /\ canUndo s' = false
   /\ (forall k, historyIndex (Nat.iter k handleRedo s')
                 = Z.min (Z.of_nat k) (Js.length (history s) - 1))
   /\ error s' = None /\ editHotspot s' = None /\ displayHotspot s' = None
   /\ scale s' = 1 /\ position s' = Point.mk 0 0)
  /\ (history s = [] -> handleReset s = s).
Proof.
  split.
  - intros Hne s'.
    assert (Hlen : (0 <? Js.length (history s))%Z = true).
    { apply Z.ltb_lt. unfold Js.length. destruct (history s); [congruence | cbn; lia]. }
    assert (Hfields : history s' = history s /\ historyIndex s' = 0%Z
                      /\ error s' = None /\ editHotspot s' = None
                      /\ displayHotspot s' = None
                      /\ scale s' = 1 /\ position s' = Point.mk 0 0).
    { subst s'. unfold handleReset. rewrite Hlen.
      destruct s as [? ? ? ? ? ? ? ? ? ? ? ? ? ? ? ? ? [canvas |] ? ?]; now repeat split. }
    destruct Hfields as (Hh & Hx & He & Heh & Hdh & Hsc & Hp).
    repeat split; trivial.
    + unfold currentImage, originalImage. now rewrite Hh, Hx.
    + unfold canUndo. now rewrite Hx.
    + intros k. destruct (redo_iter k s') as [_ Rx].
      * rewrite Hh, Hx. apply Z.ltb_lt in Hlen. lia.
      * rewrite Rx, Hh, Hx. f_equal.
  - intros Hempty. unfold handleReset. now rewrite Hempty.
Qed.

Lemma reset_returns_to_the_original_witness :
  history Session.edited <> []
  /\ currentImage (handleReset Session.edited) = Some Sample.photo
  /\ handleReset initial = initial.
Proof.
  assert (H : history Session.edited <> []) by discriminate.
  destruct (reset_returns_to_the_original Session.edited) as [Hreset _].
  destruct (reset_returns_to_the_original initial) as [_ Hempty].
  split; [exact H | split].
  - exact (proj1 (proj2 (proj2 (Hreset H)))).
  - exact (Hempty eq_refl).
Defined.

(** ** The view in a session *)

(** X2.  In every state of a session the scale is between 1 and 10. *)
Theorem session_scale_in_range (s : State) :
  Reachable s -> 1 <= scale s <= 10.
Proof.
  intros Hreach. exact (proj1 (proj2 (Reachable_ok s Hreach))).
Qed.

Lemma session_scale_in_range_witness :
  Reachable (handleZoomIn Sample.page Session.uploaded)
  /\ 1 <= scale (handleZoomIn Sample.page Session.uploaded) <= 10.
Proof.
  assert (H : Reachable (handleZoomIn Sample.page Session.uploaded)).
  { apply reach_zoomIn; [| reflexivity].
    exact (reach_fileSelect (Some [Sample.photo]) initial reach_initial). }
  exact (conj H (session_scale_in_range _ H)).
Defined.

(** X3.  On the erase and crop tabs the image is never zoomed: in every
    state of a session with one of these tabs active the scale is 1. *)
Theorem erase_and_crop_tabs_are_not_zoomed (s : State) :
  Reachable s ->
  activeTab s = Tab.erase \/ activeTab s = Tab.crop ->
  scale s = 1.
Proof.
  intros Hreach Htab. destruct (Reachable_ok s Hreach) as [_ [_ Hhidden]].
  apply Hhidden. unfold zoomControlsShown. destruct Htab as [-> | ->]; reflexivity.
Qed.

Lemma erase_and_crop_tabs_are_not_zoomed_witness :
  let s := handleTabChange Tab.erase (handleZoomIn Sample.page Session.uploaded) in
  Reachable s /\ activeTab s = Tab.erase /\ scale s = 1.
Proof.
  intros s.
  assert (H : Reachable s).
  { apply reach_tabChange. apply reach_zoomIn; [| reflexivity].
    exact (reach_fileSelect (Some [Sample.photo]) initial reach_initial). }
  assert (Htab : activeTab s = Tab.erase) by reflexivity.
  exact (conj H (conj Htab (erase_and_crop_tabs_are_not_zoomed s H (or_introl Htab)))).
Defined.

(** ** Data URLs *)

Lemma lazy_to_semicolon_group (mime rest : string) :
  JsString.all JsString.in_group mime = true ->
  Js.lazy_to_semicolon (mime ++ String ";" rest) = Some mime.
Proof.
  unfold JsString.all. induction mime as [| c mime IH]; cbn; [reflexivity |].
  unfold JsString.in_group at 1. intros H.
  apply andb_true_iff in H as [Hc Hrest]. apply andb_true_iff in Hc as [Hsemi Hline].
  apply negb_true_iff in Hsemi, Hline. rewrite Hsemi, Hline, (IH Hrest). reflexivity.
Qed.

Lemma match_colon_semicolon_scheme (scheme tail : string) :
  JsString.all (JsString.is_not ":") scheme = true ->
  Js.match_colon_semicolon (scheme ++ String ":" tail)
  = match Js.lazy_to_semicolon tail with
    | Some g => Some g
    | None => Js.match_colon_semicolon tail
    end.
Proof.
  unfold JsString.all. induction scheme as [| c scheme IH]; cbn; [reflexivity |].
  unfold JsString.is_not at 1. intros H. apply andb_true_iff in H as [Hc Hrest].
  apply negb_true_iff in Hc. rewrite Hc. exact (IH Hrest).
Qed.

Lemma lowercase_small (s : string) :
  JsString.all (fun c => negb (File.capital c)) s = true -> File.lowercase s = s.
Proof.
  unfold JsString.all. induction s as [| c s IH]; [reflexivity |].
  cbn [JsString.chars forallb File.lowercase]. intros H.
  apply andb_true_iff in H as [Hc Hs]. apply negb_true_iff in Hc.
  unfold File.lower. now rewrite Hc, (IH Hs).
Qed.

(** X8.  [dataURLtoFile] reads the MIME type off the header: for a data
    URL whose text before the comma is a scheme without [:], then [:], a
    MIME type that is not empty and has no [;] and no line break, then
    [;] and anything, and whose payload decodes, the file has the decoded
    bytes, the given name and the type [new File] makes of that MIME
    type: the MIME type in lower case when all its characters are in
    U+0020 to U+007E (the MIME type itself when it has no capital letter
    either), and the empty string when one of them is not. *)
Theorem dataURLtoFile_reads_the_mime_type (scheme mime rest filename : string)
    (bits : Blob) :
  JsString.all (JsString.is_not ":") scheme = true ->
  mime <> EmptyString ->
  JsString.all JsString.in_group mime = true ->
  exists type,
    dataURLtoFile (DataURL.mk (scheme ++ String ":" (mime ++ String ";" rest))
                              (Some (Some bits))) filename
    = inr (File.mk bits filename type)
    /\ (File.all_printable mime = true -> type = File.lowercase mime)
    /\ (File.all_printable mime = true ->
        JsString.all (fun c => negb (File.capital c)) mime = true -> type = mime)
    /\ (File.all_printable mime = false -> type = EmptyString).
Proof.
  intros Hscheme Hmime Hgroup. exists (File.normalize mime). split.
  - unfold dataURLtoFile. cbn [DataURL.payload DataURL.head].
    rewrite (match_colon_semicolon_scheme _ _ Hscheme),
            (lazy_to_semicolon_group _ _ Hgroup).
    destruct mime; [congruence | reflexivity].
  - unfold File.normalize. split; [| split].
    + now intros ->.
    + intros -> Hsmall. now apply lowercase_small.
    + now intros ->.
Qed.

Lemma dataURLtoFile_reads_the_mime_type_witness :
  exists type,
    dataURLtoFile (DataURL.mk "data:Image/JPEG;base64" (Some (Some (Raw [])))) "a.jpg"
    = inr (File.mk (Raw []) "a.jpg" type)
    /\ type = "image/jpeg".
Proof.
  assert (Hmime : "Image/JPEG" <> EmptyString) by discriminate.
  destruct (dataURLtoFile_reads_the_mime_type "data" "Image/JPEG" "base64" "a.jpg" (Raw [])
              eq_refl Hmime eq_refl)
    as (type & Hfile & Hlower & _).
  exists type. exact (conj Hfile (Hlower eq_refl)).
Defined.




(** ** Requests to the service *)

Lemma trimEnd_keeps_head c r :
  JsString.whitespace c = false -> JsString.trimEnd (String c r) <> EmptyString.
Proof.
  intros Hc. cbn. destruct (JsString.trimEnd r); [rewrite Hc |]; discriminate.
Qed.

(** [trim] gives the empty string exactly for a string of white space. *)
Lemma trim_blank (p : string) :
  JsString.falsy (JsString.trim p) = JsString.all JsString.whitespace p.
Proof.
  unfold JsString.trim, JsString.all.
  induction p as [| c p IH]; [reflexivity |].
  cbn [JsString.trimStart JsString.chars forallb].
  destruct (JsString.whitespace c) eqn:Hc; [exact IH |].
  cbn [andb]. pose proof (trimEnd_keeps_head c p Hc) as Hne.
  destruct (JsString.trimEnd (String c p)); [congruence | reflexivity].
Qed.

(** X10.  [handleGenerate] asks the service only with a current image, a
    prompt that is not blank and a chosen hotspot; the request then
    carries that image, the prompt as typed and the hotspot, and the
    state shows loading without an error.  Otherwise it only sets an
    error, the first that applies of: no image, blank prompt, no
    hotspot. *)
Theorem handleGenerate_guards (s : State) :
  match handleGenerate s with
  | Pending rq waiting k =>
      exists image hotspot,
        currentImage s = Some image
        /\ JsString.all JsString.whitespace (prompt s) = false
        /\ editHotspot s = Some hotspot
        /\ rq = GenerateEditedImage image (prompt s) hotspot
        /\ waiting = (s |> setIsLoading true |> setError None)
  | Settled s' =>
      (currentImage s = None
       /\ s' = setError (Some "No image loaded to edit.") s)
      \/ (currentImage s <> None
          /\ JsString.all JsString.whitespace (prompt s) = true
          /\ s' = setError (Some "Please enter a description for your edit.") s)
      \/ (currentImage s <> None
          /\ JsString.all JsString.whitespace (prompt s) = false
          /\ editHotspot s = None
          /\ s' = setError
                    (Some "Please click on the image to select an area to edit.") s)
  end.
Proof.
  unfold handleGenerate.
  destruct (currentImage s) as [image |]; [| now left].
  rewrite trim_blank.
  destruct (JsString.all JsString.whitespace (prompt s)) eqn:Hblank.
  - right; left. repeat split; trivial. discriminate.
  - destruct (editHotspot s) as [hotspot |].
    + now exists image, hotspot.
    + right; right. repeat split; trivial. discriminate.
Qed.

Lemma reportsFailure_of_effect what kind k :
  (forall page reply cur message,
      replyFailure (replyFileName kind page) reply = Some message ->
      k page reply cur = editFailed what message cur) ->
  reportsFailure what kind k.
Proof.
  intros Hk page reply cur message Hfail. rewrite (Hk page reply cur message Hfail).
  destruct cur. now repeat split.
Qed.

Lemma addsToSnapshot_of_effect kind snap k (tail : State -> State) :
  (-1 <= historyIndex snap)%Z ->
  (forall x, untouched x (tail x)) ->
  (forall x, currentImage (tail x) = currentImage x) ->
  (forall x, isLoading (tail x) = false) ->
  (forall page url cur file,
      dataURLtoFile url (replyFileName kind page) = inr file ->
      k page (Resolved url) cur = tail (addImageToHistory snap file cur)) ->
  addsToSnapshot kind snap k.
Proof.
  intros Hidx Htail Hcur Hload Hk page url cur file Hfile.
  rewrite (Hk page url cur file Hfile).
  destruct (addImageToHistory_result snap file cur Hidx) as (Hh & _ & Hc).
  destruct (addImageToHistory_view snap file cur) as [Hs Ht].
  destruct (Htail (addImageToHistory snap file cur)) as (Th & _ & Ts & Tt).
  rewrite Th, Hcur, Hload, Ts, Tt. now repeat split.
Qed.

Ltac continuation :=
  let H := fresh "H" in
  split;
  [ intros ? [? | ?] ? ?; unfold replyFileName; cbn [replyFailure append];
    [ match goal with
      | |- context [dataURLtoFile ?u ?n] => destruct (dataURLtoFile u n)
      end; intros H; [| discriminate]
    | intros H ];
    injection H as <-; reflexivity
  | intros ? ? ? ?; unfold replyFileName; cbn [append]; intros H; rewrite H;
    reflexivity ].

Lemma handleApplyFilter_continues filterPrompt snap rq waiting k :
  handleApplyFilter filterPrompt snap = Pending rq waiting k ->
  continues "Failed to apply the filter. " "filtered-" snap (setIsLoading false) k.
Proof.
  unfold handleApplyFilter. destruct (currentImage snap); [| discriminate].
  intros H. injection H as _ _ <-. continuation.
Qed.

Lemma handleApplyAdjustment_continues adjustmentPrompt snap rq waiting k :
  handleApplyAdjustment adjustmentPrompt snap = Pending rq waiting k ->
  continues "Failed to apply the adjustment. " "adjusted-" snap (setIsLoading false) k.
Proof.
  unfold handleApplyAdjustment. destruct (currentImage snap); [| discriminate].
  intros H. injection H as _ _ <-. continuation.
Qed.

Lemma handleGenerate_continues snap rq waiting k :
  handleGenerate snap = Pending rq waiting k ->
  continues "Failed to generate the image. " "edited-" snap
    (fun x => x |> setEditHotspot None |> setDisplayHotspot None |> setIsLoading false) k.
Proof.
  unfold handleGenerate. destruct (currentImage snap); [| discriminate].
  destruct (JsString.falsy _); [discriminate |].
  destruct (editHotspot snap); [| discriminate].
  intros H. injection H as _ _ <-. continuation.
Qed.

Lemma handleApplyErase_continues dom snap rq waiting k :
  handleApplyErase dom snap = Await rq waiting k ->
  continues "Failed to apply the erase. " "erased-" snap (setIsLoading false) k.
Proof.
  unfold handleApplyErase.
  destruct (currentImage snap), (imgRef dom), (eraseCanvasRef snap); try discriminate.
  destruct (Js.length (erasePathRef snap) <? 2)%Z; [discriminate |].
  cbv zeta. destruct (bind _ _) as [message | maskFile]; [discriminate |].
  intros H. injection H as _ _ <-. continuation.
Qed.

Lemma currentImage_generate_tail x :
  currentImage (x |> setEditHotspot None |> setDisplayHotspot None |> setIsLoading false)
  = currentImage x.
Proof. now destruct x. Qed.

(** X11.  A request that fails never touches the history: when the
    service rejects, or its reply is not a data URL [dataURLtoFile]
    accepts, the continuation of [handleGenerate], [handleApplyFilter],
    [handleApplyAdjustment] and [handleApplyErase] leaves the history,
    the index and the current image of the state it runs on as they are,
    ends loading and sets the error to the handler's text followed by the
    message of the failure. *)
Theorem failed_request_keeps_the_history :
  (forall snap rq waiting k,
      handleGenerate snap = Pending rq waiting k ->
      reportsFailure "Failed to generate the image. " "edited-" k)
  /\ (forall filterPrompt snap rq waiting k,
        handleApplyFilter filterPrompt snap = Pending rq waiting k ->
        reportsFailure "Failed to apply the filter. " "filtered-" k)
  /\ (forall adjustmentPrompt snap rq waiting k,
        handleApplyAdjustment adjustmentPrompt snap = Pending rq waiting k ->
        reportsFailure "Failed to apply the adjustment. " "adjusted-" k)
  /\ (forall dom snap rq waiting k,
        handleApplyErase dom snap = Await rq waiting k ->
        reportsFailure "Failed to apply the erase. " "erased-" k).
Proof.
  split; [| split; [| split]].
  - intros snap rq waiting k H.
    exact (reportsFailure_of_effect _ _ _ (proj1 (handleGenerate_continues _ _ _ _ H))).
  - intros p snap rq waiting k H.
    exact (reportsFailure_of_effect _ _ _
             (proj1 (handleApplyFilter_continues _ _ _ _ _ H))).
  - intros p snap rq waiting k H.
    exact (reportsFailure_of_effect _ _ _
             (proj1 (handleApplyAdjustment_continues _ _ _ _ _ H))).
  - intros dom snap rq waiting k H.
    exact (reportsFailure_of_effect _ _ _
             (proj1 (handleApplyErase_continues _ _ _ _ _ H))).
Qed.

Lemma failed_request_keeps_the_history_witness :
  exists rq waiting k,
    handleApplyFilter "sepia" Session.uploaded = Pending rq waiting k
    /\ history (k Sample.page (Rejected (Some "quota")) (handleUndo waiting))
       = history (handleUndo waiting)
    /\ error (k Sample.page (Rejected (Some "quota")) (handleUndo waiting))
       = Some "Failed to apply the filter. quota".
Proof.
  destruct failed_request_keeps_the_history as (_ & Hfilter & _).
  eexists _, _, _. split; [reflexivity |].
  destruct (Hfilter "sepia" Session.uploaded _ _ _ eq_refl Sample.page
              (Rejected (Some "quota")) (handleUndo (afterPrompt
                 (handleApplyFilter "sepia" Session.uploaded))) "quota" eq_refl)
    as (Hh & _ & _ & _ & He).
  exact (conj Hh He).
Defined.

(** X12.  A reply is applied to the history of the render that made the
    request: with a snapshot index of at least [-1], the continuation of
    each of the four handlers makes the history the snapshot's history up
    to the snapshot's index followed by the new file, which is the
    current image, whatever the history and index of the state it runs
    on; the scale and the tab of that state stay.  An undo, redo or reset
    made while the request was pending is thus overwritten. *)
Theorem reply_is_added_to_the_snapshot :
  (forall snap rq waiting k,
      (-1 <= historyIndex snap)%Z ->
      handleGenerate snap = Pending rq waiting k -> addsToSnapshot "edited-" snap k)
  /\ (forall filterPrompt snap rq waiting k,
        (-1 <= historyIndex snap)%Z ->
        handleApplyFilter filterPrompt snap = Pending rq waiting k ->
        addsToSnapshot "filtered-" snap k)
  /\ (forall adjustmentPrompt snap rq waiting k,
        (-1 <= historyIndex snap)%Z ->
        handleApplyAdjustment adjustmentPrompt snap = Pending rq waiting k ->
        addsToSnapshot "adjusted-" snap k)
  /\ (forall dom snap rq waiting k,
        (-1 <= historyIndex snap)%Z ->
        handleApplyErase dom snap = Await rq waiting k ->
        addsToSnapshot "erased-" snap k).
Proof.
  split; [| split; [| split]].
  - intros snap rq waiting k H H0.
    exact (addsToSnapshot_of_effect _ _ _ _ H generate_tail_untouched
             currentImage_generate_tail generate_tail_loading
             (proj2 (handleGenerate_continues _ _ _ _ H0))).
  - intros p snap rq waiting k H H0.
    exact (addsToSnapshot_of_effect _ _ _ _ H (untouched_setIsLoading false)
             (currentImage_setIsLoading false) (isLoading_setIsLoading false)
             (proj2 (handleApplyFilter_continues _ _ _ _ _ H0))).
  - intros p snap rq waiting k H H0.
    exact (addsToSnapshot_of_effect _ _ _ _ H (untouched_setIsLoading false)
             (currentImage_setIsLoading false) (isLoading_setIsLoading false)
             (proj2 (handleApplyAdjustment_continues _ _ _ _ _ H0))).
  - intros dom snap rq waiting k H H0.
    exact (addsToSnapshot_of_effect _ _ _ _ H (untouched_setIsLoading false)
             (currentImage_setIsLoading false) (isLoading_setIsLoading false)
             (proj2 (handleApplyErase_continues _ _ _ _ _ H0))).
Qed.

Lemma reply_is_added_to_the_snapshot_witness :
  exists rq waiting k,
    handleApplyFilter "sepia" Session.edited = Pending rq waiting k
    /\ history (k Sample.page
                  (Resolved (DataURL.mk "data:image/png;base64"
                               (Some (Some (Encoded (Photo 7 800 600))))))
                  (handleUndo (handleUndo waiting)))
       = [Sample.photo; Sample.edit 1; Sample.edit 2;
          File.mk (Encoded (Photo 7 800 600)) "filtered-1700000000000.png" "image/png"].
Proof.
  destruct reply_is_added_to_the_snapshot as (_ & Hfilter & _).
  eexists _, _, _. split; [reflexivity |].
  assert (Hidx : (-1 <= historyIndex Session.edited)%Z) by (vm_compute; discriminate).
  exact (proj1 (Hfilter "sepia" Session.edited _ _ _ Hidx eq_refl Sample.page
                  (DataURL.mk "data:image/png;base64"
                     (Some (Some (Encoded (Photo 7 800 600)))))
                  (handleUndo (handleUndo (afterPrompt
                     (handleApplyFilter "sepia" Session.edited))))
                  (File.mk (Encoded (Photo 7 800 600)) "filtered-1700000000000.png"
                     "image/png")
                  eq_refl)).
Defined.

(** ** Strokes on the erase canvas *)

Lemma index_last {A : Type} (arr : list A) (x : A) :
  Js.index (arr ++ [x]) (Js.length (arr ++ [x]) - 1) = Some x.
Proof.
  fold (Js.push arr x). rewrite length_push.
  replace (Js.length arr + 1 - 1)%Z with (Js.length arr) by lia.
  apply index_push_last.
Qed.

Lemma segments_snoc ctm (pre : list Point.t) (l p : Point.t) :
  segments ctm (pre ++ [l; p])
  = segments ctm (pre ++ [l])
    ++ [Stroke "rgba(74, 144, 226, 0.8)" 20 "round" "round" ctm
               [MoveTo (Point.x l) (Point.y l); LineTo (Point.x p) (Point.y p)]].
Proof.
  induction pre as [| a pre IH]; [reflexivity |].
  destruct pre as [| b pre]; [reflexivity |].
  cbn [app segments] in *. now rewrite IH.
Qed.

Lemma length_segments ctm (points : list Point.t) : forall p,
  List.length (segments ctm (p :: points)) = List.length points.
Proof.
  induction points as [| q points IH]; intros p; [reflexivity |].
  change (segments ctm (p :: q :: points))
    with (Stroke "rgba(74, 144, 226, 0.8)" 20 "round" "round" ctm
                 [MoveTo (Point.x p) (Point.y p); LineTo (Point.x q) (Point.y q)]
          :: segments ctm (q :: points)).
  cbn [List.length]. now rewrite IH.
Qed.

Lemma handleEraseMouseMove_draws dom e s0 c0 pre l s :
  Drawing s0 c0 (pre ++ [l]) s ->
  exists s',
    handleEraseMouseMove dom e s = Done s'
    /\ Drawing s0 c0 ((pre ++ [l]) ++ [canvasPoint dom e]) s'.
Proof.
  intros [Htab Hload Hflag Hpath Hsp (Uh & Ui & Us & Ut) (c & Hc & Hw & Hh & Htr & Hops)].
  unfold handleEraseMouseMove. rewrite Htab, Hload, Hflag, Hc, Hpath.
  cbn [negb Tab.eqb orb]. cbv zeta. rewrite index_last.
  eexists. split; [reflexivity |].
  destruct s as [h hi pr il er eh dh tab cr cc asp ic idr ep sc pos epr ecr ipr psr].
  cbn in Htab, Hload, Hflag, Hc, Hpath, Hsp, Uh, Ui, Us, Ut. subst.
  destruct c as [w hgt [fs ss lw lc lj sq tr path] ops].
  cbn in Hw, Hh, Htr, Hops. subst.
  constructor; try reflexivity.
  - now repeat split.
  - eexists. split; [reflexivity |]. cbn. repeat split.
    rewrite <- (app_assoc pre [l] [canvasPoint dom e]). cbn [app].
    rewrite segments_snoc, app_assoc. reflexivity.
Qed.

Lemma erase_moves dom s0 c0 moves : forall pre l s,
  Drawing s0 c0 (pre ++ [l]) s ->
  exists s',
    fold_left (fun o e => andThen o (handleEraseMouseMove dom e)) moves (Done s) = Done s'
    /\ Drawing s0 c0 (pre ++ [l] ++ map (canvasPoint dom) moves) s'.
Proof.
  induction moves as [| e moves IH]; intros pre l s Hs.
  - exists s. split; [reflexivity |]. cbn. exact Hs.
  - destruct (handleEraseMouseMove_draws dom e s0 c0 pre l s Hs) as (s1 & Hstep & Hs1).
    cbn [fold_left andThen]. rewrite Hstep.
    destruct (IH (pre ++ [l]) (canvasPoint dom e) s1 Hs1) as (s' & Hrun & Hs').
    exists s'. split; [exact Hrun |].
    cbn [map]. rewrite <- app_assoc in Hs'. exact Hs'.
Qed.

Lemma handleEraseMouseDown_starts dom e s c0 :
  activeTab s = Tab.erase -> isLoading s = false -> eraseCanvasRef s = Some c0 ->
  exists s',
    handleEraseMouseDown dom e s = Done s'
    /\ Drawing s c0 ([] ++ [canvasPoint dom e]) s'.
Proof.
  intros Htab Hload Hc. unfold handleEraseMouseDown. rewrite Htab, Hload.
  cbn [negb Tab.eqb orb]. cbv zeta.
  destruct s as [h hi pr il er eh dh tab cr cc asp ic idr ep sc pos epr ecr ipr psr].
  cbn in Htab, Hload, Hc. subst. cbn.
  eexists. split; [reflexivity |].
  constructor; try reflexivity.
  - now repeat split.
  - exists c0. repeat split. cbn. now rewrite app_nil_r.
Qed.

(** The stroke as a whole: what the state is after the button is up. *)
Lemma eraseStroke_result dom down moves s c0 :
  activeTab s = Tab.erase -> isLoading s = false -> eraseCanvasRef s = Some c0 ->
  exists s' c,
    eraseStroke dom down moves s = Done s'
    /\ erasePath s' = map (canvasPoint dom) (down :: moves)
    /\ erasePathRef s' = map (canvasPoint dom) (down :: moves)
    /\ isDrawing s' = false
    /\ untouched s s'
    /\ currentImage s' = currentImage s
    /\ eraseCanvasRef s' = Some c
    /\ Canvas.width c = Canvas.width c0 /\ Canvas.height c = Canvas.height c0
    /\ Canvas.ops c
       = Canvas.ops c0
         ++ segments (Ctx.transform (Canvas.ctx c0)) (map (canvasPoint dom) (down :: moves)).
Proof.
  intros Htab Hload Hc.
  destruct (handleEraseMouseDown_starts dom down s c0 Htab Hload Hc) as (s1 & Hdown & Hs1).
  destruct (erase_moves dom s c0 moves [] (canvasPoint dom down) s1 Hs1)
    as (s2 & Hmoves & Hs2).
  unfold eraseStroke. rewrite Hdown, Hmoves. cbn [andThen app] in *.
  destruct Hs2 as [Htab2 Hload2 Hflag2 Hpath2 _ (Uh & Ui & Us & Ut)
                   (c & Hc2 & Hw & Hh & _ & Hops)].
  exists (handleEraseMouseUp s2), c. split; [reflexivity |].
  unfold handleEraseMouseUp. rewrite Hflag2. cbn [negb].
  destruct s2 as [h hi pr il er eh dh tab cr cc asp ic idr ep sc pos epr ecr ipr psr].
  cbn in Hpath2, Hc2, Uh, Ui, Us, Ut |- *. subst.
  repeat split; trivial.
Qed.

(** X13.  A stroke on the erase canvas is recorded point by point: on
    the erase tab, not loading, with the canvas mounted, a button press,
    any number of moves and the release leave in [erasePath] the points
    of the press and of the moves, relative to the canvas and in their
    order; the canvas has one more segment per move, each from the point
    before to the new point, 20 wide with round caps and joins; the
    Erase button is enabled; history, index, scale and tab stay. *)
Theorem stroke_is_recorded_in_order (dom : Dom) (down : MouseEvent.t)
    (moves : list MouseEvent.t) (s : State) (canvas : Canvas.t) :
  activeTab s = Tab.erase -> isLoading s = false -> eraseCanvasRef s = Some canvas ->
  exists s' canvas',
    eraseStroke dom down moves s = Done s'
    /\ erasePath s' = map (canvasPoint dom) (down :: moves)
    /\ Js.length (erasePath s') = (Js.length moves + 1)%Z
    /\ ErasePanel.disabled (isLoading s') (canErase s') = false
    /\ history s' = history s /\ historyIndex s' = historyIndex s
    /\ scale s' = scale s /\ activeTab s' = activeTab s
    /\ eraseCanvasRef s' = Some canvas'
    /\ Canvas.ops canvas'
       = Canvas.ops canvas
         ++ segments (Ctx.transform (Canvas.ctx canvas))
                     (map (canvasPoint dom) (down :: moves))
    /\ List.length (segments (Ctx.transform (Canvas.ctx canvas))
                             (map (canvasPoint dom) (down :: moves)))
       = List.length moves.
Proof.
  intros Htab Hload Hc.
  destruct (eraseStroke_result dom down moves s canvas Htab Hload Hc)
    as (s' & c & Hrun & Hpath & _ & _ & (Uh & Ui & Us & Ut) & _ & Hc' & _ & _ & Hops).
  exists s', c.
  assert (Hlen : Js.length (erasePath s') = (Js.length moves + 1)%Z).
  { rewrite Hpath. unfold Js.length. cbn [map List.length]. rewrite length_map. lia. }
  assert (Hl : isLoading s' = false).
  { revert Hrun. unfold eraseStroke.
    destruct (handleEraseMouseDown_starts dom down s canvas Htab Hload Hc)
      as (s1 & Hdown & Hs1).
    destruct (erase_moves dom s canvas moves [] (canvasPoint dom down) s1 Hs1)
      as (s2 & Hmoves & Hs2).
    rewrite Hdown, Hmoves. cbn [andThen]. intros H. injection H as <-.
    destruct Hs2 as [_ Hload2 Hflag2 _ _ _ _]. unfold handleEraseMouseUp.
    rewrite Hflag2. cbn [negb]. now destruct s2. }
  repeat split; trivial.
  - unfold ErasePanel.disabled, canErase. rewrite Hl, Hlen. cbn [orb].
    apply negb_false_iff, Z.ltb_lt. unfold Js.length. lia.
  - cbn [map]. now rewrite length_segments, length_map.
Qed.

Lemma stroke_is_recorded_in_order_witness :
  exists s',
    eraseStroke Sample.page Sample.press
                [MouseEvent.mk 130 95 0; MouseEvent.mk 140 100 0] Sample.eraseTab = Done s'
    /\ erasePath s' = [Point.mk (120 - 0) (90 - 0); Point.mk (130 - 0) (95 - 0);
                       Point.mk (140 - 0) (100 - 0)].
Proof.
  destruct (stroke_is_recorded_in_order Sample.page Sample.press
              [MouseEvent.mk 130 95 0; MouseEvent.mk 140 100 0] Sample.eraseTab
              (Canvas.create |> Canvas.set_width 400 |> Canvas.set_height 300)
              eq_refl eq_refl eq_refl)
    as (s' & c & Hrun & Hpath & _).
  exists s'. split; [exact Hrun | exact Hpath].
Defined.

(** X14.  A stroke with at least one move can be applied: after it,
    apply-erase (with a current image, the image element and a 2D
    context) sends the current image and a mask whose white polyline
    goes through the recorded points of the press and the moves, in
    order, scaled from the erase canvas to the natural size of the
    image. *)
Theorem stroke_then_apply_sends_its_mask (dom dom' : Dom) (down move : MouseEvent.t)
    (moves : list MouseEvent.t) (s : State) (canvas : Canvas.t)
    (currentImage0 : File.t) (image : Img.t) :
  activeTab s = Tab.erase -> isLoading s = false -> eraseCanvasRef s = Some canvas ->
  currentImage s = Some currentImage0 ->
  imgRef dom' = Some image -> context2d dom' = true ->
  0 < Img.naturalWidth image -> 0 < Img.naturalHeight image ->
  0 < Canvas.width canvas -> 0 < Canvas.height canvas ->
  exists s' k,
    eraseStroke dom down (move :: moves) s = Done s'
    /\ handleApplyErase dom' s'
       = Await (GenerateErasedImage currentImage0
                  (File.mk
                     (Encoded
                        (maskPicture (Img.naturalWidth image) (Img.naturalHeight image)
                           (Canvas.width canvas) (Canvas.height canvas)
                           (canvasPoint dom down)
                           (map (canvasPoint dom) (move :: moves))))
                     "mask.png" "image/png"))
               (s' |> setIsLoading true |> setError None) k.
Proof.
  intros Htab Hload Hc Hcur Himg Hctx HW HH Hw Hh.
  destruct (eraseStroke_result dom down (move :: moves) s canvas Htab Hload Hc)
    as (s' & c & Hrun & _ & Hpath & _ & _ & Hcur' & Hc' & Hcw & Hch & _).
  exists s'. eexists. split; [exact Hrun |].
  destruct (eraseMask_picture dom' image c (canvasPoint dom down)
              (map (canvasPoint dom) (move :: moves)) Hctx)
    as (maskCanvas & Hmask & Hmw & Hmh & Hpixels).
  unfold handleApplyErase. rewrite Hcur', Hcur, Himg, Hc', Hpath.
  replace (Js.length (map (canvasPoint dom) (down :: move :: moves)) <? 2)%Z with false.
  2:{ symmetry. apply Z.ltb_ge. unfold Js.length. cbn [map List.length]. lia. }
  cbv zeta. cbn [map] in Hmask |- *. rewrite Hmask. cbn [bind].
  rewrite export_canvas by (rewrite ?Hmw, ?Hmh; assumption).
  rewrite Hpixels, Hcw, Hch. reflexivity.
Qed.

Lemma stroke_then_apply_sends_its_mask_witness :
  exists s' rq waiting k,
    eraseStroke Sample.page Sample.press [MouseEvent.mk 130 95 0] Sample.eraseTab = Done s'
    /\ handleApplyErase Sample.page s' = Await rq waiting k.
Proof.
  destruct (stroke_then_apply_sends_its_mask Sample.page Sample.page Sample.press
              (MouseEvent.mk 130 95 0) [] Sample.eraseTab
              (Canvas.create |> Canvas.set_width 400 |> Canvas.set_height 300)
              Sample.photo (Img.mk 800 600 400 300 400 300 (Photo 0 800 600))
              eq_refl eq_refl eq_refl eq_refl eq_refl eq_refl
              eq_refl eq_refl eq_refl eq_refl)
    as (s' & k & Hrun & Happly).
  exists s'. eexists _, _, k. split; [exact Hrun | exact Happly].
Defined.

(** What [setCanvasSize] does when it finds a size that differs *)
Lemma setCanvasSize_resizes dom rect s canvas image :
  eraseCanvasRef s = Some canvas -> imgRef dom = Some image ->
  activeTab s = Tab.erase ->
  (~ Canvas.width canvas == DOMRect.width rect
   \/ ~ Canvas.height canvas == DOMRect.height rect) ->
  let s' := setCanvasSize dom rect s in
  erasePath s' = [] /\ erasePathRef s' = []
  /\ isLoading s' = isLoading s
  /\ (exists canvas',
        eraseCanvasRef s' = Some canvas'
        /\ Canvas.width canvas' = Canvas.size 300 (DOMRect.width rect)
        /\ Canvas.height canvas' = Canvas.size 150 (DOMRect.height rect))
  /\ untouched s s'.
Proof.
  intros Hc Himg Htab Hdiff s'. subst s'. unfold setCanvasSize.
  rewrite Hc, Himg, Htab. cbn [Tab.eqb].
  assert (Hcond : negb (Js.eqb (Canvas.width canvas) (DOMRect.width rect))
                  || negb (Js.eqb (Canvas.height canvas) (DOMRect.height rect))
                  = true).
  { destruct (Js.eqb (Canvas.width canvas) (DOMRect.width rect)) eqn:E1;
      [| reflexivity].
    destruct (Js.eqb (Canvas.height canvas) (DOMRect.height rect)) eqn:E2;
      [| reflexivity].
    apply eqb_true in E1, E2. tauto. }
  rewrite Hcond. cbv zeta. destruct s. cbn. repeat split.
  eexists. now repeat split.
Qed.

(** A whole number differs from a number with a fraction. *)
Lemma size_differs (default : Z) (v stored : Q) :
  stored = Canvas.size default v -> ~ Canvas.size default v == v -> ~ stored == v.
Proof. now intros ->. Qed.

(** X15.  A resize of the erase canvas discards the stroke: when the
    effect finds a canvas size that differs from the rectangle of the
    image, the canvas takes the sizes its setters store for those of the
    rectangle (whole numbers), the recorded path is emptied, the Erase
    button is disabled and apply-erase ends in its error without a
    request; history, index, scale and tab stay.  With the sizes equal,
    or off the erase tab, the effect changes nothing.  For a rectangle
    with a size the canvas cannot store, the sizes differ again after the
    resize: a stroke drawn then is discarded by the next run of the
    effect. *)
Theorem resize_discards_the_stroke (dom dom' : Dom) (rect : DOMRect.t) (s : State)
    (canvas : Canvas.t) (image : Img.t) :
  eraseCanvasRef s = Some canvas -> imgRef dom = Some image ->
  let s' := setCanvasSize dom rect s in
  let differ :=
    ~ Canvas.width canvas == DOMRect.width rect
    \/ ~ Canvas.height canvas == DOMRect.height rect in
  (activeTab s = Tab.erase -> differ ->
   erasePath s' = [] /\ erasePathRef s' = []
   /\ ErasePanel.disabled (isLoading s') (canErase s') = true
   /\ (exists canvas',
         eraseCanvasRef s' = Some canvas'
         /\ Canvas.width canvas' = Canvas.size 300 (DOMRect.width rect)
         /\ Canvas.height canvas' = Canvas.size 150 (DOMRect.height rect))
   /\ handleApplyErase dom' s'
      = Done (s' |> setError
                     (Some "Please draw on the image to select an area to erase."))
   /\ untouched s s')
  /\ (activeTab s <> Tab.erase
      \/ (Canvas.width canvas == DOMRect.width rect
          /\ Canvas.height canvas == DOMRect.height rect) ->
      s' = s)
  /\ (activeTab s = Tab.erase -> isLoading s = false -> differ ->
      (~ Canvas.size 300 (DOMRect.width rect) == DOMRect.width rect
       \/ ~ Canvas.size 150 (DOMRect.height rect) == DOMRect.height rect) ->
      forall down moves,
      exists drawn,
        eraseStroke dom' down moves s' = Done drawn
        /\ erasePathRef drawn = map (canvasPoint dom') (down :: moves)
        /\ erasePathRef (setCanvasSize dom rect drawn) = []
        /\ erasePath (setCanvasSize dom rect drawn) = []).
Proof.
  intros Hc Himg s' differ. subst s' differ. split; [| split].
  - intros Htab Hdiff.
    destruct (setCanvasSize_resizes dom rect s canvas image Hc Himg Htab Hdiff)
      as (Hp & Hr & _ & Hcanvas & Hu).
    split; [exact Hp | split; [exact Hr | split; [| split; [exact Hcanvas | split]]]].
    + unfold ErasePanel.disabled, canErase. rewrite Hp. cbn. apply orb_true_r.
    + apply handleApplyErase_short_path. now rewrite Hr.
    + exact Hu.
  - unfold setCanvasSize. rewrite Hc, Himg. intros [Htab | [Hw Hh]].
    + destruct (Tab.eqb (activeTab s) Tab.erase) eqn:E; trivial.
      destruct (activeTab s); try discriminate. congruence.
    + destruct (Tab.eqb (activeTab s) Tab.erase); trivial.
      unfold Js.eqb. apply Qeq_bool_iff in Hw, Hh. now rewrite Hw, Hh.
  - intros Htab Hload Hdiff Hfraction down moves.
    destruct (setCanvasSize_resizes dom rect s canvas image Hc Himg Htab Hdiff)
      as (_ & _ & Hload' & (canvas' & Hc' & Hw' & Hh') & (_ & _ & _ & Htab')).
    rewrite Hload in Hload'. rewrite Htab in Htab'.
    destruct (eraseStroke_result dom' down moves _ canvas' Htab' Hload' Hc')
      as (drawn & c & Hrun & _ & Hpath & _ & (_ & _ & _ & Htab2) & _ & Hc2 & Hcw & Hch & _).
    exists drawn. split; [exact Hrun |]. split; [exact Hpath |].
    rewrite Htab' in Htab2.
    assert (Hdiff2 : ~ Canvas.width c == DOMRect.width rect
                     \/ ~ Canvas.height c == DOMRect.height rect).
    { destruct Hfraction as [H | H]; [left | right].
      - apply (size_differs 300); [congruence | exact H].
      - apply (size_differs 150); [congruence | exact H]. }
    destruct (setCanvasSize_resizes dom rect drawn c image Hc2 Himg Htab2 Hdiff2)
      as (Hp & Hr & _).
    split; assumption.
Qed.

Lemma resize_discards_the_stroke_witness :
  let rect := DOMRect.mk 0 0 (801 # 2) (1201 # 4) in
  let s' := setCanvasSize Sample.page rect Sample.stroked in
  activeTab Sample.stroked = Tab.erase
  /\ erasePathRef s' = []
  /\ exists canvas',
       eraseCanvasRef s' = Some canvas'
       /\ Canvas.width canvas' = Canvas.size 300 (801 # 2)
       /\ Canvas.height canvas' = Canvas.size 150 (1201 # 4).
Proof.
  intros rect s'.
  assert (Hdiff : ~ Canvas.width (Canvas.create |> Canvas.set_width 400
                                    |> Canvas.set_height 300) == DOMRect.width rect
                  \/ ~ Canvas.height (Canvas.create |> Canvas.set_width 400
                                        |> Canvas.set_height 300) == DOMRect.height rect)
    by (left; intros H; discriminate H).
  destruct (resize_discards_the_stroke Sample.page Sample.page rect Sample.stroked
              (Canvas.create |> Canvas.set_width 400 |> Canvas.set_height 300)
              (Img.mk 800 600 400 300 400 300 (Photo 0 800 600)) eq_refl eq_refl)
    as [Hresize _].
  destruct (Hresize eq_refl Hdiff) as (_ & Hr & _ & Hcanvas & _).
  split; [reflexivity | split; [exact Hr | exact Hcanvas]].
Defined.






(** ** The zoom buttons *)

Lemma leb_intro a b : a <= b -> Js.leb a b = true.
Proof. apply Qle_bool_iff. Qed.

Lemma leb_intro_false a b : b < a -> Js.leb a b = false.
Proof.
  intros H. destruct (Js.leb a b) eqn:E; trivial. apply leb_true in E. lra.
Qed.

Lemma eqb_intro_false a b : ~ a == b -> Js.eqb a b = false.
Proof.
  intros H. destruct (Js.eqb a b) eqn:E; trivial. apply eqb_true in E. tauto.
Qed.

Lemma handleZoomIn_view (dom : Dom) (rect : DOMRect.t) (s : State) :
  imageContainerRef dom = Some rect ->
  let centerX := DOMRect.width rect / 2 in
  let centerY := DOMRect.height rect / 2 in
  let newScale := Js.min (scale s * (5 # 4)) 10 in
  scale (handleZoomIn dom s) = newScale
  /\ position (handleZoomIn dom s)
     = Point.mk (centerX - (centerX - Point.x (position s)) * (newScale / scale s))
                (centerY - (centerY - Point.y (position s)) * (newScale / scale s)).
Proof.
  intros Hrect. unfold handleZoomIn. rewrite Hrect. cbv zeta. apply set_view.
Qed.

Lemma handleZoomOut_view (dom : Dom) (rect : DOMRect.t) (s : State) :
  imageContainerRef dom = Some rect ->
  let centerX := DOMRect.width rect / 2 in
  let centerY := DOMRect.height rect / 2 in
  let newScale := Js.max (scale s / (5 # 4)) 1 in
  (newScale <= 1 ->
   scale (handleZoomOut dom s) = 1 /\ position (handleZoomOut dom s) = Point.mk 0 0)
  /\ (1 < newScale ->
      scale (handleZoomOut dom s) = newScale
      /\ position (handleZoomOut dom s)
         = Point.mk (centerX - (centerX - Point.x (position s)) * (newScale / scale s))
                    (centerY - (centerY - Point.y (position s)) * (newScale / scale s))).
Proof.
  intros Hrect. unfold handleZoomOut. rewrite Hrect. cbv zeta. split; intros H.
  - rewrite (leb_intro _ _ H). apply resetView_view.
  - rewrite (leb_intro_false _ _ H). apply set_view.
Qed.

(** X17.  In exact arithmetic the zoom buttons zoom about the centre of
    the container: with the pan and scale the formulas of [handleZoomIn]
    and [handleZoomOut] give, after zoom-in, and after a zoom-out that
    ends above scale 1, the image point under the centre is the one that
    was there before.  (In the doubles of the code the point can move by
    rounding, see [zoom_in_moves_the_centre_point_in_doubles].) *)
Theorem zoom_buttons_keep_the_centre (dom : Dom) (rect : DOMRect.t) (s : State) :
  imageContainerRef dom = Some rect -> 0 < scale s ->
  let centerX := DOMRect.width rect / 2 in
  let centerY := DOMRect.height rect / 2 in
  let same (s' : State) :=
    Hotspot.imageX (imagePoint s' centerX centerY)
    == Hotspot.imageX (imagePoint s centerX centerY)
    /\ Hotspot.imageY (imagePoint s' centerX centerY)
       == Hotspot.imageY (imagePoint s centerX centerY) in
  same (handleZoomIn dom s)
  /\ (1 < scale (handleZoomOut dom s) -> same (handleZoomOut dom s)).
Proof.
  intros Hrect Hs centerX centerY same. subst same. cbv beta.
  unfold imagePoint. cbn [Hotspot.imageX Hotspot.imageY]. split.
  - destruct (handleZoomIn_view dom rect s Hrect) as [-> ->].
    cbn [Point.x Point.y]. fold centerX centerY.
    assert (Hn : 0 < Js.min (scale s * (5 # 4)) 10)
      by (destruct (min_cases (scale s * (5 # 4)) 10) as [[H ->] | [H ->]]; lra).
    split; field; split; lra.
  - destruct (handleZoomOut_view dom rect s Hrect) as [Hreset Hzoom].
    cbv zeta in Hreset, Hzoom.
    destruct (Qlt_le_dec 1 (Js.max (scale s / (5 # 4)) 1)) as [H | H].
    + destruct (Hzoom H) as [-> ->]. intros _.
      cbn [Point.x Point.y]. fold centerX centerY.
      split; field; split; lra.
    + destruct (Hreset H) as [-> _]. intros H1. lra.
Qed.

Lemma zoom_buttons_keep_the_centre_witness :
  Hotspot.imageX (imagePoint (handleZoomIn Sample.page Sample.uploaded) (400 / 2) (300 / 2))
  == Hotspot.imageX (imagePoint Sample.uploaded (400 / 2) (300 / 2)).
Proof.
  exact (proj1 (proj1 (zoom_buttons_keep_the_centre Sample.page (DOMRect.mk 0 0 400 300)
                         Sample.uploaded eq_refl eq_refl))).
Defined.

(** In doubles the image point under the centre moves by rounding: at
    scale 1.1 with the pan a wheel step at (200, 150) has left, zoom-in
    in a 400 x 300 container puts another point of the image under the
    centre. *)
Lemma zoom_in_moves_the_centre_point_in_doubles :
  let rect := Double.mkRect 0 0 400 300 in
  let v := Double.handleWheel Tab.retouch (Some rect) (Double.mkWheel 200 150 (-100))
                              (Double.mkView 1 0 0) in
  let v' := Double.handleZoomIn (Some rect) v in
  Double.imageX v (Double.width rect / 2) = 200%float
  /\ (Double.imageX v' (Double.width rect / 2) =? 200)%float = false.
Proof. vm_compute. split; reflexivity. Qed.

(** In doubles a step in and a step out need not cancel: from that state
    a wheel step up and a wheel step down at the same point, and zoom-in
    followed by zoom-out, end with another pan. *)
Lemma zoom_steps_do_not_cancel_in_doubles :
  let rect := Double.mkRect 0 0 400 300 in
  let up := Double.mkWheel 200 150 (-100) in
  let down := Double.mkWheel 200 150 100 in
  let v := Double.handleWheel Tab.retouch (Some rect) up (Double.mkView 1 0 0) in
  let wheeled := Double.handleWheel Tab.retouch (Some rect) down
                   (Double.handleWheel Tab.retouch (Some rect) up v) in
  let zoomed := Double.handleZoomOut (Some rect) (Double.handleZoomIn (Some rect) v) in
  (Double.scale wheeled =? Double.scale v)%float = true
  /\ (Double.x wheeled =? Double.x v)%float = false
  /\ (Double.scale zoomed =? Double.scale v)%float = true
  /\ (Double.x zoomed =? Double.x v)%float = false.
Proof. vm_compute. repeat split. Qed.

Lemma handleWheel_up dom rect e s :
  imageContainerRef dom = Some rect -> zoomControlsShown s = true ->
  WheelEvent.deltaY e < 0 -> 1 <= scale s -> scale s * (11 # 10) <= 10 ->
  let mouseX := WheelEvent.clientX e - DOMRect.left rect in
  let mouseY := WheelEvent.clientY e - DOMRect.top rect in
  scale (handleWheel dom e s) = scale s * (11 # 10)
  /\ position (handleWheel dom e s)
     = Point.mk (mouseX - (mouseX - Point.x (position s)) * (scale s * (11 # 10) / scale s))
                (mouseY - (mouseY - Point.y (position s)) * (scale s * (11 # 10) / scale s))
  /\ zoomControlsShown (handleWheel dom e s) = true.
Proof.
  intros Hrect Hshown Hup Hlow Hhigh mouseX mouseY.
  assert (Hshown' : zoomControlsShown (handleWheel dom e s) = true)
    by (unfold zoomControlsShown in *; now rewrite handleWheel_tab).
  assert (Hserved : Tab.eqb (activeTab s) Tab.erase || Tab.eqb (activeTab s) Tab.crop
                    = false).
  { unfold zoomControlsShown in Hshown.
    destruct (Tab.eqb (activeTab s) Tab.erase), (Tab.eqb (activeTab s) Tab.crop);
      trivial; discriminate. }
  rewrite <- and_assoc. split; [| exact Hshown'].
  unfold handleWheel. rewrite Hserved, Hrect. cbv zeta.
  rewrite (ltb_intro _ _ Hup). fold mouseX mouseY.
  destruct (min_cases (scale s * (11 # 10)) 10) as [[H _] | [_ ->]]; [lra |].
  destruct (max_cases 1 (scale s * (11 # 10))) as [[_ ->] | [H _]]; [| lra].
  rewrite (eqb_intro_false (scale s * (11 # 10)) (scale s)) by lra.
  rewrite (leb_intro_false (scale s * (11 # 10)) 1) by lra.
  apply set_view.
Qed.

(** X18.  A step in and a step out from the unzoomed view end in the
    default view.  At scale 1, whatever the pan, the cursor and the
    container: zoom-in followed by zoom-out, and a wheel step up followed
    by a wheel step down on a tab where the wheel is served, leave scale
    1 and pan (0,0).  This holds of the handlers in exact arithmetic and
    of their arithmetic in doubles alike: 1 * 1.25 / 1.25 and
    1 * 1.1 / 1.1 are 1 in both, and the step out resets the view. *)
Theorem zoom_step_in_and_out_resets_the_view (dom : Dom) (rect : DOMRect.t)
    (up down : WheelEvent.t) (s : State)
    (v : Double.View) (tab : Tab.t) (container : Double.Rect) (u d : Double.Wheel) :
  (imageContainerRef dom = Some rect -> scale s == 1 ->
   (scale (handleZoomOut dom (handleZoomIn dom s)) = 1
    /\ position (handleZoomOut dom (handleZoomIn dom s)) = Point.mk 0 0)
   /\ (zoomControlsShown s = true ->
       WheelEvent.deltaY up < 0 -> 0 <= WheelEvent.deltaY down ->
       scale (handleWheel dom down (handleWheel dom up s)) = 1
       /\ position (handleWheel dom down (handleWheel dom up s)) = Point.mk 0 0))
  /\ (Double.scale v = 1%float ->
      Double.handleZoomOut (Some container) (Double.handleZoomIn (Some container) v)
      = Double.mkView 1 0 0
      /\ (Tab.eqb tab Tab.erase || Tab.eqb tab Tab.crop = false ->
          (Double.deltaY u <? 0)%float = true -> (Double.deltaY d <? 0)%float = false ->
          Double.handleWheel tab (Some container) d
            (Double.handleWheel tab (Some container) u v)
          = Double.mkView 1 0 0)).
Proof.
  split.
  - intros Hrect Hone. split.
    + destruct (handleZoomIn_view dom rect s Hrect) as [Hsc _]. cbv zeta in Hsc.
      destruct (handleZoomOut_view dom rect (handleZoomIn dom s) Hrect) as [Hreset _].
      cbv zeta in Hreset. rewrite Hsc in Hreset. apply Hreset.
      destruct (min_cases (scale s * (5 # 4)) 10) as [[H _] | [_ ->]]; [lra |].
      destruct (max_cases (scale s * (5 # 4) / (5 # 4)) 1) as [[_ ->] | [H ->]];
        [lra | zoom_factors; lra].
    + intros Hshown Hup Hdown.
      destruct (handleWheel_up dom rect up s Hrect Hshown Hup) as (Hsc & _ & Hshown');
        [lra | lra |].
      assert (Hserved : Tab.eqb (activeTab (handleWheel dom up s)) Tab.erase
                        || Tab.eqb (activeTab (handleWheel dom up s)) Tab.crop = false).
      { unfold zoomControlsShown in Hshown'.
        destruct (Tab.eqb (activeTab (handleWheel dom up s)) Tab.erase),
                 (Tab.eqb (activeTab (handleWheel dom up s)) Tab.crop);
          trivial; discriminate. }
      unfold handleWheel at 1 3.
      rewrite Hserved, Hrect. cbv zeta.
      rewrite (ltb_intro_false _ _ Hdown), Hsc.
      destruct (min_cases (scale s * (11 # 10) / (11 # 10)) 10) as [[H _] | [_ ->]];
        [zoom_factors; lra |].
      destruct (max_cases 1 (scale s * (11 # 10) / (11 # 10))) as [[H _] | [_ ->]];
        [zoom_factors; lra |].
      rewrite (eqb_intro_false 1 (scale s * (11 # 10))) by lra.
      rewrite (leb_intro 1 1) by lra.
      apply resetView_view.
  - destruct v as [sc vx vy]. cbn [Double.scale]. intros ->. split.
    + vm_compute. reflexivity.
    + intros Htab Hu Hd. unfold Double.handleWheel. rewrite Htab.
      cbn [Double.scale Double.x Double.y]. rewrite Hu.
      change (Double.max 1 (Double.min (1 * Double.zoomFactor) 10))
        with Double.zoomFactor.
      change (Double.zoomFactor =? 1)%float with false.
      change (Double.zoomFactor <=? 1)%float with false.
      cbn [Double.scale Double.x Double.y]. rewrite Hd.
      change (Double.max 1 (Double.min (Double.zoomFactor / Double.zoomFactor) 10))
        with 1%float.
      reflexivity.
Qed.

Lemma zoom_step_in_and_out_resets_the_view_witness :
  position (handleWheel Sample.page Sample.wheelDown
              (handleWheel Sample.page Sample.wheelUp Sample.draggedAtScaleOne))
  = Point.mk 0 0.
Proof.
  assert (Hone : scale Sample.draggedAtScaleOne == 1) by reflexivity.
  assert (Hup : WheelEvent.deltaY Sample.wheelUp < 0) by reflexivity.
  assert (Hdown : 0 <= WheelEvent.deltaY Sample.wheelDown) by discriminate.
  exact (proj2 (proj2 (proj1 (zoom_step_in_and_out_resets_the_view Sample.page
                                (DOMRect.mk 0 0 400 300) Sample.wheelUp Sample.wheelDown
                                Sample.draggedAtScaleOne (Double.mkView 1 0 0) Tab.retouch
                                (Double.mkRect 0 0 400 300)
                                (Double.mkWheel 200 150 (-100))
                                (Double.mkWheel 200 150 100))
                             eq_refl Hone)
                      eq_refl Hup Hdown)).
Defined.

(** X29.  In exact arithmetic, zooming in and then out about the same
    point restores the view.  With the pan and scale the formulas of the
    handlers give: from a scale above 1 (or from scale 1 with the pan at
    the origin) and with room for one step below 10, zoom-in followed by
    zoom-out gives back the scale and the pan; so does a wheel step up
    followed by a wheel step down at the same cursor position, on a tab
    where the wheel is served.  From a scale above 1.25, zoom-out
    followed by zoom-in gives back the scale and the pan as well.  (In
    the doubles of the code the steps cancel up to rounding only, see
    [zoom_steps_do_not_cancel_in_doubles].) *)
Theorem zoom_steps_cancel (dom : Dom) (rect : DOMRect.t) (up down : WheelEvent.t)
    (s : State) :
  imageContainerRef dom = Some rect ->
  let same (s' : State) :=
    scale s' == scale s
    /\ Point.x (position s') == Point.x (position s)
    /\ Point.y (position s') == Point.y (position s) in
  let atOrigin :=
    scale s == 1 -> Point.x (position s) == 0 /\ Point.y (position s) == 0 in
  (1 <= scale s -> scale s * (5 # 4) <= 10 -> atOrigin ->
   same (handleZoomOut dom (handleZoomIn dom s)))
  /\ (5 # 4 < scale s -> scale s <= 10 ->
      same (handleZoomIn dom (handleZoomOut dom s)))
  /\ (1 <= scale s -> scale s * (11 # 10) <= 10 -> atOrigin ->
      zoomControlsShown s = true ->
      WheelEvent.deltaY up < 0 -> 0 <= WheelEvent.deltaY down ->
      WheelEvent.clientX down = WheelEvent.clientX up ->
      WheelEvent.clientY down = WheelEvent.clientY up ->
      same (handleWheel dom down (handleWheel dom up s))).
Proof.
  intros Hrect same atOrigin. subst same atOrigin. cbv beta.
  split; [| split].
  - intros Hlow Hhigh Horigin.
    destruct (handleZoomIn_view dom rect s Hrect) as [Hsc Hpos].
    cbv zeta in Hsc, Hpos.
    destruct (min_cases (scale s * (5 # 4)) 10) as [[H _] | [_ Hmin]]; [lra |].
    rewrite Hmin in Hsc, Hpos.
    destruct (handleZoomOut_view dom rect (handleZoomIn dom s) Hrect) as [Hreset Hzoom].
    cbv zeta in Hreset, Hzoom. rewrite Hsc in Hreset, Hzoom. rewrite Hpos in Hzoom.
    cbn [Point.x Point.y] in Hzoom.
    destruct (max_cases (scale s * (5 # 4) / (5 # 4)) 1) as [[H Hmax] | [H Hmax]];
      rewrite Hmax in Hreset, Hzoom.
    + destruct Hreset as [-> ->]; [lra |]. cbn [Point.x Point.y].
      assert (Hone : scale s == 1) by (zoom_factors; lra).
      destruct (Horigin Hone) as [Hx Hy]. rewrite Hone, Hx, Hy. repeat split; reflexivity.
    + destruct (Qlt_le_dec 1 (scale s * (5 # 4) / (5 # 4))) as [H1 | H1].
      * destruct (Hzoom H1) as [-> ->]. cbn [Point.x Point.y].
        repeat split; field; lra.
      * destruct (Hreset H1) as [-> ->]. cbn [Point.x Point.y].
        assert (Hone : scale s == 1) by (zoom_factors; lra).
        destruct (Horigin Hone) as [Hx Hy]. rewrite Hone, Hx, Hy.
        repeat split; reflexivity.
  - intros Hlow Hhigh.
    destruct (handleZoomOut_view dom rect s Hrect) as [_ Hzoom].
    cbv zeta in Hzoom.
    destruct (max_cases (scale s / (5 # 4)) 1) as [[H _] | [H Hmax]];
      [zoom_factors; lra |].
    rewrite Hmax in Hzoom.
    destruct Hzoom as [Hsc Hpos]; [zoom_factors; lra |].
    destruct (handleZoomIn_view dom rect (handleZoomOut dom s) Hrect) as [Hsc' Hpos'].
    cbv zeta in Hsc', Hpos'. rewrite Hsc in Hsc', Hpos'. rewrite Hpos in Hpos'.
    cbn [Point.x Point.y] in Hpos'.
    destruct (min_cases (scale s / (5 # 4) * (5 # 4)) 10) as [[H1 _] | [_ Hmin]];
      [zoom_factors; lra |].
    rewrite Hmin in Hsc', Hpos'. rewrite Hsc', Hpos'. cbn [Point.x Point.y].
    repeat split; field; lra.
  - intros Hlow Hhigh Horigin Hshown Hup Hdown Hx Hy.
    set (mouseX := WheelEvent.clientX up - DOMRect.left rect).
    set (mouseY := WheelEvent.clientY up - DOMRect.top rect).
    assert (Hserved : forall x, zoomControlsShown x = true ->
              Tab.eqb (activeTab x) Tab.erase || Tab.eqb (activeTab x) Tab.crop = false).
    { intros x. unfold zoomControlsShown.
      destruct (Tab.eqb (activeTab x) Tab.erase), (Tab.eqb (activeTab x) Tab.crop);
        trivial; discriminate. }
    assert (Hfirst : scale (handleWheel dom up s) = scale s * (11 # 10)
                     /\ position (handleWheel dom up s)
                        = Point.mk (mouseX - (mouseX - Point.x (position s))
                                              * (scale s * (11 # 10) / scale s))
                                   (mouseY - (mouseY - Point.y (position s))
                                              * (scale s * (11 # 10) / scale s))).
    { unfold handleWheel. rewrite (Hserved s Hshown), Hrect. cbv zeta.
      rewrite (ltb_intro _ _ Hup). fold mouseX mouseY.
      destruct (min_cases (scale s * (11 # 10)) 10) as [[H _] | [_ ->]]; [lra |].
      destruct (max_cases 1 (scale s * (11 # 10))) as [[_ ->] | [H _]]; [| lra].
      rewrite (eqb_intro_false (scale s * (11 # 10)) (scale s)) by lra.
      rewrite (leb_intro_false (scale s * (11 # 10)) 1) by lra.
      apply set_view. }
    destruct Hfirst as [Hsc Hpos].
    assert (Hshown' : zoomControlsShown (handleWheel dom up s) = true)
      by (unfold zoomControlsShown in *; now rewrite handleWheel_tab).
    unfold handleWheel at 1 3 5.
    rewrite (Hserved _ Hshown'), Hrect. cbv zeta.
    rewrite (ltb_intro_false _ _ Hdown), Hx, Hy, Hsc, Hpos. fold mouseX mouseY.
    cbn [Point.x Point.y].
    destruct (min_cases (scale s * (11 # 10) / (11 # 10)) 10) as [[H _] | [_ ->]];
      [zoom_factors; lra |].
    destruct (max_cases 1 (scale s * (11 # 10) / (11 # 10))) as [[H ->] | [H ->]].
    + rewrite (eqb_intro_false (scale s * (11 # 10) / (11 # 10)) (scale s * (11 # 10)))
        by (zoom_factors; lra).
      rewrite (leb_intro_false (scale s * (11 # 10) / (11 # 10)) 1) by lra.
      rewrite (proj1 (set_view _ _ _)), (proj2 (set_view _ _ _)).
      cbn [Point.x Point.y].
      assert (0 < scale s) by lra.
      repeat split; field; lra.
    + rewrite (eqb_intro_false 1 (scale s * (11 # 10))) by lra.
      rewrite (leb_intro 1 1) by lra.
      rewrite (proj1 (resetView_view _)), (proj2 (resetView_view _)).
      cbn [Point.x Point.y].
      assert (Hone : scale s == 1) by (zoom_factors; lra).
      destruct (Horigin Hone) as [Hx0 Hy0]. rewrite Hone, Hx0, Hy0.
      repeat split; reflexivity.
Qed.

Lemma zoom_steps_cancel_witness :
  let s := handleWheel Sample.page Sample.wheelUp Sample.uploaded in
  1 < scale s
  /\ Point.x (position (handleZoomOut Sample.page (handleZoomIn Sample.page s)))
     == Point.x (position s).
Proof.
  intros s.
  assert (Hzoomed : 1 < scale s) by reflexivity.
  assert (Hlow : 1 <= scale s) by (vm_compute; discriminate).
  assert (Hhigh : scale s * (5 # 4) <= 10) by (vm_compute; discriminate).
  assert (Horigin : scale s == 1 ->
                    Point.x (position s) == 0 /\ Point.y (position s) == 0)
    by (intros H; discriminate H).
  exact (conj Hzoomed
           (proj1 (proj2 (proj1 (zoom_steps_cancel Sample.page (DOMRect.mk 0 0 400 300)
                                   Sample.wheelUp Sample.wheelDown s eq_refl)
                                Hlow Hhigh Horigin)))).
Defined.

(** X19.  The zoom buttons are enabled exactly when they change the
    scale.  With the container mounted and the scale in [1, 10]: an
    enabled zoom-in button raises the scale, and not above 10; an enabled
    zoom-out button lowers it, and not below 1; a zoom-in at the upper
    end, where the button is disabled, changes neither scale nor pan, and
    a zoom-out at the lower end leaves the scale at 1. *)
Theorem zoom_buttons_are_enabled_when_they_zoom (dom : Dom) (rect : DOMRect.t)
    (s : State) :
  imageContainerRef dom = Some rect -> 1 <= scale s <= 10 ->
  (ZoomControls.zoomInDisabled (scale s) = false ->
   scale s < scale (handleZoomIn dom s) <= 10)
  /\ (ZoomControls.zoomOutDisabled (scale s) = false ->
      1 <= scale (handleZoomOut dom s) < scale s)
  /\ (ZoomControls.zoomInDisabled (scale s) = true ->
      scale (handleZoomIn dom s) == scale s
      /\ Point.x (position (handleZoomIn dom s)) == Point.x (position s)
      /\ Point.y (position (handleZoomIn dom s)) == Point.y (position s))
  /\ (ZoomControls.zoomOutDisabled (scale s) = true ->
      scale (handleZoomOut dom s) == scale s).
Proof.
  intros Hrect Hs. unfold ZoomControls.zoomInDisabled, ZoomControls.zoomOutDisabled.
  destruct (handleZoomIn_view dom rect s Hrect) as [Hin Hinpos].
  destruct (handleZoomOut_view dom rect s Hrect) as [Hreset Hzoom].
  cbv zeta in Hin, Hinpos, Hreset, Hzoom.
  split; [| split; [| split]]; intros H.
  - apply leb_false in H. rewrite Hin.
    destruct (min_cases (scale s * (5 # 4)) 10) as [[H1 ->] | [H1 ->]]; lra.
  - apply leb_false in H.
    destruct (max_cases (scale s / (5 # 4)) 1) as [[H1 Hmax] | [H1 Hmax]];
      rewrite Hmax in Hreset, Hzoom.
    + destruct Hreset as [-> _]; lra.
    + destruct (Qlt_le_dec 1 (scale s / (5 # 4))) as [H2 | H2].
      * destruct (Hzoom H2) as [-> _]. zoom_factors. lra.
      * destruct (Hreset H2) as [-> _]. lra.
  - apply leb_true in H. rewrite Hin, Hinpos. cbn [Point.x Point.y].
    destruct (min_cases (scale s * (5 # 4)) 10) as [[H1 ->] | [H1 ->]]; [| lra].
    assert (Hten : scale s == 10) by lra. rewrite Hten.
    repeat split; try reflexivity; field.
  - apply leb_true in H.
    destruct (max_cases (scale s / (5 # 4)) 1) as [[H1 Hmax] | [H1 Hmax]];
      rewrite Hmax in Hreset.
    + destruct Hreset as [-> _]; lra.
    + zoom_factors. lra.
Qed.

Lemma zoom_buttons_are_enabled_when_they_zoom_witness :
  scale Sample.uploaded < scale (handleZoomIn Sample.page Sample.uploaded) <= 10.
Proof.
  assert (Hs : 1 <= scale Sample.uploaded <= 10)
    by (split; vm_compute; discriminate).
  exact (proj1 (zoom_buttons_are_enabled_when_they_zoom Sample.page
                  (DOMRect.mk 0 0 400 300) Sample.uploaded eq_refl Hs) eq_refl).
Defined.

(** X27.  Zoom requests are clamped.  With the container mounted, a scale
    in [1, 10] and, on the erase and crop tabs, scale 1 (as in every
    state of a session): every zoom request (wheel, zoom-in button,
    zoom-out button) leaves the scale in [1, 10]; a request that asks for
    more than 10 gives exactly 10, one that asks for less than 1 gives
    exactly 1; and when the resulting scale is 1, the pan is (0,0) or the
    handler returned without touching the state. *)
Theorem zoom_requests_are_clamped (dom : Dom) (rect : DOMRect.t) (r : ZoomRequest)
    (s : State) :
  imageContainerRef dom = Some rect ->
  1 <= scale s <= 10 ->
  (zoomControlsShown s = false -> scale s = 1) ->
  let s' := zoom dom r s in
  1 <= scale s' <= 10
  /\ (10 < requestedScale r s -> scale s' == 10)
  /\ (requestedScale r s < 1 -> scale s' == 1)
  /\ (scale s' == 1 -> position s' = Point.mk 0 0 \/ s' = s).
Proof.
  intros Hrect Hs Hhidden s'.
  assert (Heff : ZoomEffect s s') by now apply zoom_effect.
  split; [| split; [| split]].
  - destruct Heff as [Hu | Hr Hp | Hz]; [now rewrite Hu | rewrite Hr; lra | lra].
  - intros Hreq. subst s'. destruct r as [e | |]; cbn [zoom].
    + destruct (zoomControlsShown s) eqn:Hshown.
      * rewrite (handleWheel_scale dom e s).
        -- unfold clamp. now rewrite (clamp_above _ Hreq).
        -- unfold served, zoomControlsShown in *. rewrite Hrect.
           destruct (Tab.eqb (activeTab s) Tab.erase), (Tab.eqb (activeTab s) Tab.crop);
             trivial; discriminate.
      * unfold requestedScale in Hreq. rewrite (Hhidden eq_refl) in Hreq.
        destruct (Js.ltb (WheelEvent.deltaY e) 0); zoom_factors; lra.
    + rewrite (handleZoomIn_scale dom s Hs);
        [unfold clamp; now rewrite (clamp_above _ Hreq) | unfold served; now rewrite Hrect].
    + unfold requestedScale in Hreq. zoom_factors. lra.
  - intros Hreq. subst s'. destruct r as [e | |]; cbn [zoom].
    + destruct (zoomControlsShown s) eqn:Hshown.
      * rewrite (handleWheel_scale dom e s).
        -- unfold clamp. now rewrite (clamp_below _ Hreq).
        -- unfold served, zoomControlsShown in *. rewrite Hrect.
           destruct (Tab.eqb (activeTab s) Tab.erase), (Tab.eqb (activeTab s) Tab.crop);
             trivial; discriminate.
      * rewrite (handleWheel_hidden dom e s Hshown), (Hhidden eq_refl). reflexivity.
    + rewrite (handleZoomIn_scale dom s Hs);
        [unfold clamp; now rewrite (clamp_below _ Hreq) | unfold served; now rewrite Hrect].
    + now apply handleZoomOut_scale.
  - intros H1. destruct Heff as [Hu | Hr Hp | Hz]; [now right | now left | lra].
Qed.

Lemma zoom_requests_are_clamped_witness :
  let s := Nat.iter 10 (handleZoomIn Sample.page) Sample.uploaded in
  ~ scale s == 10
  /\ 10 < requestedScale ZoomInButton s
  /\ scale (zoom Sample.page ZoomInButton s) == 10.
Proof.
  intros s.
  assert (Hs : 1 <= scale s <= 10) by (split; vm_compute; discriminate).
  assert (Hhidden : zoomControlsShown s = false -> scale s = 1)
    by (intros H; vm_compute in H; discriminate H).
  assert (Hbelow : ~ scale s == 10) by (intros H; vm_compute in H; discriminate H).
  assert (Hreq : 10 < requestedScale ZoomInButton s) by (vm_compute; reflexivity).
  exact (conj Hbelow
           (conj Hreq
              (proj1 (proj2 (zoom_requests_are_clamped Sample.page
                               (DOMRect.mk 0 0 400 300) ZoomInButton s
                               eq_refl Hs Hhidden)) Hreq))).
Defined.

(** ** The point sent with an edit *)

Lemma floor_unique (q : Q) (z : Z) :
  inject_Z z <= q -> q < inject_Z z + 1 -> Qfloor q = z.
Proof.
  intros Hlow Hhigh.
  assert (H1 := Qfloor_le q). assert (H2 := Qlt_floor q).
  rewrite inject_Z_plus in H2. change (inject_Z 1) with 1 in H2.
  assert (Ha : inject_Z z < inject_Z (Qfloor q) + 1) by lra.
  assert (Hb : inject_Z (Qfloor q) < inject_Z z + 1) by lra.
  change 1 with (inject_Z 1) in Ha, Hb.
  rewrite <- inject_Z_plus in Ha, Hb. rewrite <- Zlt_Qlt in Ha, Hb. lia.
Qed.

Lemma round_near (t : Q) : t - (1 # 2) < Js.round t <= t + (1 # 2).
Proof.
  unfold Js.round.
  assert (H1 := Qfloor_le (t + (1 # 2))). assert (H2 := Qlt_floor (t + (1 # 2))).
  rewrite inject_Z_plus in H2. change (inject_Z 1) with 1 in H2. lra.
Qed.

Lemma round_within (t : Q) (w : Z) :
  0 <= t <= inject_Z w -> (0 <= Qfloor (t + (1 # 2)) <= w)%Z.
Proof.
  intros [Hlow Hhigh]. split.
  - change 0%Z with (Qfloor 0). apply Qfloor_resp_le. lra.
  - rewrite <- (floor_unique (inject_Z w + (1 # 2)) w) by lra.
    apply Qfloor_resp_le. lra.
Qed.

Lemma scaled_within (x c n : Q) :
  0 < c -> 0 <= n -> 0 <= x <= c -> 0 <= x * (n / c) <= n.
Proof.
  intros Hc Hn [Hlow Hhigh].
  assert (Hr : 0 <= x / c <= 1).
  { split.
    - apply Qle_shift_div_l; lra.
    - apply Qle_shift_div_r; lra. }
  assert (E : x * (n / c) == n * (x / c)) by (field; lra).
  rewrite E. destruct Hr as [Hr0 Hr1]. set (r := x / c) in *.
  split; [apply Qmult_le_0_compat; lra |].
  assert (H := Qmult_le_compat_r r 1 n Hr1 Hn). lra.
Qed.

Lemma handleImageClick_editHotspot dom img rect e s :
  imgRef dom = Some img ->
  imageContainerRef dom = Some rect ->
  activeTab s = Tab.retouch ->
  let mouseX := MouseEvent.clientX e - DOMRect.left rect in
  let mouseY := MouseEvent.clientY e - DOMRect.top rect in
  let h := imagePoint s mouseX mouseY in
  0 <= Hotspot.imageX h <= Img.clientWidth img ->
  0 <= Hotspot.imageY h <= Img.clientHeight img ->
  editHotspot (handleImageClick dom e s)
  = Some (Point.mk
            (Js.round (Hotspot.imageX h * (Img.naturalWidth img / Img.clientWidth img)))
            (Js.round (Hotspot.imageY h * (Img.naturalHeight img / Img.clientHeight img)))).
Proof.
  intros Himg Hrect Htab mouseX mouseY h Hx Hy.
  unfold handleImageClick. rewrite Himg, Hrect, Htab. cbn [Tab.eqb negb].
  cbv zeta. fold mouseX mouseY. unfold Js.gtb.
  change ((mouseX - Point.x (position s)) / scale s) with (Hotspot.imageX h).
  change ((mouseY - Point.y (position s)) / scale s) with (Hotspot.imageY h).
  rewrite !ltb_intro_false by tauto. cbn [orb].
  now destruct s.
Qed.

Lemma handleImageClick_outside dom img rect e s :
  imgRef dom = Some img -> imageContainerRef dom = Some rect ->
  let h := imagePoint s (MouseEvent.clientX e - DOMRect.left rect)
                        (MouseEvent.clientY e - DOMRect.top rect) in
  Hotspot.imageX h < 0 \/ Hotspot.imageY h < 0
  \/ Img.clientWidth img < Hotspot.imageX h \/ Img.clientHeight img < Hotspot.imageY h ->
  handleImageClick dom e s = s.
Proof.
  intros Himg Hrect h Hout. unfold handleImageClick. rewrite Himg, Hrect.
  destruct (negb (Tab.eqb (activeTab s) Tab.retouch)); trivial.
  cbv zeta. unfold Js.gtb.
  change ((MouseEvent.clientX e - DOMRect.left rect - Point.x (position s)) / scale s)
    with (Hotspot.imageX h).
  change ((MouseEvent.clientY e - DOMRect.top rect - Point.y (position s)) / scale s)
    with (Hotspot.imageY h).
  destruct Hout as [H | [H | [H | H]]]; rewrite (ltb_intro _ _ H);
    rewrite ?orb_true_r; reflexivity.
Qed.

(** X20.  The point sent with an edit is never outside the picture.  For
    an image with whole natural dimensions W x H, displayed with a
    positive size, and a scale above 0: a click either changes nothing,
    or it is a click on
    the retouch tab that stores as edit hotspot a pair of whole numbers
    (x, y) with 0 <= x <= W and 0 <= y <= H, and as display hotspot a
    point of the displayed image; the view stays as it is.  Both ends are
    included: at the default view (scale 1, pan (0,0)) a click on the
    right edge of the image stores x = W. *)
Theorem edit_hotspot_is_within_the_picture (dom : Dom) (img : Img.t) (rect : DOMRect.t)
    (e : MouseEvent.t) (s : State) (W H : Z) :
  imgRef dom = Some img ->
  imageContainerRef dom = Some rect ->
  0 < scale s ->
  0 < Img.clientWidth img -> 0 < Img.clientHeight img ->
  Img.naturalWidth img = inject_Z W -> Img.naturalHeight img = inject_Z H ->
  (0 <= W)%Z -> (0 <= H)%Z ->
  let s' := handleImageClick dom e s in
  (s' = s
   \/ (activeTab s = Tab.retouch
       /\ (exists x y : Z,
             editHotspot s' = Some (Point.mk (inject_Z x) (inject_Z y))
             /\ (0 <= x <= W)%Z /\ (0 <= y <= H)%Z)
       /\ (exists h,
             displayHotspot s' = Some h
             /\ 0 <= Hotspot.imageX h <= Img.clientWidth img
             /\ 0 <= Hotspot.imageY h <= Img.clientHeight img)
       /\ scale s' = scale s /\ position s' = position s))
  /\ (activeTab s = Tab.retouch -> scale s = 1 -> position s = Point.mk 0 0 ->
      MouseEvent.clientX e - DOMRect.left rect == Img.clientWidth img ->
      0 <= MouseEvent.clientY e - DOMRect.top rect <= Img.clientHeight img ->
      exists y : Z, editHotspot s' = Some (Point.mk (inject_Z W) (inject_Z y))).
Proof.
  intros Himg Hrect _ Hcw Hch HW HH HW0 HH0 s'. subst s'.
  set (mouseX := MouseEvent.clientX e - DOMRect.left rect).
  set (mouseY := MouseEvent.clientY e - DOMRect.top rect).
  set (h := imagePoint s mouseX mouseY).
  assert (HW0' : 0 <= inject_Z W) by (change 0 with (inject_Z 0); now rewrite <- Zle_Qle).
  assert (HH0' : 0 <= inject_Z H) by (change 0 with (inject_Z 0); now rewrite <- Zle_Qle).
  assert (Hstored : activeTab s = Tab.retouch ->
            0 <= Hotspot.imageX h <= Img.clientWidth img ->
            0 <= Hotspot.imageY h <= Img.clientHeight img ->
            editHotspot (handleImageClick dom e s)
            = Some (Point.mk
                      (Js.round (Hotspot.imageX h * (inject_Z W / Img.clientWidth img)))
                      (Js.round (Hotspot.imageY h * (inject_Z H / Img.clientHeight img))))).
  { intros Htab Hx Hy.
    rewrite (handleImageClick_editHotspot dom img rect e s Himg Hrect Htab Hx Hy).
    now rewrite HW, HH. }
  split.
  - destruct (Tab.eqb (activeTab s) Tab.retouch) eqn:Htab.
    2:{ left. unfold handleImageClick. now rewrite Htab. }
    assert (Hretouch : activeTab s = Tab.retouch)
      by (destruct (activeTab s); try discriminate; reflexivity).
    destruct (Qlt_le_dec (Hotspot.imageX h) 0) as [H1 | H1];
      [left; apply (handleImageClick_outside dom img rect e s Himg Hrect); tauto |].
    destruct (Qlt_le_dec (Hotspot.imageY h) 0) as [H2 | H2];
      [left; apply (handleImageClick_outside dom img rect e s Himg Hrect); tauto |].
    destruct (Qlt_le_dec (Img.clientWidth img) (Hotspot.imageX h)) as [H3 | H3];
      [left; apply (handleImageClick_outside dom img rect e s Himg Hrect); tauto |].
    destruct (Qlt_le_dec (Img.clientHeight img) (Hotspot.imageY h)) as [H4 | H4];
      [left; apply (handleImageClick_outside dom img rect e s Himg Hrect); tauto |].
    right. split; [exact Hretouch |].
    destruct (handleImageClick_accepts dom img rect e s Himg Hrect Hretouch
                (conj H1 H3) (conj H2 H4))
      as (Hdisplay & Hscale & Hposition & _).
    split; [| split; [| split; assumption]].
    + rewrite (Hstored Hretouch (conj H1 H3) (conj H2 H4)).
      eexists _, _. split; [reflexivity |].
      split; apply round_within; apply scaled_within; auto.
    + exists h. split; [exact Hdisplay | split; split; assumption].
  - intros Htab Hscale Hposition Hedge Hy.
    assert (Ex : Hotspot.imageX h == mouseX).
    { subst h. unfold imagePoint. cbn [Hotspot.imageX].
      rewrite Hscale, Hposition. cbn [Point.x]. field. }
    assert (Ey : Hotspot.imageY h == mouseY).
    { subst h. unfold imagePoint. cbn [Hotspot.imageY].
      rewrite Hscale, Hposition. cbn [Point.y]. field. }
    assert (Hx' : 0 <= Hotspot.imageX h <= Img.clientWidth img)
      by (rewrite Ex; fold mouseX in Hedge; lra).
    assert (Hy' : 0 <= Hotspot.imageY h <= Img.clientHeight img)
      by (rewrite Ey; fold mouseY in Hy; lra).
    rewrite (Hstored Htab Hx' Hy'). eexists. unfold Js.round. do 3 f_equal.
    apply floor_unique.
    + assert (E : Hotspot.imageX h * (inject_Z W / Img.clientWidth img) == inject_Z W)
        by (rewrite Ex; fold mouseX in Hedge; rewrite Hedge; field; lra).
      lra.
    + assert (E : Hotspot.imageX h * (inject_Z W / Img.clientWidth img) == inject_Z W)
        by (rewrite Ex; fold mouseX in Hedge; rewrite Hedge; field; lra).
      lra.
Qed.

Lemma edit_hotspot_is_within_the_picture_witness :
  exists y : Z,
    editHotspot (handleImageClick Sample.page (MouseEvent.mk 400 100 0) Sample.uploaded)
    = Some (Point.mk (inject_Z 800) (inject_Z y)).
Proof.
  assert (Hy : 0 <= 100 - 0 <= 300) by (split; discriminate).
  exact (proj2 (edit_hotspot_is_within_the_picture Sample.page
                  (Img.mk 800 600 400 300 400 300 (Photo 0 800 600))
                  (DOMRect.mk 0 0 400 300) (MouseEvent.mk 400 100 0) Sample.uploaded
                  800 600 eq_refl eq_refl eq_refl eq_refl eq_refl eq_refl eq_refl
                  ltac:(lia) ltac:(lia))
               eq_refl eq_refl eq_refl eq_refl Hy).
Defined.

(** ** Moving through the history and the tabs *)

(** X21.  Showing another image or another tool puts the tools back.
    Undo, redo, reset, upload, upload-new and a change of tab either do
    nothing (their guard fails) or leave the view at scale 1 with the pan
    at the origin, no hotspot of either kind and an empty erase path; so
    right after them the Erase button is disabled, apply-erase ends in
    its error, and Generate sends no request before a new click on the
    image. *)
Theorem navigation_puts_the_tools_back (n : Navigation) (s : State) :
  (navigates n s = false -> navigate n s = s)
  /\ (navigates n s = true ->
      let s' := navigate n s in
      scale s' = 1 /\ position s' = Point.mk 0 0
      /\ editHotspot s' = None /\ displayHotspot s' = None
      /\ erasePath s' = [] /\ erasePathRef s' = []
      /\ ErasePanel.disabled (isLoading s') (canErase s') = true
      /\ (forall dom,
            handleApplyErase dom s'
            = Done (s' |> setError
                            (Some "Please draw on the image to select an area to erase.")))
      /\ exists settled, handleGenerate s' = Settled settled).
Proof.
  split.
  - destruct n; cbn [navigates navigate]; try discriminate;
      unfold handleUndo, handleRedo, handleReset, handleTabChange;
      intros ->; reflexivity.
  - intros Hgo s'.
    assert (Hfields : scale s' = 1 /\ position s' = Point.mk 0 0
                      /\ editHotspot s' = None /\ displayHotspot s' = None
                      /\ erasePath s' = [] /\ erasePathRef s' = []).
    { subst s'. destruct n; cbn [navigates navigate] in *;
        unfold handleUndo, handleRedo, handleReset, handleTabChange,
          handleUploadNew, handleImageUpload;
        rewrite ?Hgo; destruct s as [? ? ? ? ? ? ? ? ? ? ? ? ? ? ? ? ? [c |] ? ?];
        cbn; repeat split. }
    destruct Hfields as (Hsc & Hpos & Hedit & Hdisplay & Hpath & Href).
    repeat (split; [assumption |]).
    split; [| split].
    + unfold ErasePanel.disabled, canErase. rewrite Hpath. apply orb_true_r.
    + intros dom. apply handleApplyErase_short_path. now rewrite Href.
    + unfold handleGenerate. rewrite Hedit.
      destruct (currentImage s'); [| eexists; reflexivity].
      destruct (JsString.falsy (JsString.trim (prompt s'))); eexists; reflexivity.
Qed.

Lemma navigation_puts_the_tools_back_witness :
  navigates Undo Session.edited = true
  /\ editHotspot (navigate Undo Session.edited) = None.
Proof.
  split; [reflexivity |].
  exact (proj1 (proj2 (proj2 (proj2 (navigation_puts_the_tools_back Undo Session.edited)
                                eq_refl)))).
Defined.

(** * GenerateScreen *)

(** X22.  A generation ends with the image or with the error, never with
    the spinner.  A blank prompt only sets the error; otherwise the
    request carries the prompt as typed and the chosen aspect ratio, the
    spinner is shown while it is pending, a resolved request shows its
    image (the form again, if the URL is the empty string), a rejected
    one shows the error box with the message of the rejection, and
    Generate Another leads from the image back to the form. *)
Theorem generation_ends_with_image_or_error (s : GenerateScreen.State) :
  match GenerateScreen.handleGenerate s with
  | GenerateScreen.Settled s' =>
      JsString.all JsString.whitespace (GenerateScreen.prompt s) = true
      /\ GenerateScreen.error s' = Some "Please enter a prompt to generate an image."
      /\ GenerateScreen.screen s'
         = GenerateScreen.ErrorBox "Please enter a prompt to generate an image."
      /\ GenerateScreen.generatedImageUrl s' = GenerateScreen.generatedImageUrl s
  | GenerateScreen.Pending prompt aspect waiting k =>
      JsString.all JsString.whitespace (GenerateScreen.prompt s) = false
      /\ prompt = GenerateScreen.prompt s /\ aspect = GenerateScreen.activeAspect s
      /\ GenerateScreen.screen waiting = GenerateScreen.Spinner
      /\ (forall url,
            GenerateScreen.screen (k (Resolved url) waiting)
            = (if GenerateScreen.truthy url then GenerateScreen.Generated url
               else GenerateScreen.Form)
            /\ GenerateScreen.screen
                 (GenerateScreen.handleGenerateAnother (k (Resolved url) waiting))
               = GenerateScreen.Form)
      /\ (forall err,
            GenerateScreen.screen (k (Rejected err) waiting)
            = GenerateScreen.ErrorBox
                ("Failed to generate the image. " ++ errorMessage err)%string
            /\ GenerateScreen.generatedImageUrl (k (Rejected err) waiting) = None)
      /\ (forall reply cur, GenerateScreen.isLoading (k reply cur) = false)
  end.
Proof.
  unfold GenerateScreen.handleGenerate. rewrite trim_blank.
  destruct (JsString.all JsString.whitespace (GenerateScreen.prompt s)) eqn:Hblank.
  - destruct s. cbn. repeat split.
  - split; [reflexivity |]. split; [reflexivity |]. split; [reflexivity |].
    split; [now destruct s |]. split; [| split].
    + intros url. destruct s. cbn. unfold GenerateScreen.screen. cbn.
      destruct (GenerateScreen.truthy url); split; reflexivity.
    + intros err. destruct s. split; reflexivity.
    + intros reply cur. destruct cur, reply; reflexivity.
Qed.

Lemma length_prefix (n : nat) (s : string) :
  String.length (JsString.prefix n s) = Nat.min n (String.length s).
Proof.
  revert s. induction n as [| n IH]; intros [| c s]; cbn; trivial.
  now rewrite IH.
Qed.

Lemma get_prefix (n i : nat) (s : string) :
  (i < n)%nat -> String.get i (JsString.prefix n s) = String.get i s.
Proof.
  revert i s. induction n as [| n IH]; intros i s Hi; [lia |].
  destruct s as [| c s]; [reflexivity |]. destruct i as [| i]; [reflexivity |].
  cbn. apply IH. lia.
Qed.

Lemma length_replace_whitespace (s : string) :
  String.length (JsString.replace_whitespace s) = String.length s.
Proof. induction s as [| c s IH]; cbn; congruence. Qed.

Lemma get_replace_whitespace (i : nat) (s : string) :
  String.get i (JsString.replace_whitespace s)
  = option_map (fun c => if JsString.whitespace c then "_"%char else c) (String.get i s).
Proof.
  revert i. induction s as [| c s IH]; intros i; [reflexivity |].
  destruct i as [| i]; [reflexivity |]. cbn. apply IH.
Qed.

Lemma replace_whitespace_clean (s : string) :
  JsString.all (fun c => negb (JsString.whitespace c)) (JsString.replace_whitespace s)
  = true.
Proof.
  unfold JsString.all. induction s as [| c s IH]; [reflexivity |].
  cbn [JsString.replace_whitespace JsString.chars forallb]. rewrite IH.
  destruct (JsString.whitespace c) eqn:Hc; [reflexivity |]. now rewrite Hc.
Qed.

(** X23.  The buttons of the result screen always act, and the name of
    the download is made from the prompt: whenever the image is shown,
    Edit hands it to [dataURLtoFile] and Download saves it as
    [generated-], a stem and [.png], where the stem has the first 20
    characters of the prompt (all of it, if shorter), each white-space
    character replaced by an underscore, so that the stem has no white
    space. *)
Theorem generated_download_name (page : Dom) (s : GenerateScreen.State)
    (url : DataURL.t) :
  GenerateScreen.screen s = GenerateScreen.Generated url ->
  exists stem,
    GenerateScreen.handleDownload s = Some ("generated-" ++ stem ++ ".png")%string
    /\ String.length stem = Nat.min 20 (String.length (GenerateScreen.prompt s))
    /\ JsString.all (fun c => negb (JsString.whitespace c)) stem = true
    /\ (forall i, (i < 20)%nat ->
          String.get i stem
          = option_map (fun c => if JsString.whitespace c then "_"%char else c)
                       (String.get i (GenerateScreen.prompt s)))
    /\ GenerateScreen.handleEdit page s
       = Some (dataURLtoFile url ("generated-" ++ Js.decimal (now page) ++ ".png")%string).
Proof.
  intros Hscreen.
  assert (Hurl : GenerateScreen.generatedImageUrl s = Some url
                 /\ GenerateScreen.truthy url = true).
  { unfold GenerateScreen.screen in Hscreen.
    destruct (GenerateScreen.error s) as [[| ? ?] |]; try discriminate;
      destruct (GenerateScreen.isLoading s); try discriminate;
      destruct (GenerateScreen.generatedImageUrl s) as [u |]; try discriminate;
      destruct (GenerateScreen.truthy u) eqn:Hu; try discriminate;
      injection Hscreen as ->; now split. }
  destruct Hurl as [Hurl Htruthy].
  exists (JsString.replace_whitespace (JsString.prefix 20 (GenerateScreen.prompt s))).
  unfold GenerateScreen.handleDownload, GenerateScreen.handleEdit.
  rewrite Hurl, Htruthy. split; [reflexivity |].
  split; [now rewrite length_replace_whitespace, length_prefix |].
  split; [apply replace_whitespace_clean |].
  split; [| reflexivity].
  intros i Hi. now rewrite get_replace_whitespace, get_prefix.
Qed.

Lemma generated_download_name_witness :
  exists stem,
    GenerateScreen.handleDownload
      (GenerateScreen.mkState "a red fox in the snow at dawn" false None
         (Some (DataURL.mk "data:image/png;base64" (Some (Some (Raw []))))) GenerateScreen.Wide)
    = Some ("generated-" ++ stem ++ ".png")%string
    /\ String.length stem = 20%nat.
Proof.
  destruct (generated_download_name Sample.page
              (GenerateScreen.mkState "a red fox in the snow at dawn" false None
                 (Some (DataURL.mk "data:image/png;base64" (Some (Some (Raw [])))))
                 GenerateScreen.Wide)
              (DataURL.mk "data:image/png;base64" (Some (Some (Raw [])))) eq_refl)
    as (stem & Hname & Hlen & _).
  exists stem. exact (conj Hname Hlen).
Defined.

(** * AdjustmentPanel *)

Lemma run_app (a b : list (bool * AdjustmentPanel.Event)) (s : AdjustmentPanel.State) :
  AdjustmentPanel.run (a ++ b) s
  = let '(s1, calls1) := AdjustmentPanel.run a s in
    let '(s2, calls2) := AdjustmentPanel.run b s1 in
    (s2, calls1 ++ calls2).
Proof.
  revert s. induction a as [| [l e] a IH]; intros s.
  - cbn [app AdjustmentPanel.run]. now destruct (AdjustmentPanel.run b s).
  - cbn [app AdjustmentPanel.run].
    destruct (AdjustmentPanel.handle l e s) as [s1 call]. rewrite IH.
    destruct (AdjustmentPanel.run a s1) as [s2 calls].
    destruct (AdjustmentPanel.run b s2) as [s3 calls']. now destruct call.
Qed.

Lemma run_one_choice (events : list (bool * AdjustmentPanel.Event))
    (s : AdjustmentPanel.State) :
  AdjustmentPanel.selectedPresetPrompt s = None \/ AdjustmentPanel.customPrompt s = "" ->
  let s' := fst (AdjustmentPanel.run events s) in
  AdjustmentPanel.selectedPresetPrompt s' = None \/ AdjustmentPanel.customPrompt s' = "".
Proof.
  revert s. induction events as [| [l e] events IH]; intros s Hs; [exact Hs |].
  cbn [AdjustmentPanel.run].
  destruct (AdjustmentPanel.handle l e s) as [s1 call] eqn:He.
  specialize (IH s1). destruct (AdjustmentPanel.run events s1) as [s2 calls].
  apply IH. unfold AdjustmentPanel.handle in He.
  destruct (AdjustmentPanel.enabled l e s); cbn [negb] in He;
    [| injection He as <- _; exact Hs].
  destruct e; injection He as <- _; cbn; auto.
Qed.

Lemma handle_sound (l : bool) (e : AdjustmentPanel.Event) (s s1 : AdjustmentPanel.State)
    (c : AdjustmentPanel.Call) :
  AdjustmentPanel.handle l e s = (s1, Some c) -> AdjustmentPanel.sound c = true.
Proof.
  unfold AdjustmentPanel.handle.
  destruct (AdjustmentPanel.enabled l e s) eqn:Hen; cbn [negb]; [| discriminate].
  destruct e; intros He; injection He as _ Hc; try discriminate Hc;
    try (subst c; reflexivity).
  unfold AdjustmentPanel.enabled, AdjustmentPanel.applyDisabled in Hen.
  unfold AdjustmentPanel.handleApply in Hc.
  destruct (JsString.falsy (AdjustmentPanel.activePrompt s)); cbv iota in Hc;
    [discriminate Hc |].
  injection Hc as <-. cbn [AdjustmentPanel.sound]. rewrite <- trim_blank.
  destruct l; [discriminate Hen |].
  destruct (JsString.falsy (JsString.trim (AdjustmentPanel.activePrompt s)));
    [| reflexivity].
  cbn in Hen. now rewrite andb_false_r in Hen.
Qed.

Lemma run_sound (events : list (bool * AdjustmentPanel.Event))
    (s : AdjustmentPanel.State) :
  forallb AdjustmentPanel.sound (snd (AdjustmentPanel.run events s)) = true.
Proof.
  revert s. induction events as [| [l e] events IH]; intros s; [reflexivity |].
  cbn [AdjustmentPanel.run].
  destruct (AdjustmentPanel.handle l e s) as [s1 call] eqn:He.
  specialize (IH s1). destruct (AdjustmentPanel.run events s1) as [s2 calls].
  cbn [snd] in *. destruct call as [c |]; [| exact IH].
  cbn [forallb]. now rewrite (handle_sound l e s s1 c He), IH.
Qed.

(** A choice followed by Apply, on renders that are not loading *)
Lemma choose_and_apply (choice : string) (preset : bool) (s : AdjustmentPanel.State) :
  snd (AdjustmentPanel.run
         [(false, if preset then AdjustmentPanel.PresetClick choice
                  else AdjustmentPanel.CustomChange choice);
          (false, AdjustmentPanel.Apply)] s)
  = if JsString.all JsString.whitespace choice then []
    else [AdjustmentPanel.ApplyAdjustment choice].
Proof.
  rewrite <- trim_blank.
  assert (Hactive : forall s',
            s' = AdjustmentPanel.handlePresetClick choice s
            \/ s' = AdjustmentPanel.handleCustomChange choice s ->
            AdjustmentPanel.activePrompt s' = choice).
  { intros s' [-> | ->]; unfold AdjustmentPanel.activePrompt; cbn;
      destruct choice; reflexivity. }
  assert (Hrun : forall s',
            AdjustmentPanel.activePrompt s' = choice ->
            snd (AdjustmentPanel.run [(false, AdjustmentPanel.Apply)] s')
            = if JsString.falsy (JsString.trim choice) then []
              else [AdjustmentPanel.ApplyAdjustment choice]).
  { intros s' Hs'. cbn [AdjustmentPanel.run].
    unfold AdjustmentPanel.handle, AdjustmentPanel.enabled, AdjustmentPanel.applyShown,
      AdjustmentPanel.applyDisabled, AdjustmentPanel.handleApply.
    rewrite Hs'. cbn [negb andb orb].
    destruct (JsString.falsy (JsString.trim choice)) eqn:Hblank.
    - rewrite andb_false_r. reflexivity.
    - destruct choice; [discriminate Hblank | reflexivity]. }
  destruct preset; cbn [AdjustmentPanel.run];
    unfold AdjustmentPanel.handle at 1; cbn [AdjustmentPanel.enabled negb andb];
    match goal with
    | |- context [AdjustmentPanel.handle false AdjustmentPanel.Apply ?s'] =>
        specialize (Hrun s' (Hactive s' ltac:(auto)))
    end;
    cbn [AdjustmentPanel.run] in Hrun;
    destruct (AdjustmentPanel.handle false AdjustmentPanel.Apply _) as [s2 call];
    exact Hrun.
Qed.

(** X24.  The adjustment panel applies the latest choice, and never a
    blank prompt.  After any sequence of its events, each on a render
    that is loading or not, from the first render: a preset and a typed
    text are never held together; no call of [onApplyAdjustment] made on
    the way has a blank prompt; while loading no event changes the state
    or makes a call; and, not loading, a click on a preset or a change
    of the text followed by a click on Apply adds exactly one call with
    that preset or that text, whatever was chosen before, and none when
    it is blank: the Apply button is then not rendered or disabled. *)
Theorem adjustment_panel_applies_the_latest_choice
    (events : list (bool * AdjustmentPanel.Event)) :
  let s := fst (AdjustmentPanel.run events AdjustmentPanel.initial) in
  let calls := snd (AdjustmentPanel.run events AdjustmentPanel.initial) in
  let applied (choice : string) :=
    if JsString.all JsString.whitespace choice then calls
    else calls ++ [AdjustmentPanel.ApplyAdjustment choice] in
  (AdjustmentPanel.selectedPresetPrompt s = None \/ AdjustmentPanel.customPrompt s = "")
  /\ forallb AdjustmentPanel.sound calls = true
  /\ (forall e, AdjustmentPanel.handle true e s = (s, None))
  /\ (forall preset,
        snd (AdjustmentPanel.run
               (events ++ [(false, AdjustmentPanel.PresetClick preset);
                           (false, AdjustmentPanel.Apply)])
               AdjustmentPanel.initial)
        = applied preset)
  /\ (forall text,
        snd (AdjustmentPanel.run
               (events ++ [(false, AdjustmentPanel.CustomChange text);
                           (false, AdjustmentPanel.Apply)])
               AdjustmentPanel.initial)
        = applied text).
Proof.
  intros s calls applied. subst s calls applied. cbv beta.
  split; [apply run_one_choice; now left |].
  split; [apply run_sound |].
  split; [reflexivity |].
  split; intros choice; rewrite run_app;
    destruct (AdjustmentPanel.run events AdjustmentPanel.initial) as [s calls];
    cbn [fst snd].
  - pose proof (choose_and_apply choice true s) as H. cbv iota in H.
    destruct (AdjustmentPanel.run _ s) as [s2 calls2]. cbn [snd] in H |- *.
    rewrite H. destruct (JsString.all JsString.whitespace choice);
      [apply app_nil_r | reflexivity].
  - pose proof (choose_and_apply choice false s) as H. cbv iota in H.
    destruct (AdjustmentPanel.run _ s) as [s2 calls2]. cbn [snd] in H |- *.
    rewrite H. destruct (JsString.all JsString.whitespace choice);
      [apply app_nil_r | reflexivity].
Qed.

(** * The cursor and the zoom label *)

(** X25.  The cursor tells whether a drag pans.  With the scale equal to
    1 on the erase and crop tabs (as in every state of a session), for a
    press of the main button: under the [grab] cursor the press starts a
    drag, under the [default] cursor it does not, and a press that starts
    a drag happens under [grab] or, on the retouch tab, under
    [crosshair]. *)
Theorem cursor_tells_whether_a_drag_pans (e : MouseEvent.t) (s : State) :
  (zoomControlsShown s = false -> scale s = 1) ->
  MouseEvent.button e = 0%Z ->
  (getCursor s = "grab"%string -> panStarts e s = true)
  /\ (getCursor s = "default"%string -> panStarts e s = false)
  /\ (panStarts e s = true ->
      getCursor s = "grab"%string
      \/ (getCursor s = "crosshair"%string /\ activeTab s = Tab.retouch)).
Proof.
  intros Hone Hbutton. unfold getCursor, panStarts. rewrite Hbutton.
  unfold zoomControlsShown in Hone.
  destruct (activeTab s); cbn [Tab.eqb negb andb orb Z.eqb] in *;
    try (rewrite Hone by reflexivity; cbn);
    try destruct (Js.gtb (scale s) 1);
    repeat split; intros; try discriminate; auto.
Qed.

Lemma cursor_tells_whether_a_drag_pans_witness :
  let s := Sample.uploaded |> handleWheel Sample.page Sample.wheelUp
                           |> handleTabChange Tab.adjust
                           |> handleZoomIn Sample.page in
  getCursor s = "grab"%string /\ panStarts (MouseEvent.mk 100 100 0) s = true.
Proof.
  intros s.
  assert (Hone : zoomControlsShown s = false -> scale s = 1) by discriminate.
  assert (Hcursor : getCursor s = "grab"%string) by reflexivity.
  exact (conj Hcursor
           (proj1 (cursor_tells_whether_a_drag_pans (MouseEvent.mk 100 100 0) s
                     Hone eq_refl) Hcursor)).
Defined.

(** X26.  The label of the zoom controls is a percentage between 100 and
    1000: for a scale in [1, 10] it is the decimal of a whole number [n]
    followed by the percent sign, with 100 <= n <= 1000 and [n] at most
    one half from 100 times the scale. *)
Theorem zoom_label_is_a_percentage (scale : Q) :
  1 <= scale <= 10 ->
  exists n : Z,
    ZoomControls.label scale = (Js.decimal n ++ "%")%string
    /\ (100 <= n <= 1000)%Z
    /\ scale * 100 - (1 # 2) < inject_Z n <= scale * 100 + (1 # 2).
Proof.
  intros Hs. exists (Qfloor (scale * 100 + (1 # 2))).
  split; [unfold ZoomControls.label, Js.round; now rewrite Qfloor_Z |].
  split; [| apply (round_near (scale * 100))].
  split.
  - assert (H : (Qfloor 100 <= Qfloor (scale * 100 + (1 # 2)))%Z)
      by (apply Qfloor_resp_le; lra).
    exact H.
  - apply (round_within (scale * 100) 1000).
    change (inject_Z 1000) with 1000. lra.
Qed.

Lemma zoom_label_is_a_percentage_witness :
  exists n : Z, ZoomControls.label (5 # 4) = (Js.decimal n ++ "%")%string
                /\ (100 <= n <= 1000)%Z.
Proof.
  assert (Hs : 1 <= 5 # 4 <= 10) by (split; vm_compute; discriminate).
  destruct (zoom_label_is_a_percentage (5 # 4) Hs) as (n & Hlabel & Hn & _).
  exists n. exact (conj Hlabel Hn).
Defined.
